(** * RAPID: robustness metrics and their comparison

    A shallow embedding of the [rapid.robustness] package: the three
    transformation stages ([t1], [t2], [t3]), the named metrics of
    [common_metrics], the composer [custom_R_metric], the tabular evaluator
    [calc.f_to_R] and the comparison engine [comparisons].

    Numbers.  The Python code computes on numpy [float64] arrays.  The
    stage functions are written once, over a class [Number] of the
    operations they use, and run at two instances:
    - [xval]: exact rational arithmetic extended with the IEEE special
      values (both infinities and NaN), so that division by zero and NaN
      propagation behave as in numpy while rounding (and the sign of zero)
      is abstracted; the general theorems are stated at this instance;
    - [float]: the kernel's binary64 numbers, which evaluate the code on
      the concrete vectors of the test-suite bit for bit.

    Signs.  The statements about the sign of a regret or of a range are
    proved once for every number type that satisfies the laws [SignLaws]
    of comparison, negation and subtraction, which are laws of the exact
    values and of IEEE 754 binary64, where a difference may round or
    overflow, and not of the fixed-width integers.

    Arrays.  A 2-D array is the list of its rows, a 1-D array a list.  An
    exception raised by numpy or Python is the result [None]. *)

From Stdlib Require Import PrimFloat.
From Stdlib Require Import QArith Qcanon Qround.
From Stdlib Require Import Sorting.Sorted Sorting.Permutation.
From stdpp Require Import base option list sorting gmap strings.

Local Open Scope Z_scope.

(** ** The numbers of the embedding *)

(** The operations on array elements that the package relies on. *)
Class Number (A : Type) := {
  n_of_Z : Z -> A;
  n_opp : A -> A;
  n_add : A -> A -> A;
  n_sub : A -> A -> A;
  n_mul : A -> A -> A;
  n_div : A -> A -> A;
  n_abs : A -> A;
  n_le : A -> A -> bool;
  n_lt : A -> A -> bool;
  n_isnan : A -> bool;
  n_nan : A
}.

(** Exact values: a rational, an infinity, or NaN. *)
Inductive xval : Type :=
  | Fin (q : Qc)
  | PInf
  | NInf
  | NaN.

Definition qc_le (a b : Qc) : bool :=
  match (a ?= b)%Qc with Gt => false | _ => true end.

Definition qc_lt (a b : Qc) : bool :=
  match (a ?= b)%Qc with Lt => true | _ => false end.

Definition qc_of_Z (z : Z) : Qc := Q2Qc (inject_Z z).

Definition x_opp (a : xval) : xval :=
  match a with
  | Fin q => Fin (- q)%Qc
  | PInf => NInf
  | NInf => PInf
  | NaN => NaN
  end.

Definition x_add (a b : xval) : xval :=
  match a, b with
  | NaN, _ | _, NaN => NaN
  | Fin p, Fin q => Fin (p + q)%Qc
  | PInf, NInf | NInf, PInf => NaN
  | PInf, _ | _, PInf => PInf
  | NInf, _ | _, NInf => NInf
  end.

Definition x_sub (a b : xval) : xval := x_add a (x_opp b).

(** The sign of a product or quotient with an infinite operand. *)
Definition x_signed (s : comparison) : xval :=
  match s with Gt => PInf | Lt => NInf | Eq => NaN end.

Definition x_sign (a : xval) : comparison :=
  match a with
  | Fin q => (q ?= 0)%Qc
  | PInf => Gt
  | NInf => Lt
  | NaN => Eq
  end.

Definition sign_mul (s t : comparison) : comparison :=
  match s, t with
  | Eq, _ | _, Eq => Eq
  | Gt, Gt | Lt, Lt => Gt
  | _, _ => Lt
  end.

Definition x_mul (a b : xval) : xval :=
  match a, b with
  | NaN, _ | _, NaN => NaN
  | Fin p, Fin q => Fin (p * q)%Qc
  | _, _ => x_signed (sign_mul (x_sign a) (x_sign b))
  end.

(** Division as numpy performs it: a non-zero value over zero is an
    infinity, zero over zero is NaN, and nothing is raised. *)
Definition x_div (a b : xval) : xval :=
  match a, b with
  | NaN, _ | _, NaN => NaN
  | Fin p, Fin q =>
      if qc_le q 0 && qc_le 0 q then x_signed (p ?= 0)%Qc else Fin (p / q)%Qc
  | Fin _, _ => Fin 0%Qc
  | _, Fin q =>
      if qc_lt q 0 then x_opp a else a
  | _, _ => NaN
  end.

Definition x_abs (a : xval) : xval :=
  match a with
  | Fin q => Fin (if qc_lt q 0 then - q else q)%Qc
  | PInf | NInf => PInf
  | NaN => NaN
  end.

Definition x_le (a b : xval) : bool :=
  match a, b with
  | NaN, _ | _, NaN => false
  | Fin p, Fin q => qc_le p q
  | NInf, _ | _, PInf => true
  | _, _ => false
  end.

Definition x_lt (a b : xval) : bool :=
  match a, b with
  | NaN, _ | _, NaN => false
  | Fin p, Fin q => qc_lt p q
  | PInf, _ | _, NInf => false
  | _, _ => true
  end.

Definition x_isnan (a : xval) : bool :=
  match a with NaN => true | _ => false end.

#[export] Instance xval_Number : Number xval := {
  n_of_Z z := Fin (qc_of_Z z);
  n_opp := x_opp;
  n_add := x_add;
  n_sub := x_sub;
  n_mul := x_mul;
  n_div := x_div;
  n_abs := x_abs;
  n_le := x_le;
  n_lt := x_lt;
  n_isnan := x_isnan;
  n_nan := NaN
}.

(** Binary64: an integer is built from its binary digits, exactly as long
    as it is below [2^53]. *)
Fixpoint float_of_pos (p : positive) : float :=
  match p with
  | xH => 1%float
  | xO p' => (2 * float_of_pos p')%float
  | xI p' => (2 * float_of_pos p' + 1)%float
  end.

Definition float_of_Z (z : Z) : float :=
  match z with
  | Z0 => 0%float
  | Zpos p => float_of_pos p
  | Zneg p => (- float_of_pos p)%float
  end.

#[export] Instance float_Number : Number float := {
  n_of_Z := float_of_Z;
  n_opp := PrimFloat.opp;
  n_add := PrimFloat.add;
  n_sub := PrimFloat.sub;
  n_mul := PrimFloat.mul;
  n_div := PrimFloat.div;
  n_abs := PrimFloat.abs;
  n_le := PrimFloat.leb;
  n_lt := PrimFloat.ltb;
  n_isnan := PrimFloat.is_nan;
  n_nan := PrimFloat.nan
}.

(** ** numpy: the array primitives the package calls

    These are library functions, modelled from numpy's documented
    behaviour on 1-D and 2-D arrays. *)
Module np.
Section Generic.
Context {A : Type} `{Number A}.

Definition zero : A := n_of_Z 0.
Definition one : A := n_of_Z 1.

(** [np.minimum] and [np.maximum] on two elements: a NaN operand wins. *)
Definition minimum (a b : A) : A := if n_le a b || n_isnan a then a else b.
Definition maximum (a b : A) : A := if n_le b a || n_isnan a then a else b.

(** [ufunc.reduce] along an axis: a [ValueError] on an axis of length 0
    for an operation without identity. *)
Definition reduce {B : Type} (op : B -> B -> B) (l : list B) : option B :=
  match l with
  | [] => None
  | x :: l' => Some (fold_left op l' x)
  end.

(** [np.amin(f, 1)], [np.amax(f, 1)] and [np.amax(f, axis=0)]. *)
Definition amin1 (f : list (list A)) : option (list A) := mapM (reduce minimum) f.
Definition amax1 (f : list (list A)) : option (list A) := mapM (reduce maximum) f.
Definition amax0 (f : list (list A)) : option (list A) := reduce (zip_with maximum) f.

(** [keepdims=True]: a vector of length [m] as an [(m, 1)] array. *)
Definition keepdims (v : list A) : list (list A) := map (fun x => [x]) v.

(** [f[:, j]]: an [IndexError] when the array has no column [j]. *)
Definition column (j : nat) (f : list (list A)) : option (list A) :=
  mapM (fun r => r !! j) f.

(** [np.sum(f, axis=1)]: the sum of an empty row is 0.  The row is summed
    from left to right; numpy adds a row of eight or more elements in
    another order, which changes the rounding at binary64 and nothing in
    exact values. *)
Definition sum (l : list A) : A :=
  match l with
  | [] => zero
  | x :: l' => fold_left n_add l' x
  end.

(** [f.shape[1]] of a 2-D array with at least one row. *)
Definition shape1 {B : Type} (f : list (list B)) : nat :=
  match f with
  | [] => 0%nat
  | r :: _ => length r
  end.

Definition of_nat (n : nat) : A := n_of_Z (Z.of_nat n).

(** [np.mean(f, axis=1)] on one row: the sum over the count, NaN (with a
    warning, no exception) on an empty row. *)
Definition mean (l : list A) : A := n_div (sum l) (of_nat (length l)).

(** Elementwise negation of a 1-D and of a 2-D array. *)
Definition neg1 (v : list A) : list A := map n_opp v.
Definition neg (f : list (list A)) : list (list A) := map neg1 f.

(** An operand of a broadcasting operation: a Python scalar, a 1-D or a
    2-D array; [to2d] gives the shape numpy broadcasts it with. *)
Inductive operand : Type :=
  | Scalar (c : A)
  | Vec (v : list A)
  | Mat (a : list (list A)).

(** An array argument of a stage-1 function: 1-D or 2-D. *)
Inductive ndarray : Type :=
  | Arr1 (v : list A)
  | Arr2 (a : list (list A)).

Definition to2d (c : operand) : list (list A) :=
  match c with
  | Scalar x => [[x]]
  | Vec v => [v]
  | Mat a => a
  end.

(** [-f] on an array argument. *)
Definition negative (f : ndarray) : ndarray :=
  match f with
  | Arr1 v => Arr1 (neg1 v)
  | Arr2 a => Arr2 (neg a)
  end.

(** The number written [n/d] in decimal notation, e.g. [0.99] as [99/100]:
    at binary64 the correctly rounded quotient, which is the value Python
    reads the literal as. *)
Definition ratio (n d : Z) : A := n_div (n_of_Z n) (n_of_Z d).

Definition neg_operand (c : operand) : operand :=
  match c with
  | Scalar x => Scalar (n_opp x)
  | Vec v => Vec (neg1 v)
  | Mat a => Mat (neg a)
  end.

(** Broadcasting along one axis: equal lengths, or one side of length 1
    which is stretched; anything else is a [ValueError]. *)
Definition bzip {B C D : Type} (op : B -> C -> D) (u : list B) (v : list C)
  : option (list D) :=
  if decide (length u = length v) then Some (zip_with op u v)
  else match u, v with
       | [x], _ => Some (map (op x) v)
       | _, [y] => Some (map (fun x => op x y) u)
       | _, _ => None
       end.

Definition broadcast2 {B C D : Type} (op : B -> C -> D)
    (a : list (list B)) (b : list (list C)) : option (list (list D)) :=
  bzip (bzip op) a b ≫= mapM id.

(** [np.where(b, 1., 0.)]. *)
Definition where10 (b : bool) : A := if b then one else zero.

(** [np.sort] along the last axis: ascending, NaN last. *)
Definition sort_le (a b : A) : bool :=
  n_isnan b || (negb (n_isnan a) && n_le a b).

Fixpoint insert_sorted (x : A) (l : list A) : list A :=
  match l with
  | [] => [x]
  | y :: l' => if sort_le x y then x :: l else y :: insert_sorted x l'
  end.

Definition sort (l : list A) : list A := foldr insert_sorted [] l.

(** [np.around] on a non-negative rational index: to the nearest integer,
    a half to the even neighbour. *)
Definition round_half_even (x : Q) : Z :=
  let fl := Qfloor x in
  match (x - inject_Z fl ?= 1 # 2)%Q with
  | Lt => fl
  | Gt => fl + 1
  | Eq => if Z.even fl then fl else fl + 1
  end.

(** [np.quantile(row, q, interpolation='nearest')] on one row: the
    element of the sorted row at the index nearest to [q * (n - 1)]; NaN
    when the row holds a NaN; a [ValueError] when [q] is outside [0, 1].
    On an empty row numpy's behaviour depends on its version; it is an
    error here and no theorem relies on it.  The index is computed from
    [q] as a rational; numpy computes it from the binary64 number nearest
    to [q], which is [q] itself for 0 and 1, the two percentiles at which
    a theorem says which element is taken. *)
Definition quantile_nearest (row : list A) (q : Q) : option A :=
  if negb (Qle_bool 0 q && Qle_bool q 1) then None
  else if existsb n_isnan row then Some n_nan
  else sort row !! Z.to_nat (round_half_even (q * inject_Z (Z.of_nat (length row) - 1))).

(** [np.quantile(f, percentiles, axis=1, interpolation='nearest')]: one
    row per percentile, one column per row of [f]. *)
Definition quantile (f : list (list A)) (percentiles : list Q)
  : option (list (list A)) :=
  mapM (fun q => mapM (fun row => quantile_nearest row q) f) percentiles.

(** [np.transpose] of an array with [n] columns. *)
Definition transpose (n : nat) (a : list (list A)) : list (list A) :=
  map (fun j => omap (fun r => r !! j) a) (seq 0 n).

(** [np.median] of one row: the mean of the middle element of the sorted
    row, or of the two middle elements when the length is even; NaN when
    the row holds a NaN or is empty. *)
Definition median (row : list A) : A :=
  if existsb n_isnan row then n_nan
  else
    let s := sort row in
    let n := length row in
    if Nat.even n then mean (take 2 (drop (n / 2 - 1) s))
    else mean (take 1 (drop ((n - 1) / 2) s)).

(** [np.var(row, ddof=1)]: the squared deviations from the mean, summed
    and divided by [max(n - 1, 0)]; NaN on a row of one element. *)
Definition var_ddof1 (row : list A) : A :=
  let arrmean := mean row in
  let x := map (fun a => n_sub a arrmean) row in
  let x := map (fun a => n_mul a a) x in
  n_div (sum x) (of_nat (length row - 1)).

(** [np.reshape(v, newshape=(m, n))]: rows of [n] consecutive elements; a
    [ValueError] unless [v] has [m * n] elements. *)
Fixpoint chunks (m n : nat) (v : list A) : list (list A) :=
  match m with
  | O => []
  | S m' => take n v :: chunks m' n (drop n v)
  end.

Definition reshape (m n : nat) (v : list A) : option (list (list A)) :=
  if decide (length v = m * n)%nat then Some (chunks m n v) else None.

(** [np.isfinite], [==] and [np.allclose] with the default tolerances
    [rtol=1e-05], [atol=1e-08]. *)
Definition isfinite (a : A) : bool := negb (n_isnan (n_sub a a)).
Definition eq (a b : A) : bool := n_le a b && n_le b a.
Definition rtol : A := n_div one (n_of_Z 100000).
Definition atol : A := n_div one (n_of_Z 100000000).

Definition isclose (a b : A) : bool :=
  if isfinite a && isfinite b
  then n_le (n_abs (n_sub a b)) (n_add atol (n_mul rtol (n_abs b)))
  else eq a b.

Definition allclose (a b : list A) : option bool :=
  forallb id <$> bzip isclose a b.

End Generic.
Arguments operand A : clear implicits.
Arguments ndarray A : clear implicits.
End np.

(** A Python [for] loop over a list whose body may raise: the state is
    threaded through the iterations. *)
Fixpoint for_each {I S : Type} (body : I -> S -> option S) (l : list I) (s : S)
  : option S :=
  match l with
  | [] => Some s
  | i :: l' => body i s ≫= for_each body l'
  end.

(** Python's [range(a, b)]. *)
Definition range (a b : nat) : list nat := seq a (b - a).

(** ** Python values, dictionaries and the store

    A dictionary is a mutable object: it lives in the store under a
    location, and a value that is a dictionary is a reference to it, so
    that two references to one dictionary see each other's writes. *)
Module py.
Section Generic.
Context {A : Type}.

Inductive pyval : Type :=
  | PNone
  | PBool (b : bool)
  | PNum (x : A)
  | PStr (s : string)
  | PVec (v : list A)
  | PMat (a : list (list A))
  | PFractions (l : list Q)
  | PRef (l : positive).

(** What a robustness metric returns: a vector with one value for each
    decision alternative, or a bare number. *)
Inductive robustness : Type :=
  | RVec (v : list A)
  | RScalar (x : A).

End Generic.
Arguments pyval A : clear implicits.
Arguments robustness A : clear implicits.

Abbreviation dict A := (gmap string (pyval A)).
Abbreviation heap A := (gmap positive (gmap string (pyval A))).

(** A robustness metric as [f_to_R] calls it, [func(f, **kwargs)]: it
    reads the array and the keyword arguments (and, through references,
    the store) and returns a value or raises. *)
Abbreviation callable A :=
  (gmap positive (gmap string (pyval A)) -> list (list A) ->
   gmap string (pyval A) -> option (robustness A)).

(** A call with keywords other than [allowed] is a [TypeError]. *)
Definition keywords_ok {A : Type} (allowed : list string) (kw : dict A) : bool :=
  bool_decide (dom kw ⊆ list_to_set (C := gset string) allowed).

End py.

(** Python's [int()] on a number: truncation towards zero. *)
Definition py_int (x : Q) : Z :=
  if Qle_bool 0 x then Qfloor x else Qceiling x.

(** ** transforms/t1.py: performance value transformations *)
Module t1.
Section Generic.
Context {A : Type} `{Number A}.

Definition _prepare_f (f : np.ndarray A) : list (list A) :=
  match f with
  | np.Arr1 v => [v]
  | np.Arr2 a => a
  end.

Definition identity (f : np.ndarray A) (maximise : bool) : list (list A) :=
  let _f := _prepare_f f in
  if maximise then _f else np.neg _f.

Definition regret_from_best_da (f : np.ndarray A) (maximise : bool)
  : option (list (list A)) :=
  let _f := _prepare_f f in
  let _f := identity (np.Arr2 _f) maximise in
  best_decision_alternatives ← np.amax0 _f;
  np.broadcast2 n_sub _f (np.to2d (np.Vec best_decision_alternatives)).

Definition regret_from_values (f : np.ndarray A) (values : np.operand A)
    (maximise : bool) : option (list (list A)) :=
  let _f := _prepare_f f in
  let v :=
    match values with
    | np.Scalar c => np.Vec (replicate (np.shape1 _f) c)
    | _ => values
    end in
  regret ← np.broadcast2 n_sub _f (np.to2d v);
  Some (identity (np.Arr2 regret) maximise).

Definition satisficing_regret (f : np.ndarray A) (threshold : np.operand A)
    (maximise : bool) : option (list (list A)) :=
  let _f := _prepare_f f in
  regret ← regret_from_values (np.Arr2 _f) threshold maximise;
  Some (map (map (fun x => if n_lt np.zero x then np.zero else x)) regret).

Definition regret_from_median (f : np.ndarray A) (maximise : bool)
  : option (list (list A)) :=
  let _f := _prepare_f f in
  let median_f := np.keepdims (map np.median _f) in
  regret ← np.broadcast2 n_sub _f median_f;
  Some (identity (np.Arr2 regret) maximise).

Definition satisfice (f : np.ndarray A) (maximise : bool)
    (threshold : np.operand A) (accept_equal : bool) : option (list (list A)) :=
  let _f := _prepare_f f in
  let _f := identity (np.Arr2 _f) maximise in
  let c := if maximise then threshold else np.neg_operand threshold in
  _f ← (if accept_equal
        then np.broadcast2 (fun x y => n_le y x) _f (np.to2d c)
        else np.broadcast2 (fun x y => n_lt y x) _f (np.to2d c));
  Some (map (map np.where10) _f).

End Generic.
End t1.

(** ** transforms/t2.py: scenario subset selection *)
Module t2.
Section Generic.
Context {A : Type} `{Number A}.

Definition all_scenarios (f : list (list A)) : list (list A) := f.

Definition worst_case (f : list (list A)) : option (list (list A)) :=
  np.keepdims <$> np.amin1 f.

Definition best_case (f : list (list A)) : option (list (list A)) :=
  np.keepdims <$> np.amax1 f.

Definition worst_and_best_cases (f : list (list A)) : option (list (list A)) :=
  worst_f ← worst_case f;
  best_f ← best_case f;
  Some (zip_with app worst_f best_f).

(** The count [int(n / 2. + 0.51)] is a computation on Python numbers,
    not on array elements: it is taken in exact rationals, which binary64
    follows for every [n] below [2^46]. *)
Definition worst_half (f : list (list A)) : list (list A) :=
  let sorted_f := map np.sort f in
  let n := np.shape1 sorted_f in
  let _n := py_int (inject_Z (Z.of_nat n) / 2 + (51 # 100))%Q in
  map (take (Z.to_nat _n)) sorted_f.

Definition select_percentiles (f : list (list A)) (percentiles : list Q)
  : option (list (list A)) :=
  q ← np.quantile f percentiles;
  Some (np.transpose (length f) q).

End Generic.
End t2.

(** ** transforms/t3.py: aggregation to a robustness value *)
Module t3.
Section Generic.
Context {A : Type} `{Number A}.

Definition two : A := n_of_Z 2.

Definition f_identity (f : list (list A)) : list A := concat f.

Definition f_mean (f : list (list A)) : list A := map np.mean f.

Definition f_range (f : list (list A)) : option (list A) :=
  max_f ← np.amax1 f;
  min_f ← np.amin1 f;
  Some (zip_with n_sub max_f min_f).

Definition f_sum (f : list (list A)) : list A :=
  map (fun r => n_div (np.sum r) (np.of_nat (np.shape1 f))) f.

(** [np.matmul(f, weights)]: a [ValueError] unless [f] has as many
    columns as there are weights.  A row gives the sum of its products,
    added from left to right; at binary64 numpy may round this sum
    differently. *)
Definition f_w_sum (f : list (list A)) (weights : list A) : option (list A) :=
  mapM (fun r => if decide (length r = length weights)
                 then Some (np.sum (zip_with n_mul r weights))
                 else None) f.

Definition f_variance (f : list (list A)) : list A := map np.var_ddof1 f.

Definition f_skew (f : list (list A)) (reverse : bool) : option (list A) :=
  p10 ← np.column 0 f;
  p50 ← np.column 1 f;
  p90 ← np.column 2 f;
  let mid := map (fun x => n_div x two) (zip_with n_add p90 p10) in
  let R := if negb reverse then zip_with n_sub p50 mid else zip_with n_sub mid p50 in
  let normaliser := map (fun x => n_div x two) (zip_with n_sub p90 p10) in
  Some (zip_with n_div R normaliser).

Definition f_kurtosis (f : list (list A)) : option (list A) :=
  p10 ← np.column 0 f;
  p25 ← np.column 1 f;
  p75 ← np.column 2 f;
  p90 ← np.column 3 f;
  Some (zip_with n_div (zip_with n_sub p90 p10) (zip_with n_sub p75 p25)).

End Generic.
End t3.

(** ** common_metrics.py *)
Module common_metrics.
Section Generic.
Context {A : Type} `{Number A}.

Definition maximin (f : np.ndarray A) (maximise : bool) : option (list A) :=
  let _f := t1.identity f maximise in
  _f ← t2.worst_case _f;
  Some (t3.f_sum _f).

Definition maximax (f : np.ndarray A) (maximise : bool) : option (list A) :=
  let _f := t1.identity f maximise in
  _f ← t2.best_case _f;
  Some (t3.f_sum _f).

Definition hurwicz (f : np.ndarray A) (maximise : bool) (alpha : A)
  : option (list A) :=
  let weights := [alpha; n_sub np.one alpha] in
  let _f := t1.identity f maximise in
  _f ← t2.worst_and_best_cases _f;
  t3.f_w_sum _f weights.

Definition laplace (f : np.ndarray A) (maximise : bool) : list A :=
  let _f := t1.identity f maximise in
  let _f := t2.all_scenarios _f in
  t3.f_mean _f.

Definition minimax_regret (f : np.ndarray A) (maximise : bool) : option (list A) :=
  _f ← t1.regret_from_best_da f maximise;
  _f ← t2.worst_case _f;
  Some (t3.f_sum _f).

Definition percentile_regret (f : np.ndarray A) (maximise : bool) (percentile : Q)
  : option (list A) :=
  _f ← t1.regret_from_best_da f maximise;
  _f ← t2.select_percentiles _f [percentile];
  Some (t3.f_sum _f).

Definition undesirable_deviations (f : np.ndarray A) (maximise : bool)
  : option (list A) :=
  _f ← t1.regret_from_median f maximise;
  let _f := t2.worst_half _f in
  Some (t3.f_sum _f).

Definition percentile_skew (f : np.ndarray A) (maximise : bool) : option (list A) :=
  let _f := t1.identity f maximise in
  let percentiles := [1 # 10; 1 # 2; 9 # 10]%Q in
  _f ← t2.select_percentiles _f percentiles;
  t3.f_skew _f false.

Definition percentile_kurtosis (f : np.ndarray A) (maximise : bool) : option (list A) :=
  let _f := t1.identity f maximise in
  let percentiles := [1 # 10; 1 # 4; 3 # 4; 9 # 10]%Q in
  _f ← t2.select_percentiles _f percentiles;
  t3.f_kurtosis _f.

Definition starrs_domain (f : np.ndarray A) (maximise : bool)
    (threshold : np.operand A) (accept_equal : bool) : option (list A) :=
  _f ← t1.satisfice f maximise threshold accept_equal;
  let _f := t2.all_scenarios _f in
  Some (t3.f_mean _f).

(** The call [metric(f, **kwargs)] of a metric that takes [maximise]
    only: any other keyword is a [TypeError]. *)
Definition with_maximise (metric : np.ndarray A -> bool -> option (list A))
  : py.callable A :=
  fun _ f kwargs =>
    if py.keywords_ok ["maximise"] kwargs then
      maximise ← match kwargs !! "maximise" with
                 | None => Some true
                 | Some (py.PBool b) => Some b
                 | Some _ => None
                 end;
      py.RVec <$> metric (np.Arr2 f) maximise
    else None.

End Generic.
End common_metrics.

(** ** custom_metrics.py: the composer *)
Module custom_metrics.
Section Generic.
Context {A : Type} `{Number A}.

(** The three stage functions, each called with its keyword arguments. *)
Record custom_R_metric : Type := {
  t1_func : np.ndarray A -> bool -> py.dict A -> option (list (list A));
  t2_func : list (list A) -> py.dict A -> option (list (list A));
  t3_func : list (list A) -> py.dict A -> option (list A)
}.

(** [custom_R_metric.__call__]. *)
Definition call (self : custom_R_metric) (f : np.ndarray A) (maximise : bool)
    (t1_kwargs t2_kwargs t3_kwargs : option (py.dict A)) : option (py.robustness A) :=
  let t1_kwargs := default ∅ t1_kwargs in
  let t2_kwargs := default ∅ t2_kwargs in
  let t3_kwargs := default ∅ t3_kwargs in
  transformed_f ← t1_func self f maximise t1_kwargs;
  selected_f ← t2_func self transformed_f t2_kwargs;
  R ← t3_func self selected_f t3_kwargs;
  match R with
  | [x] => Some (py.RScalar x)
  | _ => Some (py.RVec R)
  end.

(** Stage functions called with keywords, [t(f, **kwargs)]. *)
Definition as_operand (v : py.pyval A) : option (np.operand A) :=
  match v with
  | py.PNum x => Some (np.Scalar x)
  | py.PVec v => Some (np.Vec v)
  | py.PMat a => Some (np.Mat a)
  | _ => None
  end.

Definition kw_identity (f : np.ndarray A) (maximise : bool) (kw : py.dict A)
  : option (list (list A)) :=
  if py.keywords_ok [] kw then Some (t1.identity f maximise) else None.

Definition kw_satisfice (f : np.ndarray A) (maximise : bool) (kw : py.dict A)
  : option (list (list A)) :=
  if py.keywords_ok ["threshold"; "accept_equal"] kw then
    threshold ← match kw !! "threshold" with
                | None => Some (np.Scalar np.zero)
                | Some v => as_operand v
                end;
    accept_equal ← match kw !! "accept_equal" with
                   | None => Some true
                   | Some (py.PBool b) => Some b
                   | Some _ => None
                   end;
    t1.satisfice f maximise threshold accept_equal
  else None.

Definition kw_all_scenarios (f : list (list A)) (kw : py.dict A)
  : option (list (list A)) :=
  if py.keywords_ok [] kw then Some (t2.all_scenarios f) else None.

Definition kw_worst_case (f : list (list A)) (kw : py.dict A)
  : option (list (list A)) :=
  if py.keywords_ok [] kw then t2.worst_case f else None.

Definition kw_f_sum (f : list (list A)) (kw : py.dict A) : option (list A) :=
  if py.keywords_ok [] kw then Some (t3.f_sum f) else None.

Definition kw_f_mean (f : list (list A)) (kw : py.dict A) : option (list A) :=
  if py.keywords_ok [] kw then Some (t3.f_mean f) else None.

(** The keyword dictionaries of a call [metric(f, **kwargs)]: the nested
    dictionaries are read through their references. *)
Definition stage_kwargs (h : py.heap A) (kwargs : py.dict A) (key : string)
  : option (option (py.dict A)) :=
  match kwargs !! key with
  | None | Some py.PNone => Some None
  | Some (py.PRef l) => Some <$> h !! l
  | Some _ => None
  end.

Definition as_func (self : custom_R_metric) : py.callable A :=
  fun h f kwargs =>
    if py.keywords_ok ["maximise"; "t1_kwargs"; "t2_kwargs"; "t3_kwargs"] kwargs then
      maximise ← match kwargs !! "maximise" with
                 | None => Some true
                 | Some (py.PBool b) => Some b
                 | Some _ => None
                 end;
      t1_kwargs ← stage_kwargs h kwargs "t1_kwargs";
      t2_kwargs ← stage_kwargs h kwargs "t2_kwargs";
      t3_kwargs ← stage_kwargs h kwargs "t3_kwargs";
      call self (np.Arr2 f) maximise t1_kwargs t2_kwargs t3_kwargs
    else None.

End Generic.
End custom_metrics.

(** ** evaluator/calc.py: the tabular evaluator *)
Module calc.
Section Generic.
Context {A : Type} `{Number A}.

(** A [pandas.DataFrame] of numbers: the column labels (taken to be
    distinct) and the rows in their stored order. *)
Record DataFrame : Type := {
  columns : list string;
  values : list (list A)
}.

(** [f_df.columns.get_loc(name)]: a [KeyError] for an unknown label. *)
Definition get_loc (f_df : DataFrame) (name : string) : option nat :=
  fst <$> list_find (fun c => c = name) (columns f_df).

(** [f_df[name].values] and [f_df.iloc[:, get_loc(name)].values]. *)
Definition column_values (f_df : DataFrame) (name : string) : option (list A) :=
  j ← get_loc f_df name;
  np.column j (values f_df).

(** Two stored values are the same entry for [unique]. *)
Definition same (a b : A) : bool := np.eq a b || (n_isnan a && n_isnan b).

(** [Series.unique()]: the distinct values in order of first appearance. *)
Definition unique (l : list A) : list A :=
  foldl (fun acc x => if existsb (same x) acc then acc else acc ++ [x]) [] l.

(** The row order of [sort_values(by, ascending=[True, ...])]: the keys
    are compared column after column. *)
Fixpoint rows_le (keys : list nat) (r1 r2 : list A) : bool :=
  match keys with
  | [] => true
  | k :: keys' =>
      match r1 !! k, r2 !! k with
      | Some a, Some b =>
          if np.sort_le a b && negb (np.sort_le b a) then true
          else if np.sort_le b a && negb (np.sort_le a b) then false
          else rows_le keys' r1 r2
      | _, _ => true
      end
  end.

Fixpoint insert_row (keys : list nat) (r : list A) (l : list (list A))
  : list (list A) :=
  match l with
  | [] => [r]
  | r' :: l' =>
      if rows_le keys r r' then r :: l else r' :: insert_row keys r l'
  end.

(** [f_df.sort_values(by, ascending=...)]: a NEW frame with the rows in
    ascending key order; the frame it is called on is not changed. *)
Definition sort_values (f_df : DataFrame) (by_ : list string) : option DataFrame :=
  keys ← mapM (get_loc f_df) by_;
  Some {| columns := columns f_df;
          values := foldr (insert_row keys) [] (values f_df) |}.

(** [sort_f_df]: the sorted frame that [sort_values] returns is dropped,
    and the frame is returned as it came. *)
Definition sort_f_df (f_df : DataFrame) : option DataFrame :=
  _ ← sort_values f_df ["l_idx"; "s_idx"];
  Some f_df.

(** [f_df.loc[f_df['s_idx'] == s_idx]]. *)
Definition rows_where (f_df : DataFrame) (name : string) (x : A) : option DataFrame :=
  j ← get_loc f_df name;
  mask ← mapM (fun r => (fun y => np.eq y x) <$> r !! j) (values f_df);
  Some {| columns := columns f_df;
          values := zip mask (values f_df)
                    ≫= fun p : bool * list A => if p.1 then [p.2] else [] |}.

Definition get_f_df_details (f_df : DataFrame) : option (list A * list A) :=
  f_df ← sort_f_df f_df;
  s_idxs ← unique <$> column_values f_df "s_idx";
  l_idxs ← unique <$> column_values f_df "l_idx";
  _ ← for_each
        (fun s_idx (_ : unit) =>
           relevant_rows ← rows_where f_df "s_idx" s_idx;
           relevant_l_idxs ← column_values relevant_rows "l_idx";
           ok ← np.allclose relevant_l_idxs l_idxs;
           if ok : bool then Some tt else None)
        s_idxs tt;
  Some (s_idxs, l_idxs).

(** One entry of [R_dict]: the keys ['f'], ['maximise'], ['threshold'],
    ['func'] and ['kwargs']; the last is a reference to a dictionary. *)
Record R_info : Type := {
  i_f : string;
  i_maximise : bool;
  i_threshold : option string;
  i_func : py.callable A;
  i_kwargs : positive
}.

(** The block [if R_dict[R_metric]['threshold'] is not None: ...] of the
    loop body: the threshold column, reshaped, is stored under
    [kwargs['t1_kwargs']['threshold']], the dictionary
    [kwargs['t1_kwargs']] being created when [kwargs] has none. *)
Definition inject_threshold (f_df : DataFrame) (df_cols : list string)
    (s_idxs l_idxs : list A) (info : R_info) (h : py.heap A)
  : option (py.heap A) :=
  let kwargs := i_kwargs info in
  match i_threshold info with
  | None => Some h
  | Some threshold =>
      if negb (bool_decide (threshold ∈ df_cols)) then None else
      d ← h !! kwargs;
      let h :=
        match d !! "t1_kwargs" with
        | Some _ => h
        | None =>
            let l := fresh (dom h) in
            <[kwargs := <["t1_kwargs" := py.PRef l]> d]> (<[l := ∅]> h)
        end in
      thr ← column_values f_df threshold
            ≫= np.reshape (length l_idxs) (length s_idxs);
      d ← h !! kwargs;
      match d !! "t1_kwargs" with
      | Some (py.PRef l) =>
          t1_kwargs ← h !! l;
          Some (<[l := <["threshold" := py.PMat thr]> t1_kwargs]> h)
      | _ => None
      end
  end.

(** The body of the loop over the metrics of [R_dict]. *)
Definition f_to_R_body (f_df : DataFrame) (df_cols : list string)
    (s_idxs l_idxs : list A) (item : string * R_info)
    (st : gmap string (py.robustness A) * py.heap A)
  : option (gmap string (py.robustness A) * py.heap A) :=
  let '(R_metric, info) := item in
  let '(R, h) := st in
  let f_metric := i_f info in
  let kwargs := i_kwargs info in
  h ← inject_threshold f_df df_cols s_idxs l_idxs info h;
  f ← column_values f_df f_metric ≫= np.reshape (length l_idxs) (length s_idxs);
  d ← h !! kwargs;
  let h := <[kwargs := <["maximise" := py.PBool (i_maximise info)]> d]> h in
  d ← h !! kwargs;
  r ← i_func info h f d;
  Some (<[R_metric := r]> R, h).

(** [f_to_R], run in the store [h]; [R_dict] is given by its items in
    iteration order.  It returns the mapping [R] and the store it leaves. *)
Definition f_to_R (h : py.heap A) (f_df : DataFrame) (R_dict : list (string * R_info))
  : option (gmap string (py.robustness A) * py.heap A) :=
  let f_metrics := map (fun item => i_f item.2) R_dict in
  let df_cols := columns f_df in
  if negb (forallb (fun f_metric => bool_decide (f_metric ∈ df_cols)) f_metrics)
  then None else
  f_df ← sort_f_df f_df;
  '(s_idxs, l_idxs) ← get_f_df_details f_df;
  for_each (f_to_R_body f_df df_cols s_idxs l_idxs) R_dict (∅, h).

End Generic.
Arguments DataFrame A : clear implicits.
Arguments R_info A : clear implicits.
End calc.

(** ** analysis/comparisons.py *)
Module comparisons.
Section Generic.
Context {A : Type} `{Number A}.

(** [scipy.stats.kendalltau(x, y, nan_policy='omit')[0]]: a library
    function, left open. *)
Variable kendalltau : list A -> list A -> A.

(** [np.zeros((n, m))]. *)
Definition zeros (n m : nat) : list (list A) := replicate n (replicate m np.zero).

(** [M[i, j] = v]: an [IndexError] outside the array. *)
Definition setitem (M : list (list A)) (i j : nat) (v : A)
  : option (list (list A)) :=
  row ← M !! i;
  if decide (j < length row)%nat then Some (<[i := <[j := v]> row]> M) else None.

(** The body of the two nested loops of [scenarios_similarity]. *)
Definition similarity_step (R : list (list A)) (idx_1 idx_2 : nat)
    (st : list (list A) * list (list A)) : option (list (list A) * list (list A)) :=
  let '(deltas, taus) := st in
  R1 ← np.column idx_1 R;
  R2 ← np.column idx_2 R;
  let delta :=
    zip_with n_div
      (map n_abs (zip_with n_sub R1 R2))
      (map (fun x => n_div x t3.two) (map n_abs (zip_with n_add R1 R2))) in
  let delta := n_mul (np.mean delta) (n_of_Z 100) in
  deltas ← setitem deltas idx_1 idx_2 delta;
  deltas ← setitem deltas idx_2 idx_1 delta;
  let tau := kendalltau R1 R2 in
  taus ← setitem taus idx_1 idx_2 tau;
  taus ← setitem taus idx_2 idx_1 tau;
  Some (deltas, taus).

Definition scenarios_similarity (R : list (list A))
  : option (list (list A) * list (list A)) :=
  let n := np.shape1 R in
  let deltas := zeros n n in
  let taus := zeros n n in
  for_each
    (fun idx_1 => for_each (similarity_step R idx_1) (range idx_1 n))
    (range 0 n) (deltas, taus).

(** The body of the two nested loops of [R_metric_similarity]. *)
Definition tau_step (R : list (list A)) (idx_1 idx_2 : nat)
    (taus : list (list A)) : option (list (list A)) :=
  R1 ← np.column idx_1 R;
  R2 ← np.column idx_2 R;
  let tau := kendalltau R1 R2 in
  taus ← setitem taus idx_1 idx_2 tau;
  setitem taus idx_2 idx_1 tau.

Definition R_metric_similarity (R : list (list A)) : option (list (list A)) :=
  let n := np.shape1 R in
  let taus := zeros n n in
  for_each
    (fun idx_1 => for_each (tau_step R idx_1) (range idx_1 n))
    (range 0 n) taus.

End Generic.
End comparisons.

(** * The vocabulary of the statements

    Decidable equality of the values, the predicates the theorems are
    stated with, and the concrete inputs they are run on. *)

#[export] Instance xval_eq_dec : EqDecision xval.
Proof. solve_decision. Defined.

#[export] Instance robustness_eq_dec {A : Type} `{EqDecision A} :
  EqDecision (py.robustness A).
Proof. solve_decision. Defined.

#[export] Instance Q_eq_dec : EqDecision Q.
Proof. solve_decision. Defined.

#[export] Instance pyval_eq_dec {A : Type} `{EqDecision A} :
  EqDecision (py.pyval A).
Proof. solve_decision. Defined.

(** ** Concrete vectors of the test-suite *)

(** [f = [[0.99, 1.0, 0.5], [0.69, 0.6, 0.6]]] of [test_metrics.py]. *)
Definition test_rows {A : Type} `{Number A} : list (list A) :=
  [[np.ratio 99 100; np.ratio 1 1; np.ratio 1 2];
   [np.ratio 69 100; np.ratio 6 10; np.ratio 6 10]].

Definition test_f {A : Type} `{Number A} : np.ndarray A := np.Arr2 test_rows.

(** [np.allclose(R, expected)] on the result of a metric that may raise. *)
Definition result_allclose {A : Type} `{Number A}
    (R : option (list A)) (expected : list A) : option bool :=
  R ≫= fun R => np.allclose R expected.

(** A 2 x 5 array of ones, a 1 x 4 and a 1 x 5 array. *)
Definition ones_2x5 : list (list xval) := replicate 2 (replicate 5 np.one).

Definition row_4 : list (list xval) :=
  [[np.ratio 1 1; np.ratio 2 1; np.ratio 4 1; np.ratio 9 1]].

Definition row_5 : list (list xval) :=
  [[np.ratio 1 1; np.ratio 2 1; np.ratio 4 1; np.ratio 5 1; np.ratio 9 1]].

(** An array with [n] columns: every row has length [n]. *)
Definition uniform {A : Type} (n : nat) (f : list (list A)) : Prop :=
  Forall (fun r => length r = n) f.

(** A finite value: neither an infinity nor NaN. *)
Definition x_finite (a : xval) : Prop :=
  match a with Fin _ => True | _ => False end.

(** Whether a performance value meets the threshold, in the words of the
    spec: after the sign flip for a minimised metric, the value is at
    least (or more than) the threshold. *)
Definition meets_threshold (maximise accept_equal : bool) (threshold x : xval)
  : bool :=
  let v := if maximise then x else x_opp x in
  let c := if maximise then threshold else x_opp threshold in
  if accept_equal then x_le c v else x_lt c v.

(** The fraction [k / n] and the closed interval from 0 to 1. *)
Definition fraction (k n : nat) : xval :=
  Fin (qc_of_Z (Z.of_nat k) / qc_of_Z (Z.of_nat n))%Qc.

Definition unit_interval (x : xval) : Prop :=
  match x with
  | Fin q => (0 <= q)%Qc /\ (q <= 1)%Qc
  | _ => False
  end.

(** The relative difference of two columns, in the words of the spec:
    [|x - y| / (|x + y| / 2)] elementwise, averaged over the decision
    alternatives, as a percentage. *)
Definition relative_difference (x y : list xval) : xval :=
  x_mul
    (np.mean
       (zip_with x_div
          (map x_abs (zip_with x_sub x y))
          (map (fun v => x_div v t3.two) (map x_abs (zip_with x_add x y)))))
    (Fin (qc_of_Z 100)).

(** [M[i, j]], and a [k] x [k] array. *)
Definition entry {A : Type} (M : list (list A)) (i j : nat) : option A :=
  M !! i ≫= fun row => row !! j.

Definition square {A : Type} (k : nat) (M : list (list A)) : Prop :=
  length M = k /\ uniform k M.

(** The value [scenarios_similarity] stores for the pair of columns
    [(a, b)] of [R]. *)
Definition pair_value (R : list (list xval))
    (g : list xval -> list xval -> xval) (a b : nat) : xval :=
  match np.column a R, np.column b R with
  | Some c1, Some c2 => g c1 c2
  | _, _ => NaN
  end.

(** [M] is a [k] x [k] array that holds, for every pair in [P], the
    pair's value at both positions. *)
Definition filled (R : list (list xval)) (k : nat)
    (g : list xval -> list xval -> xval) (M : list (list xval))
    (P : nat -> nat -> Prop) : Prop :=
  square k M
  /\ forall a b, (a <= b)%nat -> P a b ->
       entry M a b = Some (pair_value R g a b)
       /\ entry M b a = Some (pair_value R g a b).

(** A value that is finite and not zero. *)
Definition x_nonzero (a : xval) : Prop :=
  match a with Fin q => q <> 0%Qc | _ => False end.

(** A stand-in for [scipy.stats.kendalltau]: the rank correlation 1. *)
Definition constant_tau (x y : list xval) : xval := np.one.

(** ** A long-format table in two row orders

    Two decision alternatives and two scenarios, columns [s_idx],
    [l_idx], [f1] and a threshold column [crit]: [f1] is 1, 2 for
    alternative 0 and 3, 4 for alternative 1. *)
Definition table_row (s l f1 crit : Z) : list xval :=
  [np.ratio s 1; np.ratio l 1; np.ratio f1 1; np.ratio crit 1].

Definition table_columns : list string := ["s_idx"; "l_idx"; "f1"; "crit"].

(** The rows ordered by decision alternative, then scenario. *)
Definition table_by_alternative : calc.DataFrame xval :=
  {| calc.columns := table_columns;
     calc.values := [table_row 0 0 1 2; table_row 1 0 2 2;
                     table_row 0 1 3 2; table_row 1 1 4 2] |}.

(** The same rows ordered by scenario, then decision alternative. *)
Definition table_by_scenario : calc.DataFrame xval :=
  {| calc.columns := table_columns;
     calc.values := [table_row 0 0 1 2; table_row 0 1 3 2;
                     table_row 1 0 2 2; table_row 1 1 4 2] |}.

(** [R_dict = {'R1': {'f': 'f1', 'maximise': True, 'threshold': None,
    'func': maximin, 'kwargs': {}}}], the dictionary [kwargs] at
    location 1 of the store. *)
Definition R_dict_maximin : list (string * calc.R_info xval) :=
  [("R1", {| calc.i_f := "f1"; calc.i_maximise := true;
             calc.i_threshold := None;
             calc.i_func := common_metrics.with_maximise common_metrics.maximin;
             calc.i_kwargs := 1%positive |})].

Definition store_empty_kwargs : py.heap xval := {[ 1%positive := ∅ ]}.

(** The value [f_to_R] returns under the name [R1]. *)
Definition R1_of (f_df : calc.DataFrame xval) : option (option (py.robustness xval)) :=
  (fun p => p.1 !! "R1") <$> calc.f_to_R store_empty_kwargs f_df R_dict_maximin.

(** [h[l][key]]: the value under [key] of the dictionary at location [l]. *)
Definition lookup2 {A : Type} (h : py.heap A) (l : positive) (key : string)
  : option (py.pyval A) :=
  h !! l ≫= fun d => d !! key.






(** [R_dict = {'R1': {'f': 'f1', 'maximise': True, 'threshold': 'crit',
    'func': custom_R_metric(satisfice, all_scenarios, f_mean),
    'kwargs': {}}}]. *)
Definition satisfice_mean : custom_metrics.custom_R_metric (A := xval) :=
  {| custom_metrics.t1_func := custom_metrics.kw_satisfice;
     custom_metrics.t2_func := custom_metrics.kw_all_scenarios;
     custom_metrics.t3_func := custom_metrics.kw_f_mean |}.

Definition R_dict_threshold : list (string * calc.R_info xval) :=
  [("R1", {| calc.i_f := "f1"; calc.i_maximise := true;
             calc.i_threshold := Some "crit";
             calc.i_func := custom_metrics.as_func satisfice_mean;
             calc.i_kwargs := 1%positive |})].

(** What the call on [table_by_alternative] returns and the store it
    leaves. *)
Definition R_threshold : gmap string (py.robustness xval) :=
  match calc.f_to_R store_empty_kwargs table_by_alternative R_dict_threshold with
  | Some p => p.1
  | None => ∅
  end.

Definition store_threshold : py.heap xval :=
  match calc.f_to_R store_empty_kwargs table_by_alternative R_dict_threshold with
  | Some p => p.2
  | None => ∅
  end.

(** A row without NaN. *)
Definition no_nan (l : list xval) : Prop := Forall (fun a => x_isnan a = false) l.

(** The order [np.sort] sorts the exact values by: ascending, NaN last. *)
Definition ascending (a b : xval) : Prop := np.sort_le a b = true.

(** The order of the values in the words of the spec, "ascending": the
    order of the rationals between the two infinities, NaN after every
    number.  It is written against the order of the rationals and not
    against the comparison [np.sort] sorts with. *)
Definition value_le (a b : xval) : Prop :=
  match a, b with
  | _, NaN => True
  | NaN, _ => False
  | NInf, _ => True
  | _, NInf => False
  | _, PInf => True
  | PInf, _ => False
  | Fin p, Fin q => (p <= q)%Qc
  end.

(** [w] holds the smallest values of [row], in ascending order: [row] is
    [w] and the values left out, and no value left out is below a value
    of [w]. *)
Definition smallest_first (row w : list xval) : Prop :=
  StronglySorted value_le w
  /\ exists rest, row ≡ₚ w ++ rest
       /\ Forall (fun x => Forall (value_le x) rest) w.

(** ** Signs, sums and orders of exact values *)

(** A finite value that is at most zero. *)
Definition nonpositive (a : xval) : Prop :=
  match a with Fin q => (q <= 0)%Qc | _ => False end.

(** The sum of a list of rationals. *)
Definition qsum (l : list Qc) : Qc := foldr Qcplus 0%Qc l.

(** A row with the same finite value in each of its [n] scenarios. *)
Definition constant_row (n : nat) (r : list xval) : Prop :=
  exists c : Qc, r = replicate n (Fin c).

(** [custom_R_metric(identity, worst_case, f_sum)]: the stages maximin
    is made of. *)
Definition composed_maximin {A : Type} `{Number A}
  : custom_metrics.custom_R_metric (A := A) :=
  {| custom_metrics.t1_func := custom_metrics.kw_identity;
     custom_metrics.t2_func := custom_metrics.kw_worst_case;
     custom_metrics.t3_func := custom_metrics.kw_f_sum |}.

(** The squeeze at the end of [custom_R_metric.__call__]: a result of
    one element is returned as a bare number. *)
Definition squeeze {A : Type} (R : list A) : py.robustness A :=
  match R with
  | [x] => py.RScalar x
  | _ => py.RVec R
  end.

(** Two decision alternatives and no scenario. *)
Definition no_scenarios : list (list xval) := [[]; []].

(** The table without its column [l_idx]. *)
Definition table_without_l_idx : calc.DataFrame xval :=
  {| calc.columns := ["s_idx"; "f1"; "crit"];
     calc.values := [[np.ratio 0 1; np.ratio 1 1; np.ratio 2 1];
                     [np.ratio 1 1; np.ratio 2 1; np.ratio 2 1]] |}.

(** Two decision alternatives and a single scenario. *)
Definition one_scenario : list (list xval) := [[np.ratio 1 2]; [np.ratio 6 10]].

(** The binary64 number [1.5 * 2^1023]: it is finite, and its sum with
    itself and its difference with its negation overflow. *)
Definition huge : float := 0x1.8p+1023%float.

(** ** The laws of comparison, negation and subtraction

    What the statements about signs rely on.  The laws hold of the exact
    values and of IEEE 754 binary64 with its infinities, its NaN, its
    signed zeros, gradual underflow and rounding to nearest: a rounded
    difference has the sign of the exact one, overflows to the infinity
    of that sign and is zero only when the operands are equal.  They do
    not hold of the fixed-width integers, whose subtraction and negation
    wrap around: a statement under these laws is about arrays of
    floating-point numbers. *)
Class SignLaws (A : Type) `{Number A} : Prop := {
  n_le_number (a b : A) :
    n_le a b = true -> n_isnan a = false /\ n_isnan b = false;
  n_le_refl (a : A) : n_isnan a = false -> n_le a a = true;
  n_le_trans (a b c : A) : n_le a b = true -> n_le b c = true -> n_le a c = true;
  n_le_total (a b : A) :
    n_isnan a = false -> n_isnan b = false -> n_le a b = false -> n_le b a = true;
  n_lt_le (a b : A) : n_lt a b = n_le a b && negb (n_le b a);
  isfinite_number (a : A) : np.isfinite a = true -> n_isnan a = false;
  isfinite_zero : np.isfinite (np.zero (A := A)) = true;
  isfinite_opp (a : A) : np.isfinite a = true -> np.isfinite (n_opp a) = true;
  n_sub_le_zero (a b : A) :
    np.isfinite a = true -> np.isfinite b = true ->
    n_le (n_sub a b) np.zero = n_le a b;
  n_sub_ge_zero (a b : A) :
    np.isfinite a = true -> np.isfinite b = true ->
    n_le np.zero (n_sub a b) = n_le b a;
  n_opp_le_zero (a : A) : n_le (n_opp a) np.zero = n_le np.zero a;
  n_opp_ge_zero (a : A) : n_le np.zero (n_opp a) = n_le a np.zero;
  n_div_one (a : A) : n_div a np.one = a
}.

(** The laws of [SignLaws] on two given numbers, as a test that can be
    evaluated: it is run below on binary64 numbers that include the
    zeros, the infinities, NaN, the largest and the smallest positive
    number. *)
Definition sign_laws_test {A : Type} `{Number A} (a b : A) : bool :=
  implb (n_le a b) (negb (n_isnan a) && negb (n_isnan b))
  && implb (negb (n_isnan a)) (n_le a a)
  && implb (negb (n_isnan a) && negb (n_isnan b) && negb (n_le a b)) (n_le b a)
  && Bool.eqb (n_lt a b) (n_le a b && negb (n_le b a))
  && implb (np.isfinite a) (negb (n_isnan a))
  && implb (np.isfinite a) (np.isfinite (n_opp a))
  && implb (np.isfinite a && np.isfinite b)
       (Bool.eqb (n_le (n_sub a b) np.zero) (n_le a b)
        && Bool.eqb (n_le np.zero (n_sub a b)) (n_le b a))
  && Bool.eqb (n_le (n_opp a) np.zero) (n_le np.zero a)
  && Bool.eqb (n_le np.zero (n_opp a)) (n_le a np.zero)
  && (np.eq (n_div a np.one) a || (n_isnan a && n_isnan (n_div a np.one))).

Definition binary64_samples : list float :=
  [0; -0; 1; -1; 0x1p-1; 3; 0x1.0000000000001p+0; huge; - huge;
   0x1p-1074; - 0x1p-1074; 0x1p-1022; 0x1.fffffffffffffp+1023;
   - 0x1.fffffffffffffp+1023; infinity; neg_infinity; nan]%float.

(** * Properties *)

(** ** The metrics on the matrix of the test-suite *)

(** C6.  On the test-suite's matrix, at binary64: [maximin(f, True)] is
    close to [[0.5, 0.6]], [maximin(f, False)] to [[-1.0, -0.69]] and
    [minimax_regret(f, True)] to [[-0.1, -0.4]], in the sense of
    [np.allclose]; the last result is not equal to [[-0.1, -0.4]] bit for
    bit, so the tolerance is needed.  In exact arithmetic the three
    results are these vectors exactly. *)
Theorem maximin_minimax_regret_test_vectors :
  (result_allclose (A := float) (common_metrics.maximin test_f true)
     [np.ratio 1 2; np.ratio 6 10] = Some true
   /\ result_allclose (A := float) (common_metrics.maximin test_f false)
        [np.ratio (-1) 1; np.ratio (-69) 100] = Some true
   /\ result_allclose (A := float) (common_metrics.minimax_regret test_f true)
        [np.ratio (-1) 10; np.ratio (-4) 10] = Some true
   /\ common_metrics.minimax_regret (A := float) test_f true
        <> Some [np.ratio (-1) 10; np.ratio (-4) 10])
  /\ (common_metrics.maximin (A := xval) test_f true
        = Some [np.ratio 1 2; np.ratio 6 10]
      /\ common_metrics.maximin (A := xval) test_f false
           = Some [np.ratio (-1) 1; np.ratio (-69) 100]
      /\ common_metrics.minimax_regret (A := xval) test_f true
           = Some [np.ratio (-1) 10; np.ratio (-4) 10]).
Proof.
  split.
  - repeat split; try (vm_compute; reflexivity).
    vm_compute. intros [=].
  - repeat split; apply (bool_decide_unpack _); vm_compute; exact I.
Qed.

(** C7.  [satisfice(f, maximise=False, threshold=t, accept_equal=True)]
    equals [satisfice(-f, maximise=True, threshold=-t, accept_equal=True)],
    for every array [f] and scalar threshold [t], whatever the numbers. *)
Theorem satisfice_threshold_sign {A : Type} `{Number A}
    (f : np.ndarray A) (t : A) :
  t1.satisfice f false (np.Scalar t) true
  = t1.satisfice (np.negative f) true (np.Scalar (n_opp t)) true.
Proof.
  unfold t1.satisfice, t1.identity.
  destruct f as [v | a]; cbn [t1._prepare_f np.negative np.neg_operand];
    reflexivity.
Qed.

(** ** Columns of an array *)


Lemma column_is_Some {A : Type} (f : list (list A)) (n j : nat) :
  uniform n f -> (j < n)%nat -> is_Some (np.column j f).
Proof.
  unfold uniform. intros Hf Hj. apply mapM_is_Some, Forall_forall. intros r Hr.
  rewrite Forall_forall in Hf. apply lookup_lt_is_Some.
  rewrite (Hf r Hr). exact Hj.
Qed.

Lemma column_None {A : Type} (f : list (list A)) (n j : nat) :
  f <> [] -> uniform n f -> (np.column j f = None <-> (n <= j)%nat).
Proof.
  unfold uniform. intros Hne Hf. unfold np.column. rewrite mapM_None. split.
  - rewrite Exists_exists. intros (r & Hr & Hnone).
    rewrite Forall_forall in Hf. rewrite <- (Hf r Hr).
    by apply lookup_ge_None.
  - intros Hle. destruct f as [| r f']; [done |].
    apply Exists_cons_hd. apply lookup_ge_None.
    apply Forall_cons in Hf as [-> _]. exact Hle.
Qed.

Lemma column_take {A : Type} (f : list (list A)) (k j : nat) :
  (j < k)%nat -> np.column j (map (take k) f) = np.column j f.
Proof.
  intros Hj. unfold np.column. induction f as [| r f' IH]; [done |].
  cbn. rewrite lookup_take_lt by done. by rewrite IH.
Qed.

(** C5, as the code has it.  The package defines no [ShapeError] and the
    two aggregators do not check the number of columns: on an array with
    [n] columns (and at least one row) [f_skew] raises exactly when
    [n < 3] and [f_kurtosis] exactly when [n < 4] (the [IndexError] of the
    column access); with more columns than they use, they return the
    value computed from the first three, respectively four, columns. *)
Theorem f_skew_f_kurtosis_columns {A : Type} `{Number A}
    (f : list (list A)) (n : nat) (reverse : bool) :
  f <> [] -> uniform n f ->
  (t3.f_skew f reverse = None <-> (n < 3)%nat)
  /\ (t3.f_kurtosis f = None <-> (n < 4)%nat)
  /\ ((3 <= n)%nat -> t3.f_skew f reverse = t3.f_skew (map (take 3) f) reverse)
  /\ ((4 <= n)%nat -> t3.f_kurtosis f = t3.f_kurtosis (map (take 4) f)).
Proof.
  intros Hne Hf.
  assert (Hcol : forall j, (j < n)%nat -> exists c, np.column j f = Some c).
  { intros j Hj. by apply (column_is_Some f n j). }
  assert (Hnone : forall j, (n <= j)%nat -> np.column j f = None).
  { intros j Hj. by apply (column_None f n j). }
  repeat split.
  - intros Hskew. destruct (decide (n < 3)%nat) as [| Hge]; [done | exfalso].
    revert Hskew. unfold t3.f_skew.
    destruct (Hcol 0%nat ltac:(lia)) as [c0 ->].
    destruct (Hcol 1%nat ltac:(lia)) as [c1 ->].
    destruct (Hcol 2%nat ltac:(lia)) as [c2 ->]. done.
  - intros Hlt. unfold t3.f_skew.
    destruct (np.column 0 f) as [c0 |]; [| done].
    destruct (np.column 1 f) as [c1 |]; [| done].
    rewrite (Hnone 2%nat) by lia. done.
  - intros Hk. destruct (decide (n < 4)%nat) as [| Hge]; [done | exfalso].
    revert Hk. unfold t3.f_kurtosis.
    destruct (Hcol 0%nat ltac:(lia)) as [c0 ->].
    destruct (Hcol 1%nat ltac:(lia)) as [c1 ->].
    destruct (Hcol 2%nat ltac:(lia)) as [c2 ->].
    destruct (Hcol 3%nat ltac:(lia)) as [c3 ->]. done.
  - intros Hlt. unfold t3.f_kurtosis.
    destruct (np.column 0 f) as [c0 |]; [| done].
    destruct (np.column 1 f) as [c1 |]; [| done].
    destruct (np.column 2 f) as [c2 |]; [| done].
    rewrite (Hnone 3%nat) by lia. done.
  - intros _. unfold t3.f_skew. by rewrite !column_take by lia.
  - intros _. unfold t3.f_kurtosis. by rewrite !column_take by lia.
Qed.

(** The theorem of C5 on a concrete input:
    a 2 x 5 array. *)
Lemma f_skew_f_kurtosis_columns_witness :
  (t3.f_skew ones_2x5 false = None <-> (5 < 3)%nat)
  /\ (t3.f_kurtosis ones_2x5 = None <-> (5 < 4)%nat)
  /\ ((3 <= 5)%nat ->
      t3.f_skew ones_2x5 false = t3.f_skew (map (take 3) ones_2x5) false)
  /\ ((4 <= 5)%nat ->
      t3.f_kurtosis ones_2x5 = t3.f_kurtosis (map (take 4) ones_2x5)).
Proof.
  apply (f_skew_f_kurtosis_columns ones_2x5 5 false).
  - discriminate.
  - repeat constructor.
Defined.

(** C5 as stated fails: on an array with four columns [f_skew] raises
    nothing, and on one with five columns neither does [f_kurtosis]. *)
Lemma f_skew_accepts_four_columns :
  np.shape1 row_4 = 4%nat /\ t3.f_skew row_4 false = Some [np.ratio (-1) 3]
  /\ np.shape1 row_5 = 5%nat /\ t3.f_kurtosis row_5 = Some [np.ratio 4 2].
Proof.
  repeat split; apply (bool_decide_unpack _); vm_compute; exact I.
Qed.

(** ** The order of the exact values *)

Lemma qc_le_iff (a b : Qc) : qc_le a b = true <-> (a <= b)%Qc.
Proof.
  unfold qc_le. rewrite Qcle_alt.
  destruct (a ?= b)%Qc; split; congruence.
Qed.

Lemma qc_lt_iff (a b : Qc) : qc_lt a b = true <-> (a < b)%Qc.
Proof.
  unfold qc_lt. rewrite Qclt_alt.
  destruct (a ?= b)%Qc; split; congruence.
Qed.

Lemma qc_le_total (a b : Qc) : qc_le a b = false -> qc_le b a = true.
Proof.
  intros Hab. apply qc_le_iff, Qclt_le_weak, Qcnot_le_lt.
  intros Hle. apply qc_le_iff in Hle. congruence.
Qed.

Lemma qc_le_opp (a b : Qc) : qc_le (- b) (- a) = qc_le a b.
Proof.
  apply eq_true_iff_eq. rewrite !qc_le_iff. split; intros Hle.
  - rewrite <- (Qcopp_involutive a), <- (Qcopp_involutive b).
    by apply Qcopp_le_compat.
  - by apply Qcopp_le_compat.
Qed.

Lemma x_opp_involutive (a : xval) : x_opp (x_opp a) = a.
Proof. destruct a; cbn; by rewrite ?Qcopp_involutive. Qed.

Lemma x_le_opp (a b : xval) : x_le (x_opp b) (x_opp a) = x_le a b.
Proof. destruct a, b; cbn; auto using qc_le_opp. Qed.

Lemma x_isnan_opp (a : xval) : x_isnan (x_opp a) = x_isnan a.
Proof. by destruct a. Qed.


Lemma ascending_total (a b : xval) : np.sort_le a b = false -> ascending b a.
Proof.
  unfold ascending, np.sort_le. destruct a, b; cbn; try done.
  apply qc_le_total.
Qed.

Lemma ascending_trans (a b c : xval) :
  ascending a b -> ascending b c -> ascending a c.
Proof.
  unfold ascending, np.sort_le. destruct a, b, c; cbn; try done.
  rewrite !qc_le_iff. apply Qcle_trans.
Qed.

Lemma ascending_antisym (a b : xval) : ascending a b -> ascending b a -> a = b.
Proof.
  unfold ascending, np.sort_le. destruct a, b; cbn; try done.
  rewrite !qc_le_iff. intros Hab Hba. f_equal. by apply Qcle_antisym.
Qed.

(** ** [np.sort] returns the ascending permutation *)

Lemma insert_sorted_perm {A : Type} `{Number A} (x : A) (l : list A) :
  np.insert_sorted x l ≡ₚ x :: l.
Proof.
  induction l as [| y l IH]; cbn; [done |].
  destruct (np.sort_le x y); [done |].
  rewrite IH. apply Permutation_swap.
Qed.

Lemma sort_perm {A : Type} `{Number A} (l : list A) : np.sort l ≡ₚ l.
Proof.
  induction l as [| x l IH]; cbn; [done |].
  fold (np.sort l). by rewrite insert_sorted_perm, IH.
Qed.

Lemma length_sort {A : Type} `{Number A} (l : list A) :
  length (np.sort l) = length l.
Proof. apply Permutation_length, sort_perm. Qed.

Lemma insert_sorted_ascending (x : xval) (l : list xval) :
  StronglySorted ascending l -> StronglySorted ascending (np.insert_sorted x l).
Proof.
  induction 1 as [| y l Hl IH Hy]; cbn.
  - repeat constructor.
  - destruct (np.sort_le x y) eqn:Hxy.
    + constructor; [by constructor |].
      constructor; [done |].
      eapply Forall_impl; [exact Hy |]. intros z Hz.
      by apply (ascending_trans x y z).
    + constructor; [done |].
      rewrite insert_sorted_perm. constructor; [| done].
      by apply ascending_total.
Qed.

Lemma sort_ascending (l : list xval) : StronglySorted ascending (np.sort l).
Proof.
  induction l as [| x l IH]; cbn; [constructor |].
  by apply insert_sorted_ascending.
Qed.

(** ** [worst_half] *)

(** The number of columns [worst_half] keeps, [int(n / 2. + 0.51)], is
    the ceiling of [n / 2]. *)
Lemma worst_half_count (n : nat) :
  py_int (inject_Z (Z.of_nat n) / 2 + (51 # 100))%Q = Z.of_nat ((n + 1) / 2)
  /\ Qceiling (inject_Z (Z.of_nat n) / 2)%Q = Z.of_nat ((n + 1) / 2).
Proof.
  assert (Hdiv : Z.of_nat ((n + 1) / 2) = (Z.of_nat n + 1) / 2).
  { rewrite Nat2Z.inj_div, Nat2Z.inj_add. reflexivity. }
  rewrite Hdiv. unfold py_int, Qceiling, Qfloor, Qle_bool.
  cbn. rewrite !Z.mul_1_r.
  change (Z.pos (1 * 2 * 100)) with 200. change (Z.pos (1 * 2)) with 2.
  pose proof (Z.div_mod (Z.of_nat n + 1) 2 ltac:(lia)) as Hq.
  pose proof (Z.mod_pos_bound (Z.of_nat n + 1) 2 ltac:(lia)) as Hr.
  split.
  - replace (0 * 200 <=? Z.of_nat n * 100 + 51 * 2) with true
      by (symmetry; apply Z.leb_le; lia).
    symmetry. apply Z.div_unique
      with (r := Z.of_nat n * 100 + 51 * 2 - 200 * ((Z.of_nat n + 1) / 2)); lia.
  - pose proof (Z.div_mod (- Z.of_nat n) 2 ltac:(lia)).
    pose proof (Z.mod_pos_bound (- Z.of_nat n) 2 ltac:(lia)).
    lia.
Qed.

Lemma ascending_value_le (a b : xval) : ascending a b <-> value_le a b.
Proof.
  unfold ascending, np.sort_le.
  destruct a as [p| | |], b as [q| | |]; cbn; try done.
  apply qc_le_iff.
Qed.

Lemma sort_value_le (r : list xval) : StronglySorted value_le (np.sort r).
Proof.
  pose proof (sort_ascending r) as Hs.
  induction Hs as [|x l _ IH Hx]; constructor; [done|].
  eapply List.Forall_impl; [|exact Hx]. intros y. apply ascending_value_le.
Qed.

Lemma take_smallest_first (r : list xval) (k : nat) :
  smallest_first r (take k (np.sort r)).
Proof.
  pose proof (sort_value_le r) as Hs.
  rewrite <- (take_drop k (np.sort r)) in Hs.
  split; [by apply StronglySorted_app_1_l in Hs|].
  exists (drop k (np.sort r)). split.
  - by rewrite take_drop, sort_perm.
  - apply Forall_forall. intros x Hx. apply Forall_forall. intros y Hy.
    by apply (StronglySorted_app_1_elem_of _ _ _ _ _ Hs).
Qed.

(** C9.  On an array with [n] columns, [worst_half] returns for each row
    the first [int(n/2 + 0.51)] elements of the sorted row.  The sorted row
    is a permutation of the row in ascending order, the order being that of
    the rationals between the infinities with NaN last; so every row of
    the result has [ceil(n/2)] values, in ascending order, and no value of
    the row that is left out is below one that is kept.  For every [n]
    the count [int(n/2 + 0.51)] is the ceiling of [n/2]. *)
Theorem worst_half_first_half (f : list (list xval)) (n : nat) :
  uniform n f ->
  t2.worst_half f
  = map (fun r => take (Z.to_nat (py_int (inject_Z (Z.of_nat n) / 2 + (51 # 100))%Q))
                    (np.sort r)) f
  /\ Forall (fun r => StronglySorted value_le (np.sort r) /\ np.sort r ≡ₚ r) f
  /\ Forall2 (fun r w =>
                length w = Z.to_nat (Qceiling (inject_Z (Z.of_nat n) / 2)%Q)
                /\ smallest_first r w) f (t2.worst_half f)
  /\ (forall k : nat,
        py_int (inject_Z (Z.of_nat k) / 2 + (51 # 100))%Q
        = Qceiling (inject_Z (Z.of_nat k) / 2)%Q).
Proof.
  intros Hf.
  assert (t2.worst_half f
          = map (fun r => take (Z.to_nat (py_int (inject_Z (Z.of_nat n) / 2
                                                  + (51 # 100))%Q))
                            (np.sort r)) f) as Heq.
  { unfold t2.worst_half. rewrite map_map.
    destruct f as [| r f']; [done |].
    apply Forall_cons in Hf as [Hr _].
    cbn [np.shape1 map]. by rewrite length_sort, Hr. }
  split; [exact Heq | split; [| split]].
  - apply Forall_forall. intros r _. split; [apply sort_value_le | apply sort_perm].
  - rewrite Heq. apply Forall2_fmap_r, Forall_Forall2_diag.
    eapply Forall_impl; [exact Hf|]. intros r Hr. cbv beta in Hr.
    split; [|apply take_smallest_first].
    destruct (worst_half_count n) as [-> ->]. rewrite Nat2Z.id.
    rewrite length_take, length_sort, Hr.
    assert ((n + 1) / 2 <= n)%nat; [|lia].
    destruct n as [|n]; [done|]. apply Nat.Div0.div_le_upper_bound. lia.
  - intros k. destruct (worst_half_count k) as [-> ->]. done.
Qed.

(** The theorem of C9 on a concrete input:
    the 2 x 3 matrix of the test-suite. *)
Lemma worst_half_first_half_witness :
  t2.worst_half (A := xval) test_rows
  = map (fun r => take (Z.to_nat (py_int (inject_Z (Z.of_nat 3) / 2 + (51 # 100))%Q))
                    (np.sort r)) test_rows
  /\ Forall (fun r => StronglySorted value_le (np.sort r) /\ np.sort r ≡ₚ r)
       test_rows
  /\ Forall2 (fun r w =>
                length w = Z.to_nat (Qceiling (inject_Z (Z.of_nat 3) / 2)%Q)
                /\ smallest_first r w) test_rows (t2.worst_half test_rows)
  /\ (forall k : nat,
        py_int (inject_Z (Z.of_nat k) / 2 + (51 # 100))%Q
        = Qceiling (inject_Z (Z.of_nat k) / 2)%Q).
Proof.
  apply (worst_half_first_half test_rows 3). repeat constructor.
Defined.

(** ** Minimum and maximum are dual under negation *)

Lemma minimum_opp (a b : xval) :
  np.minimum a b = x_opp (np.maximum (x_opp a) (x_opp b)).
Proof.
  unfold np.minimum, np.maximum. cbn [n_le n_isnan xval_Number].
  rewrite x_le_opp, x_isnan_opp.
  destruct (x_le a b || x_isnan a); by rewrite x_opp_involutive.
Qed.

Lemma fold_minimum_opp (l : list xval) (x : xval) :
  fold_left np.minimum l x
  = x_opp (fold_left np.maximum (np.neg1 l) (x_opp x)).
Proof.
  revert x. induction l as [| a l IH]; intros x; cbn.
  - by rewrite x_opp_involutive.
  - rewrite IH. by rewrite (minimum_opp x a), x_opp_involutive.
Qed.

Lemma reduce_minimum_opp (r : list xval) :
  np.reduce np.minimum r = x_opp <$> np.reduce np.maximum (np.neg1 r).
Proof. destruct r as [| x l]; cbn; [done |]. by rewrite fold_minimum_opp. Qed.

Lemma neg1_involutive (v : list xval) : np.neg1 (np.neg1 v) = v.
Proof.
  unfold np.neg1. rewrite map_map. rewrite <- (map_id v) at 2.
  apply map_ext. intros a. apply x_opp_involutive.
Qed.


Lemma amin1_opp (g : list (list xval)) :
  np.amin1 g = np.neg1 <$> np.amax1 (np.neg g).
Proof.
  unfold np.amin1, np.amax1, np.neg. induction g as [| r g IH]; cbn; [done |].
  rewrite reduce_minimum_opp, IH.
  destruct (np.reduce np.maximum (np.neg1 r)) as [y |]; cbn; [| done].
  by destruct (mapM (np.reduce np.maximum) (map np.neg1 g)).
Qed.

Lemma keepdims_neg1 (v : list xval) :
  np.keepdims (np.neg1 v) = np.neg (np.keepdims v).
Proof. unfold np.keepdims, np.neg, np.neg1. by rewrite !map_map. Qed.

(** [worst_case] and [best_case] are dual: for every array,
    [worst_case(f) == -best_case(-f)], exceptions included. *)
Lemma worst_case_best_case_dual (g : list (list xval)) :
  t2.worst_case g = np.neg <$> t2.best_case (np.neg g).
Proof.
  unfold t2.worst_case, t2.best_case. rewrite amin1_opp.
  destruct (np.amax1 (np.neg g)) as [v |]; cbn; [| done].
  by rewrite keepdims_neg1.
Qed.

(** ** Negation commutes with the sum *)

Lemma qc_opp_0 : (- qc_of_Z 0)%Qc = qc_of_Z 0.
Proof. by apply Qc_is_canon. Qed.

Lemma x_add_opp (a b : xval) :
  x_add (x_opp a) (x_opp b) = x_opp (x_add a b).
Proof. destruct a, b; cbn; try done. f_equal. ring. Qed.

Lemma qc_compare_opp_0 (p : Qc) : (- p ?= 0)%Qc = CompOpp (p ?= 0)%Qc.
Proof.
  destruct (Qc_dec p 0) as [[Hlt | Hgt] | ->].
  - rewrite (proj1 (Qclt_alt _ _) Hlt). cbn. apply Qcgt_alt.
    apply Qclt_minus_iff in Hlt. by rewrite Qcplus_0_l in Hlt.
  - rewrite (proj1 (Qcgt_alt _ _) Hgt). cbn. apply Qclt_alt.
    apply Qclt_minus_iff. by rewrite Qcplus_0_l, Qcopp_involutive.
  - done.
Qed.

Lemma x_div_opp_l (a b : xval) : x_div (x_opp a) b = x_opp (x_div a b).
Proof.
  destruct a as [p | | |], b as [q | | |]; cbn; try done.
  - destruct (qc_le q 0 && qc_le 0 q).
    + rewrite qc_compare_opp_0. by destruct (p ?= 0)%Qc.
    + cbn. f_equal. unfold Qcdiv. ring.
  - by destruct (qc_lt q 0).
  - by destruct (qc_lt q 0).
Qed.

Lemma fold_add_opp (l : list xval) (x : xval) :
  fold_left x_add (np.neg1 l) (x_opp x) = x_opp (fold_left x_add l x).
Proof.
  revert x. induction l as [| a l IH]; intros x; cbn; [done |].
  by rewrite x_add_opp, IH.
Qed.

Lemma sum_neg1 (r : list xval) : np.sum (np.neg1 r) = x_opp (np.sum r).
Proof.
  destruct r as [| x l]; cbn.
  - unfold np.zero. cbn. by rewrite qc_opp_0.
  - apply fold_add_opp.
Qed.

Lemma f_sum_neg (g : list (list xval)) :
  t3.f_sum (np.neg g) = np.neg1 (t3.f_sum g).
Proof.
  assert (Hshape : np.shape1 (np.neg g) = np.shape1 g).
  { destruct g; cbn; [done | apply length_map]. }
  unfold t3.f_sum. rewrite Hshape. unfold np.neg, np.neg1 at 2.
  rewrite !map_map. apply map_ext. intros r.
  rewrite sum_neg1. apply x_div_opp_l.
Qed.

(** [maximin(f) == -maximax(-f)], for every array, exceptions included. *)
Lemma maximin_neg_maximax (f : np.ndarray xval) :
  common_metrics.maximin f true
  = np.neg1 <$> common_metrics.maximax (np.negative f) true.
Proof.
  unfold common_metrics.maximin, common_metrics.maximax, t1.identity.
  assert (Hprep : t1._prepare_f (np.negative f) = np.neg (t1._prepare_f f))
    by (by destruct f).
  rewrite Hprep, worst_case_best_case_dual.
  destruct (t2.best_case (np.neg (t1._prepare_f f))) as [b |]; cbn; [| done].
  by rewrite f_sum_neg.
Qed.

(** ** Finite values *)

Lemma minimum_cases {A : Type} `{Number A} (a b : A) :
  np.minimum a b = a \/ np.minimum a b = b.
Proof. unfold np.minimum. destruct (n_le a b || n_isnan a); auto. Qed.

Lemma fold_minimum_elem {A : Type} `{Number A} (l : list A) (x : A) :
  fold_left np.minimum l x ∈ x :: l.
Proof.
  revert x. induction l as [| a l IHl]; intros x; cbn; [by left |].
  pose proof (IHl (np.minimum x a)) as Hin.
  apply elem_of_cons in Hin as [-> | Hin].
  - destruct (minimum_cases x a) as [-> | ->]; [by left | by right; left].
  - by do 2 right.
Qed.

Lemma x_add_opp_finite (a : xval) : x_finite a -> x_add a (x_opp a) = np.zero.
Proof.
  destruct a as [q | | |]; cbn; try done. intros _.
  unfold np.zero. cbn. f_equal. rewrite Qcplus_opp_r. by apply Qc_is_canon.
Qed.

Lemma x_div_1_finite (a : xval) : x_finite a -> x_finite (x_div a (np.of_nat 1)).
Proof. by destruct a. Qed.

Lemma f_sum_keepdims (v : list xval) :
  t3.f_sum (np.keepdims v) = map (fun x => x_div x (np.of_nat 1)) v.
Proof.
  unfold t3.f_sum, np.keepdims. rewrite map_map.
  destruct v as [| x v']; [done |]. done.
Qed.

Lemma zip_add_neg1 (R : list xval) :
  Forall x_finite R ->
  zip_with x_add R (np.neg1 R) = replicate (length R) np.zero.
Proof.
  unfold np.neg1. cbn [n_opp xval_Number].
  induction 1 as [| a R Ha _ IH]; cbn; [done |].
  by rewrite IH, x_add_opp_finite.
Qed.

Lemma amin1_finite (g : list (list xval)) :
  Forall (Forall x_finite) g -> Forall (fun r => r <> []) g ->
  exists v, np.amin1 g = Some v /\ Forall x_finite v.
Proof.
  unfold np.amin1. induction g as [| r g IH]; intros Hfin Hne.
  - exists []. by split.
  - apply Forall_cons in Hfin as [Hr Hg]. apply Forall_cons in Hne as [Hr0 Hg0].
    destruct (IH Hg Hg0) as (v & Hv & Hvfin).
    destruct r as [| x l]; [done |]. cbn. rewrite Hv. cbn.
    eexists. split; [done |]. constructor; [| done].
    rewrite Forall_forall in Hr. apply Hr, fold_minimum_elem.
Qed.

(** C2, as the code has it.  [worst_case] and [best_case] are exact
    duals, [worst_case(f) == -best_case(-f)]; [maximin] and [maximax] are
    dual in the same way, [maximin(f) == -maximax(-f)], so that on a matrix
    of finite values with no empty row [maximin(f, True)] and
    [maximax(-f, True)] are both returned and add up to 0 elementwise. *)
Theorem maximin_maximax_duality (f : np.ndarray xval) :
  Forall (Forall x_finite) (t1._prepare_f f) ->
  Forall (fun r => r <> []) (t1._prepare_f f) ->
  t2.worst_case (t1._prepare_f f)
  = np.neg <$> t2.best_case (np.neg (t1._prepare_f f))
  /\ common_metrics.maximin f true
     = np.neg1 <$> common_metrics.maximax (np.negative f) true
  /\ exists R R' : list xval,
       common_metrics.maximin f true = Some R
       /\ common_metrics.maximax (np.negative f) true = Some R'
       /\ zip_with n_add R R' = replicate (length (t1._prepare_f f)) np.zero.
Proof.
  intros Hfin Hne. split; [apply worst_case_best_case_dual |].
  split; [apply maximin_neg_maximax |].
  destruct (amin1_finite _ Hfin Hne) as (v & Hv & Hvfin).
  assert (Hmaximin : common_metrics.maximin f true
                     = Some (map (fun x => x_div x (np.of_nat 1)) v)).
  { unfold common_metrics.maximin, t1.identity, t2.worst_case.
    rewrite Hv. cbn. by rewrite f_sum_keepdims. }
  pose proof (maximin_neg_maximax f) as Hdual. rewrite Hmaximin in Hdual.
  destruct (common_metrics.maximax (np.negative f) true) as [R' |]; [| done].
  injection Hdual as HR.
  exists (map (fun x => x_div x (np.of_nat 1)) v), R'.
  split; [done |]. split; [done |].
  assert (HR' : R' = np.neg1 (map (fun x => x_div x (np.of_nat 1)) v))
    by (rewrite <- (neg1_involutive R'); f_equal; symmetry; exact HR).
  rewrite HR'. cbn [n_add xval_Number]. rewrite zip_add_neg1.
  - rewrite length_map. f_equal. symmetry. by apply length_mapM in Hv.
  - apply Forall_forall. intros y Hy.
    apply list_elem_of_fmap in Hy as (z & -> & Hz).
    apply x_div_1_finite. rewrite Forall_forall in Hvfin. by apply Hvfin.
Qed.

(** The theorem of C2 on a concrete input:
    the matrix of the test-suite. *)
Lemma maximin_maximax_duality_witness :
  t2.worst_case (t1._prepare_f (A := xval) test_f)
  = np.neg <$> t2.best_case (np.neg (t1._prepare_f test_f))
  /\ common_metrics.maximin (A := xval) test_f true
     = np.neg1 <$> common_metrics.maximax (np.negative test_f) true
  /\ exists R R' : list xval,
       common_metrics.maximin test_f true = Some R
       /\ common_metrics.maximax (np.negative test_f) true = Some R'
       /\ zip_with n_add R R' = replicate (length (t1._prepare_f (A := xval) test_f)) np.zero.
Proof.
  apply (maximin_maximax_duality test_f); repeat constructor; discriminate.
Defined.

(** C2 as stated fails: on the matrix of the test-suite
    [maximin(f) + (-maximax(-f))] is [[1.0, 1.2]], twice [maximin(f)] and
    not 0, exactly and at binary64. *)
Lemma maximin_plus_neg_maximax_nonzero :
  (R ← common_metrics.maximin (A := xval) test_f true;
   R' ← common_metrics.maximax (np.negative test_f) true;
   Some (zip_with n_add R (np.neg1 R')))
  = Some [np.ratio 1 1; np.ratio 12 10]
  /\ result_allclose (A := float)
       (R ← common_metrics.maximin test_f true;
        R' ← common_metrics.maximax (np.negative test_f) true;
        Some (zip_with n_add R (np.neg1 R')))
       [np.zero; np.zero]
     = Some false.
Proof.
  split; [apply (bool_decide_unpack _); vm_compute; exact I |].
  vm_compute. reflexivity.
Qed.

(** ** Minimum, maximum and the sorted row *)

Lemma ascending_le (a b : xval) :
  x_isnan a = false -> x_isnan b = false -> np.sort_le a b = x_le a b.
Proof. by destruct a, b. Qed.

Lemma ascending_refl (a : xval) : ascending a a.
Proof.
  destruct (np.sort_le a a) eqn:Haa; [done |]. by apply ascending_total.
Qed.

Lemma maximum_cases {A : Type} `{Number A} (a b : A) :
  np.maximum a b = a \/ np.maximum a b = b.
Proof. unfold np.maximum. destruct (n_le b a || n_isnan a); auto. Qed.

Lemma fold_maximum_elem {A : Type} `{Number A} (l : list A) (x : A) :
  fold_left np.maximum l x ∈ x :: l.
Proof.
  revert x. induction l as [| a l IHl]; intros x; cbn; [by left |].
  pose proof (IHl (np.maximum x a)) as Hin.
  apply elem_of_cons in Hin as [-> | Hin].
  - destruct (maximum_cases x a) as [-> | ->]; [by left | by right; left].
  - by do 2 right.
Qed.

Lemma minimum_lower (a b : xval) :
  x_isnan a = false -> x_isnan b = false ->
  ascending (np.minimum a b) a /\ ascending (np.minimum a b) b.
Proof.
  intros Ha Hb. unfold np.minimum. cbn [n_le n_isnan xval_Number].
  rewrite Ha, orb_false_r, <- (ascending_le a b Ha Hb).
  destruct (np.sort_le a b) eqn:Hab.
  - split; [apply ascending_refl | done].
  - split; [by apply ascending_total | apply ascending_refl].
Qed.

Lemma maximum_upper (a b : xval) :
  x_isnan a = false -> x_isnan b = false ->
  ascending a (np.maximum a b) /\ ascending b (np.maximum a b).
Proof.
  intros Ha Hb. unfold np.maximum. cbn [n_le n_isnan xval_Number].
  rewrite Ha, orb_false_r, <- (ascending_le b a Hb Ha).
  destruct (np.sort_le b a) eqn:Hba.
  - split; [apply ascending_refl | done].
  - split; [by apply ascending_total | apply ascending_refl].
Qed.

Lemma fold_minimum_lower (l : list xval) (x : xval) :
  no_nan (x :: l) -> Forall (ascending (fold_left np.minimum l x)) (x :: l).
Proof.
  unfold no_nan. revert x. induction l as [| a l IH]; intros x Hnan; cbn.
  - constructor; [apply ascending_refl | constructor].
  - apply Forall_cons in Hnan as [Hx Hnan]. apply Forall_cons in Hnan as [Ha Hl].
    destruct (minimum_lower x a Hx Ha) as [Hmx Hma].
    assert (Hm : x_isnan (np.minimum x a) = false)
      by (by destruct (minimum_cases x a) as [-> | ->]).
    specialize (IH (np.minimum x a) (Forall_cons_2 _ _ _ Hm Hl)).
    apply Forall_cons in IH as [Hfm Hfl].
    repeat constructor; [| | done]; by eapply ascending_trans.
Qed.

Lemma fold_maximum_upper (l : list xval) (x : xval) :
  no_nan (x :: l) ->
  Forall (fun y => ascending y (fold_left np.maximum l x)) (x :: l).
Proof.
  unfold no_nan. revert x. induction l as [| a l IH]; intros x Hnan; cbn.
  - constructor; [apply ascending_refl | constructor].
  - apply Forall_cons in Hnan as [Hx Hnan]. apply Forall_cons in Hnan as [Ha Hl].
    destruct (maximum_upper x a Hx Ha) as [Hmx Hma].
    assert (Hm : x_isnan (np.maximum x a) = false)
      by (by destruct (maximum_cases x a) as [-> | ->]).
    specialize (IH (np.maximum x a) (Forall_cons_2 _ _ _ Hm Hl)).
    apply Forall_cons in IH as [Hfm Hfl].
    repeat constructor; [| | done]; by eapply ascending_trans.
Qed.

(** The first element of the sorted row is the row's minimum, the last
    one its maximum. *)
Lemma sort_first_minimum (r : list xval) :
  no_nan r -> np.sort r !! 0%nat = np.reduce np.minimum r.
Proof.
  intros Hnan. destruct r as [| x l]; [done |].
  cbn [np.reduce]. pose proof (sort_ascending (x :: l)) as Hs.
  pose proof (sort_perm (x :: l)) as Hp.
  destruct (np.sort (x :: l)) as [| h t] eqn:Hsort.
  { by apply Permutation_nil_cons in Hp. }
  cbn. f_equal. apply StronglySorted_inv in Hs as [_ Hht].
  pose proof (fold_minimum_lower l x Hnan) as Hlow.
  pose proof (fold_minimum_elem l x) as Hin.
  rewrite Forall_forall in Hlow, Hht.
  apply ascending_antisym.
  - rewrite <- Hp in Hin. apply elem_of_cons in Hin as [-> | Hin];
      [apply ascending_refl | by apply Hht].
  - apply Hlow. rewrite <- Hp. by left.
Qed.

Lemma sort_last_maximum (r : list xval) :
  no_nan r -> np.sort r !! (length r - 1)%nat = np.reduce np.maximum r.
Proof.
  intros Hnan. destruct r as [| x l]; [done |].
  cbn [np.reduce]. pose proof (sort_ascending (x :: l)) as Hs.
  pose proof (sort_perm (x :: l)) as Hp.
  rewrite <- (length_sort (x :: l)).
  replace (length (np.sort (x :: l)) - 1)%nat
    with (pred (length (np.sort (x :: l)))) by lia.
  rewrite <- last_lookup.
  destruct (last (np.sort (x :: l))) as [L |] eqn:Hlast.
  2:{ apply last_None in Hlast. rewrite Hlast in Hp.
      by apply Permutation_nil_cons in Hp. }
  f_equal. apply last_Some in Hlast as [s' Hs'].
  rewrite Hs' in Hs, Hp.
  pose proof (fold_maximum_upper l x Hnan) as Hup.
  pose proof (fold_maximum_elem l x) as Hin.
  rewrite Forall_forall in Hup.
  apply ascending_antisym.
  - apply Hup. rewrite <- Hp. apply elem_of_app. right. by left.
  - rewrite <- Hp in Hin. apply elem_of_app in Hin as [Hin | Hin].
    + eapply (StronglySorted_app_1_elem_of _ s' [L]); [done | done | by left].
    + apply list_elem_of_singleton in Hin as ->. apply ascending_refl.
Qed.

Lemma fold_minimum_nan (l : list xval) (x : xval) :
  x_isnan x || existsb x_isnan l = true -> fold_left np.minimum l x = NaN.
Proof.
  revert x. induction l as [| a l IH]; intros x; cbn [existsb fold_left].
  - rewrite orb_false_r. by destruct x.
  - intros Hnan. apply IH. rewrite <- Hnan.
    unfold np.minimum. cbn [n_le n_isnan xval_Number].
    destruct x, a; cbn; try done; by destruct (qc_le _ _).
Qed.

Lemma fold_maximum_nan (l : list xval) (x : xval) :
  x_isnan x || existsb x_isnan l = true -> fold_left np.maximum l x = NaN.
Proof.
  revert x. induction l as [| a l IH]; intros x; cbn [existsb fold_left].
  - rewrite orb_false_r. by destruct x.
  - intros Hnan. apply IH. rewrite <- Hnan.
    unfold np.maximum. cbn [n_le n_isnan xval_Number].
    destruct x, a; cbn; try done; by destruct (qc_le _ _).
Qed.

Lemma existsb_false_no_nan (r : list xval) :
  existsb x_isnan r = false -> no_nan r.
Proof.
  unfold no_nan. induction r as [| a r IH]; cbn; [constructor |].
  intros [Ha Hr]%orb_false_elim. constructor; auto.
Qed.

(** ** The nearest-rank index at the two extremes *)

Lemma round_half_even_low (k : Z) : np.round_half_even (0 * inject_Z k) = 0.
Proof. reflexivity. Qed.

Lemma round_half_even_high (k : Z) : np.round_half_even (1 * inject_Z k) = k.
Proof.
  unfold np.round_half_even.
  assert (Hfl : Qfloor (1 * inject_Z k) = k) by (by rewrite Qmult_1_l, Qfloor_Z).
  rewrite Hfl.
  assert (Hlt : (1 * inject_Z k - inject_Z k < 1 # 2)%Q).
  { rewrite Qmult_1_l. unfold Qminus. rewrite Qplus_opp_r. reflexivity. }
  apply Qlt_alt in Hlt. unfold Qcompare in *. by rewrite Hlt.
Qed.

Lemma quantile_nearest_low (r : list xval) :
  np.quantile_nearest r 0 = np.reduce np.minimum r.
Proof.
  unfold np.quantile_nearest.
  change (negb (Qle_bool 0 0 && Qle_bool 0 1)) with false. cbn [n_isnan xval_Number n_nan].
  destruct (existsb x_isnan r) eqn:Hnan.
  - destruct r as [| x l]; [done |]. cbn [np.reduce]. f_equal. symmetry.
    apply fold_minimum_nan. cbn [existsb] in Hnan. exact Hnan.
  - rewrite round_half_even_low. apply sort_first_minimum.
    by apply existsb_false_no_nan.
Qed.

Lemma quantile_nearest_high (r : list xval) :
  np.quantile_nearest r 1 = np.reduce np.maximum r.
Proof.
  unfold np.quantile_nearest.
  change (negb (Qle_bool 0 1 && Qle_bool 1 1)) with false. cbn [n_isnan xval_Number n_nan].
  destruct (existsb x_isnan r) eqn:Hnan.
  - destruct r as [| x l]; [done |]. cbn [np.reduce]. f_equal. symmetry.
    apply fold_maximum_nan. cbn [existsb] in Hnan. exact Hnan.
  - rewrite round_half_even_high.
    replace (Z.to_nat (Z.of_nat (length r) - 1)) with (length r - 1)%nat by lia.
    apply sort_last_maximum. by apply existsb_false_no_nan.
Qed.

(** ** One percentile *)

Lemma transpose_single {A : Type} (v : list A) :
  np.transpose (length v) [v] = np.keepdims v.
Proof.
  unfold np.transpose, np.keepdims. induction v as [| x v IH]; [done |].
  cbn [length seq map]. f_equal.
  rewrite <- fmap_S_seq, <- IH.
  change (S <$> seq 0 (length v)) with (map S (seq 0 (length v))).
  rewrite map_map. apply map_ext. intros j. done.
Qed.

Lemma select_percentiles_single (f : list (list xval)) (q : Q) :
  t2.select_percentiles f [q]
  = np.keepdims <$> mapM (fun row => np.quantile_nearest row q) f.
Proof.
  unfold t2.select_percentiles, np.quantile. cbn [mapM].
  destruct (mapM (fun row => np.quantile_nearest row q) f) as [v |] eqn:Hv;
    cbn; [| done].
  apply length_mapM in Hv. by rewrite Hv, transpose_single.
Qed.

(** C8.  On an array with [n >= 1] columns, [select_percentiles(f, [0.0])]
    is the row-wise minimum [worst_case(f)] and
    [select_percentiles(f, [1.0])] the row-wise maximum [best_case(f)],
    and all four are returned. *)
Theorem select_percentiles_extremes (f : list (list xval)) (n : nat) :
  uniform n f -> (1 <= n)%nat ->
  t2.select_percentiles f [0%Q] = t2.worst_case f
  /\ t2.select_percentiles f [1%Q] = t2.best_case f
  /\ is_Some (t2.worst_case f) /\ is_Some (t2.best_case f).
Proof.
  intros Hf Hn. rewrite !select_percentiles_single.
  unfold t2.worst_case, t2.best_case, np.amin1, np.amax1.
  rewrite (mapM_ext _ _ f quantile_nearest_low).
  rewrite (mapM_ext _ _ f quantile_nearest_high).
  repeat split; apply fmap_is_Some, mapM_is_Some, Forall_forall;
    intros r Hr; unfold uniform in Hf; rewrite Forall_forall in Hf;
    specialize (Hf r Hr); destruct r; cbn in *; [lia | done | lia | done].
Qed.

(** The theorem of C8 on a concrete input:
    the matrix of the test-suite. *)
Lemma select_percentiles_extremes_witness :
  t2.select_percentiles (A := xval) test_rows [0%Q] = t2.worst_case test_rows
  /\ t2.select_percentiles (A := xval) test_rows [1%Q] = t2.best_case test_rows
  /\ is_Some (t2.worst_case (A := xval) test_rows)
  /\ is_Some (t2.best_case (A := xval) test_rows).
Proof.
  apply (select_percentiles_extremes test_rows 3); [repeat constructor | lia].
Defined.

(** ** Broadcasting a scalar *)

Lemma mapM_id_Some {B C : Type} (g : B -> C) (l : list B) :
  mapM id (map (fun r => Some (g r)) l) = Some (map g l).
Proof. induction l as [| r l IH]; cbn; [done |]. by rewrite IH. Qed.

Lemma bzip_scalar {B C D : Type} (op : B -> C -> D) (r : list B) (c : C) :
  np.bzip op r [c] = Some (map (fun x => op x c) r).
Proof.
  unfold np.bzip. destruct r as [| x [| y r']]; cbn; try done.
Qed.

Lemma broadcast2_scalar {B C D : Type} (op : B -> C -> D)
    (f : list (list B)) (c : C) :
  np.broadcast2 op f [[c]] = Some (map (map (fun x => op x c)) f).
Proof.
  unfold np.broadcast2.
  assert (Hz : np.bzip (np.bzip op) f [[c]]
               = Some (map (fun r => Some (map (fun x => op x c) r)) f)).
  { unfold np.bzip at 1. destruct f as [| r [| r2 f']]; cbn; try done.
    - by rewrite bzip_scalar.
    - by rewrite !bzip_scalar, (map_ext _ _ (fun r => bzip_scalar op r c)). }
  rewrite Hz. cbn. apply mapM_id_Some.
Qed.

(** ** Counting the scenarios that meet the threshold *)

Lemma qc_of_Z_add (a b : Z) : (qc_of_Z a + qc_of_Z b)%Qc = qc_of_Z (a + b).
Proof.
  apply Qc_is_canon. unfold qc_of_Z. cbn [this Qcplus Q2Qc].
  rewrite !Qred_correct. rewrite inject_Z_plus. reflexivity.
Qed.

Lemma qc_of_Z_le (a b : Z) : (qc_of_Z a <= qc_of_Z b)%Qc <-> a <= b.
Proof.
  unfold Qcle, qc_of_Z. cbn [this Q2Qc]. rewrite !Qred_correct.
  by rewrite Zle_Qle.
Qed.

Lemma qc_of_Z_lt (a b : Z) : (qc_of_Z a < qc_of_Z b)%Qc <-> a < b.
Proof.
  unfold Qclt, qc_of_Z. cbn [this Q2Qc]. rewrite !Qred_correct.
  by rewrite Zlt_Qlt.
Qed.

Lemma where10_count (b : bool) :
  np.where10 (A := xval) b = Fin (qc_of_Z (Z.of_nat (if b then 1 else 0))).
Proof. by destruct b. Qed.

Lemma fold_add_count (p : xval -> bool) (l : list xval) (k : nat) :
  fold_left x_add (map (fun x => np.where10 (p x)) l) (Fin (qc_of_Z (Z.of_nat k)))
  = Fin (qc_of_Z (Z.of_nat (k + length (List.filter p l)))).
Proof.
  revert k. induction l as [| a l IH]; intros k; cbn [map fold_left List.filter].
  - by rewrite Nat.add_0_r.
  - rewrite where10_count. cbn [x_add]. rewrite qc_of_Z_add, <- Nat2Z.inj_add, IH.
    destruct (p a); cbn [length]; do 3 f_equal; lia.
Qed.

Lemma sum_count (p : xval -> bool) (l : list xval) :
  np.sum (map (fun x => np.where10 (p x)) l)
  = Fin (qc_of_Z (Z.of_nat (length (List.filter p l)))).
Proof.
  destruct l as [| a l]; [done |]. cbn [map np.sum].
  rewrite where10_count, fold_add_count. cbn [List.filter].
  destruct (p a); cbn [length]; do 3 f_equal; lia.
Qed.

Lemma mean_count (p : xval -> bool) (l : list xval) :
  l <> [] ->
  np.mean (map (fun x => np.where10 (p x)) l)
  = fraction (length (List.filter p l)) (length l).
Proof.
  intros Hl. unfold np.mean, fraction. rewrite sum_count, length_map.
  cbn [n_div xval_Number np.of_nat n_of_Z x_div].
  assert (Hpos : qc_le (qc_of_Z (Z.of_nat (length l))) 0 = false).
  { apply not_true_is_false. rewrite qc_le_iff.
    change 0%Qc with (qc_of_Z 0). rewrite qc_of_Z_le.
    destruct l; [done | cbn; lia]. }
  by rewrite Hpos.
Qed.

Lemma fraction_unit_interval (k n : nat) :
  (k <= n)%nat -> (1 <= n)%nat -> unit_interval (fraction k n).
Proof.
  intros Hk Hn. unfold unit_interval, fraction.
  set (a := qc_of_Z (Z.of_nat k)). set (b := qc_of_Z (Z.of_nat n)).
  assert (Hb : (0 < b)%Qc).
  { change 0%Qc with (qc_of_Z 0). apply qc_of_Z_lt. lia. }
  assert (Hab : (a / b * b)%Qc = a).
  { rewrite Qcmult_comm. apply Qcmult_div_r.
    intros ->. by apply Qclt_not_eq in Hb. }
  split.
  - apply (Qcmult_lt_0_le_reg_r _ _ b Hb). rewrite Hab, Qcmult_0_l.
    change 0%Qc with (qc_of_Z 0). apply qc_of_Z_le. lia.
  - apply (Qcmult_lt_0_le_reg_r _ _ b Hb). rewrite Hab, Qcmult_1_l.
    apply qc_of_Z_le. lia.
Qed.

Lemma satisfice_scalar (f : list (list xval)) (maximise accept_equal : bool)
    (threshold : xval) :
  t1.satisfice (np.Arr2 f) maximise (np.Scalar threshold) accept_equal
  = Some (map (map (fun x =>
       np.where10 (meets_threshold maximise accept_equal threshold x))) f).
Proof.
  unfold t1.satisfice, t1.identity, meets_threshold. cbn [t1._prepare_f].
  destruct maximise, accept_equal; cbn [np.neg_operand np.to2d];
    rewrite broadcast2_scalar; cbn [mbind option_bind]; f_equal;
    unfold np.neg, np.neg1; rewrite ?map_map; apply map_ext; intros r;
    rewrite ?map_map; apply map_ext; intros x; done.
Qed.

(** C10.  On an array with [n >= 1] columns and for a scalar threshold,
    [starrs_domain] returns, for each decision alternative, the number of
    its scenarios that meet the threshold divided by [n]; every entry is a
    finite number between 0 and 1. *)
Theorem starrs_domain_unit_interval (f : list (list xval)) (n : nat)
    (maximise accept_equal : bool) (threshold : xval) :
  uniform n f -> (1 <= n)%nat ->
  exists R : list xval,
    common_metrics.starrs_domain (np.Arr2 f) maximise (np.Scalar threshold)
      accept_equal = Some R
    /\ R = map (fun row =>
                 fraction
                   (length (List.filter
                      (meets_threshold maximise accept_equal threshold) row)) n) f
    /\ Forall unit_interval R.
Proof.
  intros Hf Hn. unfold uniform in Hf. rewrite Forall_forall in Hf.
  exists (map (fun row =>
                 fraction
                   (length (List.filter
                      (meets_threshold maximise accept_equal threshold) row)) n) f).
  split; [| split].
  - unfold common_metrics.starrs_domain. rewrite satisfice_scalar.
    cbn [mbind option_bind]. unfold t2.all_scenarios, t3.f_mean.
    rewrite map_map. f_equal. apply map_ext_in. intros row Hrow.
    apply list_elem_of_In, Hf in Hrow.
    rewrite mean_count by (destruct row; [cbn in Hrow; lia | done]).
    by rewrite Hrow.
  - done.
  - apply Forall_forall. intros x Hx.
    apply list_elem_of_fmap in Hx as (row & -> & Hrow).
    apply fraction_unit_interval; [| done].
    rewrite <- (Hf row Hrow). apply filter_length_le.
Qed.

(** The theorem of C10 on a concrete input:
    the matrix of the test-suite, threshold 0.65. *)
Lemma starrs_domain_unit_interval_witness :
  exists R : list xval,
    common_metrics.starrs_domain (np.Arr2 test_rows) true
      (np.Scalar (np.ratio 65 100)) true = Some R
    /\ R = map (fun row =>
                 fraction
                   (length (List.filter
                      (meets_threshold true true (np.ratio 65 100)) row)) 3)
               test_rows
    /\ Forall unit_interval R.
Proof.
  apply (starrs_domain_unit_interval test_rows 3); [repeat constructor | lia].
Defined.

(** ** Loops with an invariant *)

Lemma for_each_invariant {I S : Type} (body : I -> S -> option S)
    (P : list I -> S -> Prop) (l : list I) (s0 : S) :
  P [] s0 ->
  (forall done i rest s, l = done ++ i :: rest -> P done s ->
     exists s', body i s = Some s' /\ P (done ++ [i]) s') ->
  exists s', for_each body l s0 = Some s' /\ P l s'.
Proof.
  intros H0 Hstep.
  assert (Hgen : forall rest done s, l = done ++ rest -> P done s ->
            exists s', for_each body rest s = Some s' /\ P l s').
  { induction rest as [| i rest IH]; intros done s Hl Hs; cbn.
    - exists s. rewrite app_nil_r in Hl. by subst.
    - destruct (Hstep done i rest s Hl Hs) as (s1 & -> & Hs1). cbn.
      apply (IH (done ++ [i])); [| done]. by rewrite <- app_assoc. }
  by apply (Hgen l []).
Qed.

(** ** Writing into a square array *)

Lemma setitem_spec {A : Type} `{Number A} (M : list (list A)) (k i j : nat) (v : A) :
  square k M -> (i < k)%nat -> (j < k)%nat ->
  exists M', comparisons.setitem M i j v = Some M' /\ square k M'
    /\ forall a b, entry M' a b
                   = if decide (a = i /\ b = j) then Some v else entry M a b.
Proof.
  intros [Hlen Hrows] Hi Hj. unfold uniform in Hrows.
  destruct (lookup_lt_is_Some_2 M i) as [row Hrow]; [lia |].
  assert (Hrowlen : length row = k).
  { rewrite Forall_lookup in Hrows. by apply (Hrows i). }
  unfold comparisons.setitem. rewrite Hrow. cbn.
  rewrite decide_True by lia. eexists. split; [done |]. split.
  - split; [by rewrite length_insert |].
    apply Forall_insert; [done |]. by rewrite length_insert.
  - intros a b. unfold entry.
    destruct (decide (a = i)) as [-> | Ha].
    + rewrite list_lookup_insert_eq by lia. cbn.
      destruct (decide (b = j)) as [-> | Hb].
      * rewrite list_lookup_insert_eq by lia. by rewrite decide_True.
      * rewrite list_lookup_insert_ne by done. rewrite decide_False by tauto.
        by rewrite Hrow.
    + rewrite list_lookup_insert_ne by done. by rewrite decide_False by tauto.
Qed.

(** Writing [v] at [[i, j]] and at [[j, i]]. *)
Lemma setitem_sym_spec {A : Type} `{Number A} (M : list (list A)) (k i j : nat) (v : A) :
  square k M -> (i < k)%nat -> (j < k)%nat ->
  exists M', (comparisons.setitem M i j v ≫= fun M1 => comparisons.setitem M1 j i v)
             = Some M'
    /\ square k M'
    /\ forall a b, entry M' a b
                   = if decide ((a = i /\ b = j) \/ (a = j /\ b = i))
                     then Some v else entry M a b.
Proof.
  intros HM Hi Hj.
  destruct (setitem_spec M k i j v HM Hi Hj) as (M1 & -> & HM1 & Hent1). cbn.
  destruct (setitem_spec M1 k j i v HM1 Hj Hi) as (M2 & -> & HM2 & Hent2).
  exists M2. split; [done |]. split; [done |].
  intros a b. rewrite Hent2, Hent1.
  repeat case_decide; try done; tauto.
Qed.

(** ** The two nested loops of [scenarios_similarity] *)

Section Similarity.
Variable kendalltau : list xval -> list xval -> xval.
Variable R : list (list xval).
Variable k : nat.
Hypothesis HR : uniform k R.

Lemma filled_weaken g M (P P' : nat -> nat -> Prop) :
  (forall a b, (a <= b)%nat -> P' a b -> P a b) -> filled R k g M P -> filled R k g M P'.
Proof. intros HP [HM Hent]. split; [done |]. intros a b Hab HP'. auto. Qed.

Lemma filled_write g M M' (P : nat -> nat -> Prop) (i j : nat) :
  filled R k g M P -> (i <= j)%nat -> square k M' ->
  (forall a b, entry M' a b
               = if decide ((a = i /\ b = j) \/ (a = j /\ b = i))
                 then Some (pair_value R g i j) else entry M a b) ->
  filled R k g M' (fun a b => P a b \/ (a = i /\ b = j)).
Proof.
  intros [HM Hent] Hij HM' Hent'. split; [done |].
  intros a b Hab HP. rewrite !Hent'.
  destruct (decide (a = i /\ b = j)) as [[-> ->] | Hne].
  - rewrite !decide_True by tauto. done.
  - assert (HPab : P a b) by tauto.
    rewrite !decide_False by lia. by apply Hent.
Qed.

Lemma similarity_step_spec (D T : list (list xval)) (i j : nat) :
  square k D -> square k T -> (i < k)%nat -> (j < k)%nat ->
  exists D' T',
    comparisons.similarity_step kendalltau R i j (D, T) = Some (D', T')
    /\ square k D' /\ square k T'
    /\ (forall a b, entry D' a b
          = if decide ((a = i /\ b = j) \/ (a = j /\ b = i))
            then Some (pair_value R relative_difference i j) else entry D a b)
    /\ (forall a b, entry T' a b
          = if decide ((a = i /\ b = j) \/ (a = j /\ b = i))
            then Some (pair_value R kendalltau i j) else entry T a b).
Proof.
  intros HD HT Hi Hj. unfold comparisons.similarity_step, pair_value.
  destruct (column_is_Some R k i HR Hi) as [c1 ->].
  destruct (column_is_Some R k j HR Hj) as [c2 ->]. cbn [mbind option_bind].
  set (delta := n_mul _ _).
  destruct (setitem_sym_spec D k i j delta HD Hi Hj) as (D' & HD' & HsqD & HentD).
  destruct (setitem_sym_spec T k i j (kendalltau c1 c2) HT Hi Hj)
    as (T' & HT' & HsqT & HentT).
  exists D', T'. split.
  - revert HD' HT'. cbn [mbind option_bind].
    destruct (comparisons.setitem D i j delta) as [D1 |]; [| done]. cbn.
    intros ->. cbn.
    destruct (comparisons.setitem T i j (kendalltau c1 c2)) as [T1 |]; [| done].
    cbn. by intros ->.
  - repeat split; try done; apply HsqD || apply HsqT.
Qed.

(** The inner loop, over [range(idx_1, k)]. *)
Lemma inner_loop_spec (Pout : nat -> nat -> Prop) (D T : list (list xval)) (i : nat) :
  (i < k)%nat ->
  filled R k relative_difference D Pout -> filled R k kendalltau T Pout ->
  exists D' T',
    for_each (comparisons.similarity_step kendalltau R i) (range i k) (D, T)
    = Some (D', T')
    /\ filled R k relative_difference D' (fun a b => Pout a b \/ (a = i /\ (b < k)%nat))
    /\ filled R k kendalltau T' (fun a b => Pout a b \/ (a = i /\ (b < k)%nat)).
Proof.
  intros Hi HD HT.
  destruct (for_each_invariant (comparisons.similarity_step kendalltau R i)
    (fun done st =>
       filled R k relative_difference st.1 (fun a b => Pout a b \/ (a = i /\ b ∈ done))
       /\ filled R k kendalltau st.2 (fun a b => Pout a b \/ (a = i /\ b ∈ done)))
    (range i k) (D, T)) as ([D' T'] & Hrun & HD' & HT').
  - split; (eapply filled_weaken; [| eassumption]);
      intros a b _ [? | [_ Hin]]; [done | by apply elem_of_nil in Hin
                                  | done | by apply elem_of_nil in Hin].
  - intros done j rest [D1 T1] Hl [HD1 HT1]. cbn [fst snd] in *.
    assert (Hj : (i <= j < k)%nat).
    { assert (Hin : j ∈ range i k) by (rewrite Hl; set_solver).
      unfold range in Hin. apply elem_of_seq in Hin. lia. }
    destruct (similarity_step_spec D1 T1 i j (proj1 HD1) (proj1 HT1) Hi
                ltac:(lia)) as (D2 & T2 & -> & HsqD & HsqT & HentD & HentT).
    exists (D2, T2). split; [done |]. cbn [fst snd].
    split.
    + eapply filled_weaken;
        [| exact (filled_write _ D1 D2 _ i j HD1 ltac:(lia) HsqD HentD)].
      intros a b _ [? | [-> Hin]]; [tauto |].
      apply elem_of_app in Hin as [Hin | Hin]; [tauto |].
      apply list_elem_of_singleton in Hin. tauto.
    + eapply filled_weaken;
        [| exact (filled_write _ T1 T2 _ i j HT1 ltac:(lia) HsqT HentT)].
      intros a b _ [? | [-> Hin]]; [tauto |].
      apply elem_of_app in Hin as [Hin | Hin]; [tauto |].
      apply list_elem_of_singleton in Hin. tauto.
  - exists D', T'. split; [done |].
    split; (eapply filled_weaken; [| eassumption]);
      intros a b Hab [? | [-> Hb]]; try tauto;
      right; (split; [done |]); unfold range; apply elem_of_seq; lia.
Qed.

(** The outer loop, over [range(0, k)]. *)
Lemma outer_loop_spec (D T : list (list xval)) :
  square k D -> square k T ->
  exists D' T',
    for_each
      (fun idx_1 => for_each (comparisons.similarity_step kendalltau R idx_1)
                      (range idx_1 k))
      (range 0 k) (D, T) = Some (D', T')
    /\ filled R k relative_difference D' (fun a b => (b < k)%nat)
    /\ filled R k kendalltau T' (fun a b => (b < k)%nat).
Proof.
  intros HD HT.
  destruct (for_each_invariant
    (fun idx_1 => for_each (comparisons.similarity_step kendalltau R idx_1)
                    (range idx_1 k))
    (fun done st =>
       filled R k relative_difference st.1 (fun a b => a ∈ done /\ (b < k)%nat)
       /\ filled R k kendalltau st.2 (fun a b => a ∈ done /\ (b < k)%nat))
    (range 0 k) (D, T)) as ([D' T'] & Hrun & HD' & HT').
  - split; (split; [done |]); intros a b _ [Hin _]; by apply elem_of_nil in Hin.
  - intros done i rest [D1 T1] Hl [HD1 HT1]. cbn [fst snd] in *.
    assert (Hi : (i < k)%nat).
    { assert (Hin : i ∈ range 0 k) by (rewrite Hl; set_solver).
      unfold range in Hin. apply elem_of_seq in Hin. lia. }
    destruct (inner_loop_spec _ D1 T1 i Hi HD1 HT1) as (D2 & T2 & -> & HD2 & HT2).
    exists (D2, T2). split; [done |]. cbn [fst snd].
    split; (eapply filled_weaken; [| eassumption]);
      intros a b _ [Hin Hb]; (apply elem_of_app in Hin as [Hin | Hin];
        [tauto | apply list_elem_of_singleton in Hin; tauto]).
  - exists D', T'. split; [done |].
    split; (eapply filled_weaken; [| eassumption]);
      intros a b Hab Hb; (split; [| done]); unfold range; apply elem_of_seq; lia.
Qed.

End Similarity.

(** ** The relative difference of a column with itself *)

Lemma qc_two_nonzero : (/ qc_of_Z 2)%Qc <> 0%Qc.
Proof. intros Heq. apply Qceq_alt in Heq. vm_compute in Heq. discriminate. Qed.

Lemma qc_double_nonzero (q : Qc) : q <> 0%Qc -> (q + q)%Qc <> 0%Qc.
Proof.
  intros Hq Heq. assert (Hmul : (q * (1 + 1))%Qc = 0%Qc).
  { transitivity (q + q)%Qc; [ring | exact Heq]. }
  apply Qcmult_integral in Hmul as [? | Htwo]; [done |].
  apply Qceq_alt in Htwo. vm_compute in Htwo. discriminate.
Qed.

Lemma qc_zero_test (d : Qc) : d <> 0%Qc -> qc_le d 0 && qc_le 0 d = false.
Proof.
  intros Hd. apply not_true_is_false. intros [H1 H2]%andb_prop.
  apply qc_le_iff in H1, H2. apply Hd. by apply Qcle_antisym.
Qed.

Lemma relative_difference_elem (a : xval) :
  x_nonzero a ->
  x_div (x_abs (x_sub a a)) (x_div (x_abs (x_add a a)) t3.two) = np.zero.
Proof.
  destruct a as [q | | |]; cbn [x_nonzero]; try done. intros Hq.
  unfold x_sub. cbn [x_opp x_add x_abs]. rewrite Qcplus_opp_r.
  change (if qc_lt 0 0 then (- 0)%Qc else 0%Qc) with 0%Qc.
  set (A := if qc_lt (q + q) 0 then (- (q + q))%Qc else (q + q)%Qc).
  assert (HA : A <> 0%Qc).
  { unfold A. pose proof (qc_double_nonzero q Hq) as Hqq.
    destruct (qc_lt (q + q) 0); [| done].
    intros Heq. apply Hqq. rewrite <- (Qcopp_involutive (q + q)), Heq. ring. }
  unfold t3.two. cbn [n_of_Z xval_Number x_div].
  change (qc_le (qc_of_Z 2) 0 && qc_le 0 (qc_of_Z 2)) with false. cbn iota.
  assert (Hd : (A / qc_of_Z 2)%Qc <> 0%Qc).
  { unfold Qcdiv. intros Hmul.
    apply Qcmult_integral in Hmul as [? | ?]; [done | by apply qc_two_nonzero]. }
  rewrite (qc_zero_test _ Hd). unfold np.zero. cbn [n_of_Z xval_Number].
  change (qc_of_Z 0) with 0%Qc. f_equal. unfold Qcdiv. apply Qcmult_0_l.
Qed.

Lemma zip_with_same {A B : Type} (g : A -> A -> B) (l : list A) :
  zip_with g l l = map (fun x => g x x) l.
Proof. induction l as [| x l IH]; cbn; [done |]. by rewrite IH. Qed.

Lemma zip_with_map_same {A B C D : Type} (g : B -> C -> D)
    (f1 : A -> B) (f2 : A -> C) (l : list A) :
  zip_with g (map f1 l) (map f2 l) = map (fun x => g (f1 x) (f2 x)) l.
Proof. induction l as [| x l IH]; cbn; [done |]. by rewrite IH. Qed.

Lemma relative_difference_self (c : list xval) :
  c <> [] -> Forall x_nonzero c -> relative_difference c c = np.zero.
Proof.
  intros Hc Hnz. unfold relative_difference.
  rewrite !zip_with_same, !map_map, zip_with_map_same.
  assert (Hzeros : map (fun x => x_div (x_abs (x_sub x x))
                                   (x_div (x_abs (x_add x x)) t3.two)) c
                   = map (fun x => np.where10 ((fun _ => false) x)) c).
  { apply map_ext_in. intros a Ha. apply relative_difference_elem.
    rewrite Forall_forall in Hnz. by apply Hnz, list_elem_of_In. }
  rewrite Hzeros, mean_count by done.
  assert (Hfilter : List.filter (fun _ : xval => false) c = []).
  { clear. induction c; [done | done]. }
  rewrite Hfilter. unfold fraction, Qcdiv. cbn [length x_mul].
  change (qc_of_Z (Z.of_nat 0)) with 0%Qc. rewrite !Qcmult_0_l. done.
Qed.

(** C3, as the code has it.  For a robustness matrix with at least one
    row and [k] columns, [scenarios_similarity] returns [delta] and [tau];
    for all [i, j < k] the entries [delta[i, j]] and [delta[j, i]] hold the
    same stored value (NaN included), and so do [tau[i, j]] and
    [tau[j, i]]: for [i <= j] it is the relative difference, respectively
    Kendall's tau, of columns [i] and [j].  [delta[i, i]] is 0 for every
    column [i] of finite non-zero values. *)
Theorem scenarios_similarity_symmetric
    (kendalltau : list xval -> list xval -> xval) (R : list (list xval)) (k : nat) :
  R <> [] -> uniform k R ->
  exists deltas taus,
    comparisons.scenarios_similarity kendalltau R = Some (deltas, taus)
    /\ (forall i j, (i < k)%nat -> (j < k)%nat ->
          is_Some (entry deltas i j) /\ entry deltas i j = entry deltas j i
          /\ is_Some (entry taus i j) /\ entry taus i j = entry taus j i)
    /\ (forall i j c1 c2, (i <= j)%nat -> (j < k)%nat ->
          np.column i R = Some c1 -> np.column j R = Some c2 ->
          entry deltas i j = Some (relative_difference c1 c2)
          /\ entry taus i j = Some (kendalltau c1 c2))
    /\ (forall i c, (i < k)%nat -> np.column i R = Some c ->
          Forall x_nonzero c -> entry deltas i i = Some np.zero).
Proof.
  intros Hne HR. unfold comparisons.scenarios_similarity.
  assert (Hshape : np.shape1 R = k).
  { destruct R as [| r R']; [done |]. by apply Forall_cons in HR as [? _]. }
  rewrite Hshape.
  assert (Hzeros : square k (comparisons.zeros (A := xval) k k)).
  { split; [apply length_replicate |].
    apply Forall_replicate, length_replicate. }
  destruct (outer_loop_spec kendalltau R k HR _ _ Hzeros Hzeros)
    as (D & T & -> & [HsqD HD] & [HsqT HT]).
  assert (Hpair : forall i j c1 c2, (i <= j)%nat -> (j < k)%nat ->
            np.column i R = Some c1 -> np.column j R = Some c2 ->
            (entry D i j = Some (relative_difference c1 c2)
             /\ entry D j i = Some (relative_difference c1 c2))
            /\ (entry T i j = Some (kendalltau c1 c2)
                /\ entry T j i = Some (kendalltau c1 c2))).
  { intros i j c1 c2 Hij Hj Hc1 Hc2.
    pose proof (HD i j Hij Hj) as HDij. pose proof (HT i j Hij Hj) as HTij.
    unfold pair_value in HDij, HTij. rewrite Hc1, Hc2 in HDij, HTij. done. }
  exists D, T. split; [done |]. split; [| split].
  - intros i j Hi Hj.
    destruct (column_is_Some R k i HR Hi) as [ci Hci].
    destruct (column_is_Some R k j HR Hj) as [cj Hcj].
    destruct (decide (i <= j)%nat) as [Hij | Hji].
    + destruct (Hpair i j ci cj Hij Hj Hci Hcj) as [[-> ->] [-> ->]]. done.
    + destruct (Hpair j i cj ci ltac:(lia) Hi Hcj Hci) as [[-> ->] [-> ->]]. done.
  - intros i j c1 c2 Hij Hj Hc1 Hc2.
    destruct (Hpair i j c1 c2 Hij Hj Hc1 Hc2) as [[-> _] [-> _]]. done.
  - intros i c Hi Hc Hnz.
    destruct (Hpair i i c c ltac:(lia) Hi Hc Hc) as [[-> _] _]. f_equal.
    apply relative_difference_self; [| done].
    destruct R as [| r R']; [done |]. intros ->. cbn in Hc.
    destruct (r !! i); [| done]. cbn in Hc.
    by destruct (mapM (fun r0 : list xval => r0 !! i) R').
Qed.

(** The theorem of C3 on a concrete input:
    the matrix of the test-suite as a robustness
    matrix with three variants. *)
Lemma scenarios_similarity_symmetric_witness :
  exists deltas taus,
    comparisons.scenarios_similarity constant_tau test_rows = Some (deltas, taus)
    /\ (forall i j, (i < 3)%nat -> (j < 3)%nat ->
          is_Some (entry deltas i j) /\ entry deltas i j = entry deltas j i
          /\ is_Some (entry taus i j) /\ entry taus i j = entry taus j i)
    /\ (forall i j c1 c2, (i <= j)%nat -> (j < 3)%nat ->
          np.column i test_rows = Some c1 -> np.column j test_rows = Some c2 ->
          entry deltas i j = Some (relative_difference c1 c2)
          /\ entry taus i j = Some (constant_tau c1 c2))
    /\ (forall i c, (i < 3)%nat -> np.column i test_rows = Some c ->
          Forall x_nonzero c -> entry deltas i i = Some np.zero).
Proof.
  apply (scenarios_similarity_symmetric constant_tau test_rows 3);
    [discriminate | repeat constructor].
Defined.

(** C3 as stated fails: on the 1 x 1 robustness matrix [[0.]] the
    diagonal entry [delta[0, 0]] is NaN (0/0), not 0. *)
Lemma delta_diagonal_nan :
  comparisons.scenarios_similarity constant_tau [[np.zero]]
  = Some ([[NaN]], [[np.one]])
  /\ entry (A := xval) [[NaN]] 0 0 <> Some np.zero.
Proof. split; [apply (bool_decide_unpack _); vm_compute; exact I | discriminate]. Qed.

(** ** The tabular evaluator and the order of the rows *)

(** [sort_values] would bring the second table into the order of the
    first; [sort_f_df] returns the second table as it is. *)
Lemma sort_f_df_keeps_order :
  calc.sort_values table_by_scenario ["l_idx"; "s_idx"] = Some table_by_alternative
  /\ calc.sort_f_df table_by_scenario = Some table_by_scenario.
Proof. split; reflexivity. Qed.

(** C1 fails on the code.  The two tables hold the same rows in two
    orders and both pass the checks of [get_f_df_details], yet
    [f_to_R] returns [maximin = [1, 3]] for the one and [[1, 2]] for the
    other: the rows are reshaped in the order they come in. *)
Theorem f_to_R_depends_on_row_order :
  calc.values table_by_scenario ≡ₚ calc.values table_by_alternative
  /\ R1_of table_by_alternative
     = Some (Some (py.RVec [np.ratio 1 1; np.ratio 3 1]))
  /\ R1_of table_by_scenario
     = Some (Some (py.RVec [np.ratio 1 1; np.ratio 2 1])).
Proof.
  split; [| split].
  - cbn. apply perm_skip, perm_swap.
  - apply (bool_decide_unpack _). vm_compute. exact I.
  - apply (bool_decide_unpack _). vm_compute. exact I.
Qed.

(** ** What [f_to_R] writes into the store *)

Section Store.
Context {A : Type} `{Number A}.







End Store.

(** *** The assignments, exactly *)

Section StoreExact.
Context {A : Type} `{Number A}.







End StoreExact.



(** The store this call leaves: [kwargs] holds
    ['maximise'] and a reference to the new dictionary [t1_kwargs], which
    holds the threshold column as a 2 x 2 array. *)
Lemma store_threshold_contents :
  lookup2 store_threshold 1 "maximise" = Some (py.PBool true)
  /\ lookup2 store_threshold 1 "t1_kwargs" = Some (py.PRef 2)
  /\ lookup2 store_threshold 2 "threshold"
     = Some (py.PMat [[np.ratio 2 1; np.ratio 2 1]; [np.ratio 2 1; np.ratio 2 1]])
  /\ R_threshold !! "R1" = Some (py.RVec [np.ratio 1 2; np.ratio 1 1]).
Proof. repeat split; apply (bool_decide_unpack _); vm_compute; exact I. Qed.


Lemma finite_list (l : list xval) :
  Forall x_finite l -> exists qs, l = map Fin qs.
Proof.
  induction 1 as [|x l Hx _ [qs ->]]; [by exists []|].
  destruct x as [q| | |]; try done. by exists (q :: qs).
Qed.

Lemma finite_map_Fin (qs : list Qc) : Forall x_finite (map Fin qs).
Proof. induction qs; constructor; done. Qed.

Lemma finite_no_nan (l : list xval) : Forall x_finite l -> no_nan l.
Proof. intros Hl. eapply Forall_impl; [exact Hl|]. by intros []. Qed.

Lemma finite_neg1 (l : list xval) : Forall x_finite l -> Forall x_finite (np.neg1 l).
Proof.
  intros Hl. unfold np.neg1. apply Forall_map.
  eapply Forall_impl; [exact Hl|]. by intros [].
Qed.

Lemma finite_identity (f : list (list xval)) (maximise : bool) :
  Forall (Forall x_finite) f ->
  Forall (Forall x_finite) (t1.identity (np.Arr2 f) maximise).
Proof.
  intros Hf. destruct maximise; [done|]. cbn. unfold np.neg.
  apply Forall_map. eapply Forall_impl; [exact Hf|]. apply finite_neg1.
Qed.

Lemma uniform_identity {A : Type} `{Number A} (f : list (list A)) (n : nat)
    (maximise : bool) :
  uniform n f -> uniform n (t1.identity (np.Arr2 f) maximise).
Proof.
  intros Hf. destruct maximise; [done|]. cbn. unfold uniform, np.neg in *.
  apply Forall_map. eapply Forall_impl; [exact Hf|]. intros r Hr. cbn.
  unfold np.neg1. by rewrite length_map.
Qed.

Lemma length_identity {A : Type} `{Number A} (f : list (list A)) (maximise : bool) :
  length (t1.identity (np.Arr2 f) maximise) = length f.
Proof. destruct maximise; [done|]. cbn. unfold np.neg. by rewrite length_map. Qed.

Lemma fold_add_fin (qs : list Qc) (a : Qc) :
  fold_left x_add (map Fin qs) (Fin a) = Fin (a + qsum qs)%Qc.
Proof.
  revert a. induction qs as [|q qs IH]; intros a; cbn [map fold_left].
  - f_equal. unfold qsum. cbn [foldr]. ring.
  - cbn [x_add]. rewrite IH. f_equal. unfold qsum. cbn [foldr]. ring.
Qed.

Lemma sum_fin (qs : list Qc) : np.sum (map Fin qs) = Fin (qsum qs).
Proof.
  destruct qs as [|q qs]; cbn; [done|].
  change (fold_left n_add (map Fin qs) (Fin q)) with (fold_left x_add (map Fin qs) (Fin q)).
  by rewrite fold_add_fin.
Qed.

Lemma qc_of_nat_pos (n : nat) : (1 <= n)%nat -> (0 < qc_of_Z (Z.of_nat n))%Qc.
Proof.
  intros Hn. change 0%Qc with (qc_of_Z 0). apply qc_of_Z_lt. lia.
Qed.

Lemma qc_of_nat_nonzero (n : nat) : (1 <= n)%nat -> qc_of_Z (Z.of_nat n) <> 0%Qc.
Proof.
  intros Hn Heq. pose proof (qc_of_nat_pos n Hn) as Hp. rewrite Heq in Hp.
  by apply Qclt_not_eq in Hp.
Qed.

Lemma x_div_fin (p q : Qc) : q <> 0%Qc -> x_div (Fin p) (Fin q) = Fin (p / q)%Qc.
Proof. intros Hq. cbn. by rewrite qc_zero_test. Qed.

Lemma qc_of_Z_1 : qc_of_Z 1 = 1%Qc.
Proof. by apply Qc_is_canon. Qed.

Lemma qc_div_1 (a : Qc) : (a / qc_of_Z 1)%Qc = a.
Proof. rewrite qc_of_Z_1. field. discriminate. Qed.

Lemma x_div_1 (q : Qc) : x_div (Fin q) (np.of_nat 1) = Fin q.
Proof.
  change (np.of_nat 1) with (Fin (qc_of_Z 1)). rewrite x_div_fin.
  - by rewrite qc_div_1.
  - rewrite qc_of_Z_1. discriminate.
Qed.

Lemma qc_inv_pos (c : Qc) : (0 < c)%Qc -> (0 < / c)%Qc.
Proof.
  intros Hc. change (0 < this c)%Q in Hc.
  change (0 < Qred (/ this c))%Q. rewrite Qred_correct.
  by apply Qinv_lt_0_compat.
Qed.

Lemma qc_div_le_mono (a b c : Qc) : (0 < c)%Qc -> (a <= b)%Qc -> (a / c <= b / c)%Qc.
Proof.
  intros Hc Hab. unfold Qcdiv. apply Qcmult_le_compat_r; [done|].
  apply Qclt_le_weak. by apply qc_inv_pos.
Qed.

Lemma x_le_fin (p q : Qc) : x_le (Fin p) (Fin q) = true <-> (p <= q)%Qc.
Proof. apply qc_le_iff. Qed.

Lemma ascending_fin (p q : Qc) : ascending (Fin p) (Fin q) <-> (p <= q)%Qc.
Proof. unfold ascending. rewrite ascending_le by done. apply qc_le_iff. Qed.

(** The minimum and the maximum of a finite non-empty row. *)
Lemma reduce_minimum_fin (q : Qc) (qs : list Qc) :
  exists lo, np.reduce np.minimum (map Fin (q :: qs)) = Some (Fin lo)
    /\ lo ∈ q :: qs /\ Forall (fun p => (lo <= p)%Qc) (q :: qs).
Proof.
  cbn [map np.reduce].
  pose proof (fold_minimum_elem (map Fin qs) (Fin q)) as Hel.
  pose proof (fold_minimum_lower (map Fin qs) (Fin q)
                (finite_no_nan _ (finite_map_Fin (q :: qs)))) as Hlow.
  change (Fin q :: map Fin qs) with (map Fin (q :: qs)) in *.
  apply list_elem_of_fmap in Hel as [lo [Hlo Hin]].
  exists lo. rewrite Hlo in *. split; [done|]. split; [done|].
  change (map Fin (q :: qs)) with (Fin <$> (q :: qs)) in Hlow.
  rewrite Forall_fmap in Hlow. eapply Forall_impl; [exact Hlow|].
  intros p Hp. by apply ascending_fin.
Qed.

Lemma reduce_maximum_fin (q : Qc) (qs : list Qc) :
  exists hi, np.reduce np.maximum (map Fin (q :: qs)) = Some (Fin hi)
    /\ hi ∈ q :: qs /\ Forall (fun p => (p <= hi)%Qc) (q :: qs).
Proof.
  cbn [map np.reduce].
  pose proof (fold_maximum_elem (map Fin qs) (Fin q)) as Hel.
  pose proof (fold_maximum_upper (map Fin qs) (Fin q)
                (finite_no_nan _ (finite_map_Fin (q :: qs)))) as Hup.
  change (Fin q :: map Fin qs) with (map Fin (q :: qs)) in *.
  apply list_elem_of_fmap in Hel as [hi [Hhi Hin]].
  exists hi. rewrite Hhi in *. split; [done|]. split; [done|].
  change (map Fin (q :: qs)) with (Fin <$> (q :: qs)) in Hup.
  rewrite Forall_fmap in Hup. eapply Forall_impl; [exact Hup|].
  intros p Hp. by apply ascending_fin.
Qed.

Lemma x_div_one (x : xval) : x_div x (np.of_nat 1) = x.
Proof.
  destruct x as [q| | |]; try done. apply x_div_1.
Qed.

Lemma map_div_one (v : list xval) :
  map (fun x => x_div x (np.of_nat 1)) v = v.
Proof. induction v as [|x v IH]; [done|]. cbn [map]. by rewrite IH, x_div_one. Qed.

(** ** Broadcasting a row, columns, and the nearest-rank index *)

Lemma broadcast2_row {B C D : Type} (op : B -> C -> D)
    (g : list (list B)) (v : list C) (n : nat) :
  uniform n g -> length v = n ->
  np.broadcast2 op g [v] = Some (map (fun r => zip_with op r v) g).
Proof.
  intros Hu Hv. unfold np.broadcast2.
  assert (forall r, r ∈ g -> np.bzip op r v = Some (zip_with op r v)) as Hrow.
  { intros r Hr. unfold uniform in Hu. rewrite Forall_forall in Hu.
    unfold np.bzip. rewrite decide_True; [done|]. rewrite (Hu r Hr). done. }
  assert (mapM id (map (fun r => np.bzip op r v) g)
          = Some (map (fun r => zip_with op r v) g)) as Hmap.
  { clear Hu. induction g as [|r g IH]; [done|].
    cbn [map mapM]. rewrite Hrow by apply list_elem_of_here.
    cbn [id mbind option_bind]. rewrite IH; [done|].
    intros r' Hr'. apply Hrow. by apply list_elem_of_further. }
  unfold np.bzip at 1. case_decide as Hlen.
  - destruct g as [|r [|? ?]]; try done.
  - destruct g as [|r [|r' g]].
    + cbn. done.
    + done.
    + cbn [mbind option_bind]. exact Hmap.
Qed.

Lemma column_lookup {B : Type} (g : list (list B)) (j : nat) (c : list B) :
  np.column j g = Some c ->
  forall i, c !! i = g !! i ≫= fun r => r !! j.
Proof.
  unfold np.column. revert c. induction g as [|r g IH]; intros c Hc i.
  - cbn in Hc. injection Hc as <-. done.
  - cbn [mapM] in Hc. destruct (r !! j) as [x|] eqn:Hx; [|done].
    cbn [mbind option_bind] in Hc.
    destruct (mapM (λ r0 : list B, r0 !! j) g) as [c'|] eqn:Hc'; [|done].
    injection Hc as <-. destruct i as [|i]; cbn; [done|]. by apply IH.
Qed.

Lemma round_half_even_bounds (x : Q) (K : Z) :
  (0 <= x)%Q -> (x <= inject_Z K)%Q ->
  0 <= np.round_half_even x <= K.
Proof.
  intros H0 HK. unfold np.round_half_even.
  pose proof (Qfloor_le x) as Hfl.
  assert (0 <= Qfloor x) as Hfl0.
  { change 0 with (Qfloor (inject_Z 0)). by apply Qfloor_resp_le. }
  assert (Qfloor x <= K) as HflK.
  { rewrite <- (Qfloor_Z K). by apply Qfloor_resp_le. }
  assert ((inject_Z (Qfloor x) < x)%Q -> Qfloor x + 1 <= K) as Hup.
  { intros Hlt. assert (Qfloor x < K); [|lia].
    rewrite Zlt_Qlt. eapply Qlt_le_trans; [exact Hlt|exact HK]. }
  destruct (x - inject_Z (Qfloor x) ?= 1 # 2)%Q eqn:Hc.
  - destruct (Z.even (Qfloor x)); [lia|]. split; [lia|]. apply Hup.
    apply Qeq_alt in Hc. apply Qlt_minus_iff. rewrite Hc. done.
  - lia.
  - split; [lia|]. apply Hup. apply Qgt_alt in Hc.
    apply Qlt_minus_iff. eapply Qlt_trans; [|exact Hc]. done.
Qed.

(** ** Maximin, maximax and Hurwicz's criterion at its two ends *)

Lemma maximin_rows (f : np.ndarray xval) (maximise : bool) :
  common_metrics.maximin f maximise
  = map (fun x => x_div x (np.of_nat 1))
      <$> mapM (np.reduce np.minimum) (t1.identity f maximise).
Proof.
  unfold common_metrics.maximin, t2.worst_case, np.amin1.
  destruct (mapM _ _) as [v|]; [|done]. cbn. by rewrite f_sum_keepdims.
Qed.

Lemma maximax_rows (f : np.ndarray xval) (maximise : bool) :
  common_metrics.maximax f maximise
  = map (fun x => x_div x (np.of_nat 1))
      <$> mapM (np.reduce np.maximum) (t1.identity f maximise).
Proof.
  unfold common_metrics.maximax, t2.best_case, np.amax1.
  destruct (mapM _ _) as [v|]; [|done]. cbn. by rewrite f_sum_keepdims.
Qed.

Lemma min_max_rows_fin (g : list (list xval)) :
  Forall (Forall x_finite) g -> Forall (fun r => r <> []) g ->
  exists los his,
    mapM (np.reduce np.minimum) g = Some (map Fin los)
    /\ mapM (np.reduce np.maximum) g = Some (map Fin his)
    /\ length los = length his.
Proof.
  induction 1 as [|r g Hr _ IH]; intros Hne.
  - by exists [], [].
  - apply Forall_cons in Hne as [Hr0 Hne].
    destruct (IH Hne) as (los & his & Hlo & Hhi & Hlen).
    destruct (finite_list r Hr) as [qs ->].
    destruct qs as [|q qs]; [done|].
    destruct (reduce_minimum_fin q qs) as (a & Ha & _).
    destruct (reduce_maximum_fin q qs) as (b & Hb & _).
    exists (a :: los), (b :: his). cbn [mapM]. rewrite Ha, Hb, Hlo, Hhi.
    split; [done|]. split; [done|]. cbn. by rewrite Hlen.
Qed.

Lemma f_w_sum_pairs (los his : list Qc) (alpha : xval) :
  t3.f_w_sum (zip_with app (np.keepdims (map Fin los)) (np.keepdims (map Fin his)))
    [alpha; n_sub np.one alpha]
  = Some (zip_with
            (fun a b => x_add (x_mul a alpha) (x_mul b (x_sub np.one alpha)))
            (map Fin los) (map Fin his)).
Proof.
  unfold t3.f_w_sum. revert his.
  induction los as [|a los IH]; intros [|b his]; try done.
  cbn [map np.keepdims zip_with app mapM].
  specialize (IH his). unfold np.keepdims in IH. rewrite IH.
  rewrite decide_True by done. cbn [mbind option_bind mret option_ret].
  done.
Qed.

Lemma weights_one_zero (los his : list Qc) :
  length los = length his ->
  zip_with (fun a b => x_add (x_mul a np.one) (x_mul b (x_sub np.one np.one)))
    (map Fin los) (map Fin his)
  = map Fin los.
Proof.
  revert his. induction los as [|a los IH]; intros [|b his] Hlen; try done.
  cbn [map zip_with]. rewrite IH by (cbn in Hlen; lia). f_equal.
  cbn [np.one n_of_Z xval_Number x_sub x_opp x_add x_mul]. f_equal.
  rewrite qc_of_Z_1. ring.
Qed.

Lemma weights_zero_one (los his : list Qc) :
  length los = length his ->
  zip_with (fun a b => x_add (x_mul a np.zero) (x_mul b (x_sub np.one np.zero)))
    (map Fin los) (map Fin his)
  = map Fin his.
Proof.
  revert his. induction los as [|a los IH]; intros [|b his] Hlen; try done.
  cbn [map zip_with]. rewrite IH by (cbn in Hlen; lia). f_equal.
  cbn [np.one np.zero n_of_Z xval_Number x_sub x_opp x_add x_mul]. f_equal.
  rewrite qc_of_Z_1. change (qc_of_Z 0) with 0%Qc. ring.
Qed.

(** X2.  On a finite array whose rows are not empty, Hurwicz's criterion
    with the weight 1 is maximin and with the weight 0 is maximax: the
    products with the weights 1 and 0 and the sum with zero are exact at
    binary64 too, where a result zero may differ from the zero of
    maximin or maximax in its sign only. *)
Theorem hurwicz_endpoints (f : np.ndarray xval) (maximise : bool) :
  Forall (Forall x_finite) (t1._prepare_f f) ->
  Forall (fun r => r <> []) (t1._prepare_f f) ->
  common_metrics.hurwicz f maximise np.one = common_metrics.maximin f maximise
  /\ common_metrics.hurwicz f maximise np.zero = common_metrics.maximax f maximise
  /\ is_Some (common_metrics.maximin f maximise)
  /\ is_Some (common_metrics.maximax f maximise).
Proof.
  intros Hfin Hne.
  destruct (min_max_rows_fin (t1.identity f maximise)) as (los & his & Hlo & Hhi & Hlen).
  - destruct f as [v|a]; by apply finite_identity.
  - destruct maximise; [done|]. cbn. unfold np.neg. apply Forall_map.
    eapply Forall_impl; [exact Hne|]. by intros [].
  - rewrite maximin_rows, maximax_rows, Hlo, Hhi. cbn [fmap option_fmap option_map].
    rewrite !map_div_one.
    unfold common_metrics.hurwicz, t2.worst_and_best_cases, t2.worst_case,
      t2.best_case, np.amin1, np.amax1.
    rewrite Hlo, Hhi. cbn [fmap option_fmap option_map mbind option_bind].
    rewrite !f_w_sum_pairs, weights_one_zero, weights_zero_one by done.
    by repeat split.
Qed.

(** The theorem of X2 on a concrete input:
    the matrix of the test-suite. *)
Lemma hurwicz_endpoints_witness :
  common_metrics.hurwicz (A := xval) test_f true np.one
  = common_metrics.maximin test_f true
  /\ common_metrics.hurwicz (A := xval) test_f true np.zero
     = common_metrics.maximax test_f true
  /\ is_Some (common_metrics.maximin (A := xval) test_f true)
  /\ is_Some (common_metrics.maximax (A := xval) test_f true).
Proof.
  apply (hurwicz_endpoints test_f true); repeat constructor; discriminate.
Defined.

(** ** Signs of differences

    The exact values satisfy the laws of comparison, negation and
    subtraction. *)

Lemma x_isfinite_finite (a : xval) : np.isfinite a = true <-> x_finite a.
Proof. by destruct a. Qed.

Lemma x_sub_le_zero (p q : Qc) : qc_le (p + - q) (qc_of_Z 0) = qc_le p q.
Proof.
  change (qc_of_Z 0) with 0%Qc. apply eq_true_iff_eq.
  rewrite !qc_le_iff. split; intros Hle.
  - apply Qcle_minus_iff. apply Qcopp_le_compat in Hle.
    by replace (- 0)%Qc with 0%Qc in Hle by ring;
       replace (- (p + - q))%Qc with (q + - p)%Qc in Hle by ring.
  - replace 0%Qc with (q + - q)%Qc by ring.
    apply Qcplus_le_compat; [done|apply Qcle_refl].
Qed.

Lemma x_sub_ge_zero (p q : Qc) : qc_le (qc_of_Z 0) (p + - q) = qc_le q p.
Proof.
  change (qc_of_Z 0) with 0%Qc. apply eq_true_iff_eq.
  rewrite !qc_le_iff. symmetry. apply Qcle_minus_iff.
Qed.

Lemma qc_opp_le_zero (p : Qc) : qc_le (- p) (qc_of_Z 0) = qc_le (qc_of_Z 0) p.
Proof.
  change (qc_of_Z 0) with 0%Qc. rewrite <- (qc_le_opp 0 p). done.
Qed.

Lemma qc_opp_ge_zero (p : Qc) : qc_le (qc_of_Z 0) (- p) = qc_le p (qc_of_Z 0).
Proof.
  change (qc_of_Z 0) with 0%Qc. rewrite <- (qc_le_opp p 0). done.
Qed.

Lemma qc_lt_le (p q : Qc) : qc_lt p q = qc_le p q && negb (qc_le q p).
Proof.
  apply eq_true_iff_eq.
  rewrite andb_true_iff, negb_true_iff, qc_lt_iff, qc_le_iff. split.
  - intros Hlt. split; [by apply Qclt_le_weak|].
    destruct (qc_le q p) eqn:E; [|done]. apply qc_le_iff in E.
    by apply Qclt_not_le in Hlt.
  - intros [_ Hn]. apply Qcnot_le_lt. intros Hc. apply qc_le_iff in Hc.
    congruence.
Qed.

#[export] Instance xval_SignLaws : SignLaws xval.
Proof.
  split.
  - by intros [] [].
  - intros [p| | |] Hp; try done. apply qc_le_iff, Qcle_refl.
  - intros [p| | |] [q| | |] [r| | |]; try done. cbn. rewrite !qc_le_iff.
    apply Qcle_trans.
  - intros [p| | |] [q| | |]; try done. cbn. intros _ _. apply qc_le_total.
  - intros [p| | |] [q| | |]; try done. apply qc_lt_le.
  - by intros [].
  - done.
  - by intros [].
  - intros [p| | |] [q| | |]; try done. intros _ _. apply x_sub_le_zero.
  - intros [p| | |] [q| | |]; try done. intros _ _. apply x_sub_ge_zero.
  - intros [p| | |]; try done. apply qc_opp_le_zero.
  - intros [p| | |]; try done. apply qc_opp_ge_zero.
  - apply x_div_one.
Qed.

(** What follows holds of every number type with these laws. *)
Section Signs.
Context {A : Type} `{Number A} `{!SignLaws A}.

Lemma finite_numbers (l : list A) :
  Forall (fun x => np.isfinite x = true) l -> Forall (fun x => n_isnan x = false) l.
Proof. intros Hl. eapply Forall_impl; [exact Hl|]. apply isfinite_number. Qed.

Lemma zero_number : n_isnan (np.zero (A := A)) = false.
Proof. apply isfinite_number, isfinite_zero. Qed.

Lemma zero_le_zero : n_le (np.zero (A := A)) np.zero = true.
Proof. apply n_le_refl, zero_number. Qed.

Lemma finite_identity_rows (f : list (list A)) (maximise : bool) :
  Forall (Forall (fun x => np.isfinite x = true)) f ->
  Forall (Forall (fun x => np.isfinite x = true)) (t1.identity (np.Arr2 f) maximise).
Proof.
  intros Hf. destruct maximise; [done|]. cbn. unfold np.neg.
  apply Forall_map. eapply Forall_impl; [exact Hf|]. intros r Hr. cbv beta.
  unfold np.neg1. apply Forall_map. eapply Forall_impl; [exact Hr|].
  apply isfinite_opp.
Qed.

Lemma maximum_number (x y : A) :
  n_isnan x = false -> np.maximum x y = if n_le y x then x else y.
Proof. intros Hx. unfold np.maximum. by rewrite Hx, orb_false_r. Qed.

Lemma minimum_number (x y : A) :
  n_isnan x = false -> np.minimum x y = if n_le x y then x else y.
Proof. intros Hx. unfold np.minimum. by rewrite Hx, orb_false_r. Qed.

Lemma fold_maximum_bounds (l : list A) (x : A) :
  n_isnan x = false -> Forall (fun y => n_isnan y = false) l ->
  n_le x (fold_left np.maximum l x) = true
  /\ Forall (fun y => n_le y (fold_left np.maximum l x) = true) l.
Proof.
  revert x. induction l as [|y l IH]; intros x Hx Hl; cbn [fold_left].
  - split; [by apply n_le_refl|constructor].
  - apply Forall_cons in Hl as [Hy Hl]. rewrite (maximum_number x y Hx).
    destruct (n_le y x) eqn:Hyx.
    + destruct (IH x Hx Hl) as [HxM HlM]. split; [done|].
      constructor; [|done]. by apply n_le_trans with x.
    + pose proof (n_le_total y x Hy Hx Hyx) as Hxy.
      destruct (IH y Hy Hl) as [HyM HlM]. split; [|by constructor].
      by apply n_le_trans with y.
Qed.

Lemma fold_minimum_bounds (l : list A) (x : A) :
  n_isnan x = false -> Forall (fun y => n_isnan y = false) l ->
  n_le (fold_left np.minimum l x) x = true
  /\ Forall (fun y => n_le (fold_left np.minimum l x) y = true) l.
Proof.
  revert x. induction l as [|y l IH]; intros x Hx Hl; cbn [fold_left].
  - split; [by apply n_le_refl|constructor].
  - apply Forall_cons in Hl as [Hy Hl]. rewrite (minimum_number x y Hx).
    destruct (n_le x y) eqn:Hxy.
    + destruct (IH x Hx Hl) as [HxM HlM]. split; [done|].
      constructor; [|done]. by apply n_le_trans with x.
    + pose proof (n_le_total x y Hx Hy Hxy) as Hyx.
      destruct (IH y Hy Hl) as [HyM HlM]. split; [|by constructor].
      by apply n_le_trans with y.
Qed.

(** *** Regret from the best decision alternative *)

Lemma fold_zip_maximum_lookup (rest : list (list A)) (acc : list A) (n j : nat)
    (a : A) (c : list A) :
  uniform n rest -> length acc = n -> acc !! j = Some a ->
  np.column j rest = Some c ->
  length (fold_left (zip_with np.maximum) rest acc) = n
  /\ fold_left (zip_with np.maximum) rest acc !! j = Some (fold_left np.maximum c a).
Proof.
  revert acc a c. induction rest as [|r rest IH]; intros acc a c Hu Hacc Ha Hc.
  - cbn in Hc. injection Hc as <-. done.
  - apply Forall_cons in Hu as [Hr Hu].
    unfold np.column in Hc. cbn [mapM] in Hc.
    destruct (r !! j) as [x|] eqn:Hx; [|done].
    cbn [mbind option_bind] in Hc.
    destruct (mapM (λ r0 : list A, r0 !! j) rest) as [c'|] eqn:Hc'; [|done].
    injection Hc as <-. cbn [fold_left].
    apply IH; try done.
    + rewrite length_zip_with. lia.
    + rewrite lookup_zip_with, Ha. cbn. by rewrite Hx.
Qed.

Lemma amax0_column (g : list (list A)) (n j : nat) :
  g <> [] -> uniform n g -> (j < n)%nat ->
  exists best c,
    np.amax0 g = Some best /\ length best = n
    /\ np.column j g = Some c
    /\ Some (best !! j) = Some (np.reduce np.maximum c).
Proof.
  intros Hne Hu Hj. destruct g as [|r g]; [done|].
  destruct (column_is_Some (r :: g) n j Hu Hj) as [c Hc].
  pose proof Hu as Hu'. apply Forall_cons in Hu' as [Hr Hg].
  unfold np.column in Hc. cbn [mapM] in Hc.
  destruct (r !! j) as [a|] eqn:Ha; [|done]. cbn [mbind option_bind] in Hc.
  destruct (mapM (λ r0 : list A, r0 !! j) g) as [c'|] eqn:Hc'; [|done].
  injection Hc as <-.
  destruct (fold_zip_maximum_lookup g r n j a c' Hg Hr Ha Hc') as [Hlen Hlook].
  exists (fold_left (zip_with np.maximum) g r), (a :: c').
  split; [done|]. split; [done|]. split.
  - unfold np.column. cbn [mapM]. rewrite Ha. cbn [mbind option_bind].
    by rewrite Hc'.
  - by rewrite Hlook.
Qed.

Lemma regret_rows (g : list (list A)) (n : nat) :
  g <> [] -> uniform n g -> Forall (Forall (fun x => np.isfinite x = true)) g ->
  exists best,
    np.amax0 g = Some best /\ length best = n
    /\ Forall (Forall (fun e => n_le e np.zero = true))
         (map (fun r => zip_with n_sub r best) g)
    /\ forall j, (j < n)%nat ->
         exists i e, entry (map (fun r => zip_with n_sub r best) g) i j = Some e
                     /\ np.eq e np.zero = true.
Proof.
  intros Hne Hu Hfin.
  assert (exists best, np.amax0 g = Some best /\ length best = n) as (best & Hbest & Hlen).
  { destruct g as [|r g]; [done|]. cbn. eexists. split; [done|].
    apply Forall_cons in Hu as [Hr Hg].
    clear Hne Hfin. revert r Hr. induction g as [|r' g IH]; intros r Hr; [done|].
    apply Forall_cons in Hg as [Hr' Hg]. cbn [fold_left]. apply IH; [done|].
    rewrite length_zip_with. lia. }
  exists best. split; [done|]. split; [done|].
  assert (forall j, (j < n)%nat ->
            exists c b, np.column j g = Some c /\ best !! j = Some b
              /\ b ∈ c /\ Forall (fun y => n_le y b = true) c
              /\ Forall (fun x => np.isfinite x = true) c) as Hcol.
  { intros j Hj.
    destruct (amax0_column g n j Hne Hu Hj) as (best' & c & Hbest' & _ & Hc & Hbj).
    rewrite Hbest in Hbest'. injection Hbest' as <-.
    assert (Forall (fun x => np.isfinite x = true) c) as Hcfin.
    { apply Forall_lookup. intros i x Hx.
      rewrite (column_lookup g j c Hc) in Hx.
      destruct (g !! i) as [r|] eqn:Hr; [|done]. cbn in Hx.
      rewrite Forall_lookup in Hfin. specialize (Hfin i r Hr).
      rewrite Forall_lookup in Hfin. by apply (Hfin j). }
    destruct c as [|x c].
    { cbn in Hbj. injection Hbj as Hbj. apply lookup_ge_None in Hbj. lia. }
    cbn [np.reduce] in Hbj. injection Hbj as Hbj.
    pose proof (fold_maximum_elem c x) as Hel.
    pose proof (finite_numbers _ Hcfin) as Hnum.
    apply Forall_cons in Hnum as [Hx Hnum].
    destruct (fold_maximum_bounds c x Hx Hnum) as [HxM HcM].
    exists (x :: c), (fold_left np.maximum c x).
    split; [done|]. split; [done|]. split; [done|]. split; [by constructor|done]. }
  split.
  - apply Forall_map. apply Forall_lookup. intros i r Hr.
    apply Forall_lookup. intros j y Hy.
    rewrite lookup_zip_with in Hy.
    destruct (r !! j) as [x|] eqn:Hx; [|done]. cbn in Hy.
    destruct (best !! j) as [b|] eqn:Hb; [|done]. cbn in Hy. injection Hy as <-.
    assert (j < n)%nat as Hj by (rewrite <- Hlen; by eapply lookup_lt_Some).
    destruct (Hcol j Hj) as (c & b' & Hc & Hb' & Hel & Hup & Hcfin).
    rewrite Hb in Hb'. injection Hb' as <-.
    assert (c !! i = Some x) as Hci.
    { rewrite (column_lookup g j c Hc), Hr. done. }
    rewrite Forall_forall in Hcfin. rewrite Forall_lookup in Hup.
    rewrite n_sub_le_zero.
    + by apply (Hup i).
    + apply Hcfin. by eapply list_elem_of_lookup_2.
    + by apply Hcfin.
  - intros j Hj. destruct (Hcol j Hj) as (c & b & Hc & Hb & Hel & _ & Hcfin).
    rewrite Forall_forall in Hcfin. pose proof (Hcfin b Hel) as Hbfin.
    apply list_elem_of_lookup in Hel as [i Hi].
    rewrite (column_lookup g j c Hc) in Hi.
    destruct (g !! i) as [r|] eqn:Hr; [|done]. cbn in Hi.
    exists i, (n_sub b b). unfold entry. rewrite list_lookup_fmap, Hr. cbn.
    rewrite lookup_zip_with, Hi, Hb. cbn [mbind option_bind]. split; [done|].
    unfold np.eq. rewrite n_sub_le_zero, n_sub_ge_zero by done.
    rewrite n_le_refl; [done|]. by apply isfinite_number.
Qed.

Lemma regret_from_best_da_spec (f : list (list A)) (n : nat) (maximise : bool) :
  f <> [] -> uniform n f -> Forall (Forall (fun x => np.isfinite x = true)) f ->
  exists regret,
    t1.regret_from_best_da (np.Arr2 f) maximise = Some regret
    /\ length regret = length f /\ uniform n regret
    /\ Forall (Forall (fun e => n_le e np.zero = true)) regret
    /\ forall j, (j < n)%nat ->
         exists i e, entry regret i j = Some e /\ np.eq e np.zero = true.
Proof.
  intros Hne Hu Hfin.
  pose proof (uniform_identity f n maximise Hu) as Hug.
  pose proof (finite_identity_rows f maximise Hfin) as Hfg.
  pose proof (length_identity f maximise) as Hlg.
  set (g := t1.identity (np.Arr2 f) maximise) in *.
  assert (g <> []) as Hgne by (intros E; rewrite E in Hlg; by destruct f).
  destruct (regret_rows g n Hgne Hug Hfg) as (best & Hbest & Hlen & Hnp & Hzero).
  exists (map (fun r => zip_with n_sub r best) g).
  split.
  - unfold t1.regret_from_best_da. cbn [t1._prepare_f]. fold g. rewrite Hbest.
    cbn [mbind option_bind np.to2d]. by apply broadcast2_row with n.
  - split; [by rewrite length_map|]. split; [|done].
    unfold uniform. apply Forall_map. eapply Forall_impl; [exact Hug|].
    intros r Hr. cbv beta in *. rewrite length_zip_with, Hr, Hlen. lia.
Qed.

(** *** The worst case and a percentile of rows with a sign *)

Lemma f_sum_column (v : list A) : t3.f_sum (np.keepdims v) = v.
Proof.
  unfold t3.f_sum, np.keepdims. rewrite map_map.
  destruct v as [|x v]; [done|]. cbn [map np.shape1 length np.sum fold_left].
  change (np.of_nat 1) with (np.one (A := A)). rewrite n_div_one. f_equal.
  induction v as [|y v IH]; [done|]. cbn [map]. by rewrite n_div_one, IH.
Qed.

Lemma minimum_rows (P : A -> Prop) (g : list (list A)) :
  Forall (Forall P) g -> Forall (fun r => r <> []) g ->
  exists R, mapM (np.reduce np.minimum) g = Some R
    /\ length R = length g /\ Forall P R.
Proof.
  induction 1 as [|r g Hr _ IH]; intros Hne.
  - by exists [].
  - apply Forall_cons in Hne as [Hr0 Hne].
    destruct (IH Hne) as (R & HR & Hlen & Hnp).
    destruct r as [|x r]; [done|].
    exists (fold_left np.minimum r x :: R). cbn [mapM np.reduce].
    rewrite HR. split; [done|]. split; [cbn; by rewrite Hlen|].
    constructor; [|done].
    rewrite Forall_forall in Hr. apply Hr. apply fold_minimum_elem.
Qed.

Lemma quantile_nearest_member (row : list A) (q : Q) :
  row <> [] -> (0 <= q)%Q -> (q <= 1)%Q ->
  Forall (fun x => n_isnan x = false) row ->
  exists y, np.quantile_nearest row q = Some y /\ y ∈ row.
Proof.
  intros Hne H0 H1 Hnum. unfold np.quantile_nearest.
  assert (Qle_bool 0 q && Qle_bool q 1 = true) as ->.
  { apply andb_true_iff. split; by apply Qle_bool_iff. }
  cbn [negb].
  assert (existsb n_isnan row = false) as ->.
  { clear Hne. induction Hnum as [|x row Hx _ IH]; [done|].
    cbn [existsb]. by rewrite Hx, IH. }
  set (k := np.round_half_even (q * inject_Z (Z.of_nat (length row) - 1))).
  assert (0 <= k <= Z.of_nat (length row) - 1) as Hk.
  { assert (1 <= length row)%nat as Hlen by (destruct row; [done|cbn; lia]).
    assert (0 <= inject_Z (Z.of_nat (length row) - 1))%Q as Hpos.
    { change 0%Q with (inject_Z 0). rewrite <- Zle_Qle. lia. }
    apply round_half_even_bounds.
    - by apply Qmult_le_0_compat.
    - rewrite <- (Qmult_1_l (inject_Z (Z.of_nat (length row) - 1))) at 2.
      by apply Qmult_le_compat_r. }
  destruct (np.sort row !! Z.to_nat k) as [y|] eqn:Hy.
  - exists y. split; [done|]. apply list_elem_of_lookup_2 in Hy.
    by rewrite sort_perm in Hy.
  - apply lookup_ge_None in Hy. rewrite length_sort in Hy. lia.
Qed.

Lemma select_one_percentile (f : list (list A)) (q : Q) :
  t2.select_percentiles f [q]
  = np.keepdims <$> mapM (fun row => np.quantile_nearest row q) f.
Proof.
  unfold t2.select_percentiles, np.quantile. cbn [mapM].
  destruct (mapM (fun row => np.quantile_nearest row q) f) as [v|] eqn:Hv;
    cbn; [|done].
  apply length_mapM in Hv. by rewrite Hv, transpose_single.
Qed.

Lemma quantile_rows (P : A -> Prop) (g : list (list A)) (q : Q) :
  (0 <= q)%Q -> (q <= 1)%Q ->
  Forall (Forall P) g -> Forall (fun r => r <> []) g ->
  Forall (Forall (fun x => n_isnan x = false)) g ->
  exists R, mapM (fun row => np.quantile_nearest row q) g = Some R
    /\ length R = length g /\ Forall P R.
Proof.
  intros H0 H1. induction 1 as [|r g Hr _ IH]; intros Hne Hnum.
  - by exists [].
  - apply Forall_cons in Hne as [Hr0 Hne]. apply Forall_cons in Hnum as [Hrn Hnum].
    destruct (IH Hne Hnum) as (R & HR & Hlen & HP).
    destruct (quantile_nearest_member r q Hr0 H0 H1 Hrn) as (y & Hy & Hel).
    exists (y :: R). cbn [mapM]. rewrite Hy, HR.
    split; [done|]. split; [cbn; by rewrite Hlen|].
    constructor; [|done]. rewrite Forall_forall in Hr. by apply Hr.
Qed.

Lemma minimax_regret_sign (f : list (list A)) (n : nat) (maximise : bool) :
  f <> [] -> uniform n f -> (1 <= n)%nat ->
  Forall (Forall (fun x => np.isfinite x = true)) f ->
  exists R,
    common_metrics.minimax_regret (np.Arr2 f) maximise = Some R
    /\ length R = length f /\ Forall (fun r => n_le r np.zero = true) R.
Proof.
  intros Hne Hu Hn Hfin.
  destruct (regret_from_best_da_spec f n maximise Hne Hu Hfin)
    as (regret & Hreg & Hlen & Hur & Hnp & _).
  destruct (minimum_rows _ regret Hnp) as (R & HR & HlenR & HnpR).
  { eapply Forall_impl; [exact Hur|]. intros r Hr ->. cbn in Hr. lia. }
  exists R. split; [|split; [congruence|done]].
  unfold common_metrics.minimax_regret. rewrite Hreg.
  cbn [mbind option_bind]. unfold t2.worst_case, np.amin1. rewrite HR.
  cbn [fmap option_fmap option_map mbind option_bind].
  by rewrite f_sum_column.
Qed.

Lemma percentile_regret_sign (f : list (list A)) (n : nat) (maximise : bool)
    (percentile : Q) :
  f <> [] -> uniform n f -> (1 <= n)%nat ->
  Forall (Forall (fun x => np.isfinite x = true)) f ->
  (0 <= percentile)%Q -> (percentile <= 1)%Q ->
  exists R,
    common_metrics.percentile_regret (np.Arr2 f) maximise percentile = Some R
    /\ length R = length f /\ Forall (fun r => n_le r np.zero = true) R.
Proof.
  intros Hne Hu Hn Hfin H0 H1.
  destruct (regret_from_best_da_spec f n maximise Hne Hu Hfin)
    as (regret & Hreg & Hlen & Hur & Hnp & _).
  destruct (quantile_rows _ regret percentile H0 H1 Hnp) as (R & HR & HlenR & HnpR).
  { eapply Forall_impl; [exact Hur|]. intros r Hr ->. cbn in Hr. lia. }
  { eapply Forall_impl; [exact Hnp|]. intros r Hr. cbv beta.
    eapply Forall_impl; [exact Hr|]. intros e He. cbv beta in He.
    by apply n_le_number in He as [He _]. }
  exists R. split; [|split; [congruence|done]].
  unfold common_metrics.percentile_regret. rewrite Hreg.
  cbn [mbind option_bind]. rewrite select_one_percentile, HR.
  cbn [fmap option_fmap option_map mbind option_bind].
  by rewrite f_sum_column.
Qed.

(** *** The range *)

Lemma f_range_sign (f : list (list A)) :
  Forall (Forall (fun x => np.isfinite x = true)) f -> Forall (fun r => r <> []) f ->
  exists R, t3.f_range f = Some R /\ length R = length f
    /\ Forall (fun r => n_le np.zero r = true) R.
Proof.
  intros Hfin Hne. unfold t3.f_range, np.amax1, np.amin1.
  induction Hfin as [|r f Hr _ IH].
  - by exists [].
  - apply Forall_cons in Hne as [Hr0 Hne].
    destruct (IH Hne) as (R & HR & Hlen & Hnn).
    destruct (mapM (np.reduce np.maximum) f) as [maxs|] eqn:Hmax; [|done].
    destruct (mapM (np.reduce np.minimum) f) as [mins|] eqn:Hmin; [|done].
    cbn [mbind option_bind] in HR. injection HR as <-.
    destruct r as [|x r]; [done|].
    exists (n_sub (fold_left np.maximum r x) (fold_left np.minimum r x)
            :: zip_with n_sub maxs mins).
    cbn [mapM np.reduce]. rewrite Hmax, Hmin.
    cbn [mbind option_bind mret option_ret zip_with].
    split; [done|]. split; [cbn; by rewrite Hlen|].
    constructor; [|done].
    pose proof (finite_numbers _ Hr) as Hnum.
    apply Forall_cons in Hnum as [Hx Hnum].
    destruct (fold_maximum_bounds r x Hx Hnum) as [HxM _].
    destruct (fold_minimum_bounds r x Hx Hnum) as [Hmx _].
    rewrite Forall_forall in Hr.
    rewrite n_sub_ge_zero.
    + by apply n_le_trans with x.
    + apply Hr. apply fold_maximum_elem.
    + apply Hr. apply fold_minimum_elem.
Qed.

(** *** Satisficing regret *)

Lemma regret_from_values_scalar (f : list (list A)) (n : nat) (t : A)
    (maximise : bool) :
  uniform n f ->
  t1.regret_from_values (np.Arr2 f) (np.Scalar t) maximise
  = Some (t1.identity (np.Arr2 (map (map (fun x => n_sub x t)) f)) maximise).
Proof.
  intros Hu. unfold t1.regret_from_values. cbn [t1._prepare_f np.to2d].
  rewrite (broadcast2_row _ f _ (np.shape1 f)).
  - cbn [mbind option_bind]. do 3 f_equal.
    apply map_ext_in. intros r Hr.
    assert (length r = np.shape1 f) as Hlen.
    { unfold uniform in Hu. rewrite Forall_forall in Hu.
      destruct f as [|r0 f]; [destruct Hr|]. cbn.
      rewrite (Hu r0) by apply list_elem_of_here.
      apply Hu. by apply list_elem_of_In. }
    rewrite <- Hlen. clear. induction r as [|x r IH]; [done|].
    cbn [length replicate zip_with map]. by rewrite IH.
  - destruct f as [|r0 f]; [constructor|]. cbn [np.shape1].
    pose proof Hu as Hu'. apply Forall_cons in Hu' as [<- _]. done.
  - by rewrite length_replicate.
Qed.

Lemma satisficing_entry (maximise : bool) (t x : A) :
  np.isfinite t = true -> np.isfinite x = true ->
  let d := if maximise then n_sub x t else n_opp (n_sub x t) in
  let y := if n_lt np.zero d then np.zero else d in
  n_le y np.zero = true
  /\ (np.eq y np.zero = true <-> (if maximise then n_le t x else n_le x t) = true).
Proof.
  intros Ht Hx d y.
  pose proof (n_sub_le_zero x t Hx Ht) as Hle.
  pose proof (n_sub_ge_zero x t Hx Ht) as Hge.
  assert (n_le d np.zero = if maximise then n_le x t else n_le t x) as Hd.
  { unfold d. destruct maximise; [done|]. by rewrite n_opp_le_zero. }
  assert (n_le np.zero d = if maximise then n_le t x else n_le x t) as Hd'.
  { unfold d. destruct maximise; [done|]. by rewrite n_opp_ge_zero. }
  assert (n_le d np.zero = false -> n_le np.zero d = true) as Htot.
  { rewrite Hd, Hd'. pose proof (isfinite_number x Hx) as Hxn.
    pose proof (isfinite_number t Ht) as Htn.
    destruct maximise; by apply n_le_total. }
  rewrite <- Hd'. unfold y. rewrite n_lt_le. unfold np.eq.
  destruct (n_le np.zero d) eqn:G, (n_le d np.zero) eqn:L; cbn [andb negb].
  - by rewrite L, G.
  - by rewrite zero_le_zero.
  - by rewrite L, G.
  - by specialize (Htot eq_refl).
Qed.

Lemma satisficing_regret_sign (f : list (list A)) (n : nat) (maximise : bool)
    (t : A) :
  uniform n f -> Forall (Forall (fun x => np.isfinite x = true)) f ->
  np.isfinite t = true ->
  exists regret,
    t1.satisficing_regret (np.Arr2 f) (np.Scalar t) maximise = Some regret
    /\ Forall (Forall (fun y => n_le y np.zero = true)) regret
    /\ forall i j x, entry f i j = Some x ->
         exists y, entry regret i j = Some y
           /\ (np.eq y np.zero = true
               <-> (if maximise then n_le t x else n_le x t) = true).
Proof.
  intros Hu Hfin Ht.
  set (d := fun x => if maximise then n_sub x t else n_opp (n_sub x t)).
  set (g := fun x => if n_lt np.zero (d x) then np.zero else d x).
  exists (map (map g) f). split; [|split].
  - unfold t1.satisficing_regret. cbn [t1._prepare_f].
    rewrite (regret_from_values_scalar f n) by done.
    cbn [mbind option_bind]. f_equal.
    unfold g, d. destruct maximise; cbn [t1.identity t1._prepare_f].
    + rewrite map_map. apply map_ext. intros r. by rewrite map_map.
    + unfold np.neg, np.neg1. rewrite !map_map. apply map_ext. intros r.
      by rewrite !map_map.
  - apply Forall_map. eapply Forall_impl; [exact Hfin|]. intros r Hr.
    apply Forall_map. eapply Forall_impl; [exact Hr|]. intros x Hx.
    apply (satisficing_entry maximise t x Ht Hx).
  - intros i j x Hx. unfold entry in *.
    destruct (f !! i) as [r|] eqn:Hr; [|done]. cbn in Hx.
    rewrite list_lookup_fmap, Hr. cbn. rewrite list_lookup_fmap, Hx. cbn.
    eexists. split; [done|].
    rewrite Forall_lookup in Hfin. specialize (Hfin i r Hr).
    rewrite Forall_lookup in Hfin. specialize (Hfin j x Hx).
    apply (satisficing_entry maximise t x Ht Hfin).
Qed.

End Signs.

(** X4.  For floating-point arrays: regret from the best decision
    alternative is returned for every finite array with at least one
    decision alternative, is never positive, and in every scenario some
    decision alternative has regret zero.  A regret may be minus
    infinity, when the difference overflows. *)
Theorem regret_from_best_da_nonpositive {A : Type} `{Number A} `{!SignLaws A}
    (f : list (list A)) (n : nat) (maximise : bool) :
  f <> [] -> uniform n f -> Forall (Forall (fun x => np.isfinite x = true)) f ->
  exists regret,
    t1.regret_from_best_da (np.Arr2 f) maximise = Some regret
    /\ length regret = length f /\ uniform n regret
    /\ Forall (Forall (fun e => n_le e np.zero = true)) regret
    /\ forall j, (j < n)%nat ->
         exists i e, entry regret i j = Some e /\ np.eq e np.zero = true.
Proof. apply regret_from_best_da_spec. Qed.

(** The theorem of X4 on a concrete input:
    the matrix of the test-suite, in exact values. *)
Lemma regret_from_best_da_nonpositive_witness :
  exists regret,
    t1.regret_from_best_da (A := xval) (np.Arr2 test_rows) true = Some regret
    /\ length regret = length (test_rows (A := xval)) /\ uniform 3 regret
    /\ Forall (Forall (fun e => n_le e np.zero = true)) regret
    /\ forall j, (j < 3)%nat ->
         exists i e, entry regret i j = Some e /\ np.eq e np.zero = true.
Proof.
  apply (regret_from_best_da_nonpositive (A := xval) test_rows 3 true);
    [discriminate | repeat constructor | repeat constructor].
Defined.

(** X5.  For floating-point arrays: minimax regret is returned for every
    finite array with at least one decision alternative and one
    scenario, and is never positive. *)
Theorem minimax_regret_nonpositive {A : Type} `{Number A} `{!SignLaws A}
    (f : list (list A)) (n : nat) (maximise : bool) :
  f <> [] -> uniform n f -> (1 <= n)%nat ->
  Forall (Forall (fun x => np.isfinite x = true)) f ->
  exists R,
    common_metrics.minimax_regret (np.Arr2 f) maximise = Some R
    /\ length R = length f /\ Forall (fun r => n_le r np.zero = true) R.
Proof. apply minimax_regret_sign. Qed.

(** The theorem of X5 on a concrete input:
    the matrix of the test-suite, in exact values. *)
Lemma minimax_regret_nonpositive_witness :
  exists R,
    common_metrics.minimax_regret (A := xval) (np.Arr2 test_rows) true = Some R
    /\ length R = length (test_rows (A := xval))
    /\ Forall (fun r => n_le r np.zero = true) R.
Proof.
  apply (minimax_regret_nonpositive (A := xval) test_rows 3 true);
    [discriminate | repeat constructor | lia | repeat constructor].
Defined.

(** X10.  For floating-point arrays: percentile regret, at a percentile
    between 0 and 1, is returned for every finite array with at least
    one decision alternative and one scenario, and is never positive. *)
Theorem percentile_regret_nonpositive {A : Type} `{Number A} `{!SignLaws A}
    (f : list (list A)) (n : nat) (maximise : bool) (percentile : Q) :
  f <> [] -> uniform n f -> (1 <= n)%nat ->
  Forall (Forall (fun x => np.isfinite x = true)) f ->
  (0 <= percentile)%Q -> (percentile <= 1)%Q ->
  exists R,
    common_metrics.percentile_regret (np.Arr2 f) maximise percentile = Some R
    /\ length R = length f /\ Forall (fun r => n_le r np.zero = true) R.
Proof. apply percentile_regret_sign. Qed.

(** The theorem of X10 on a concrete input:
    the matrix of the test-suite, in exact values, the percentile 0.1. *)
Lemma percentile_regret_nonpositive_witness :
  exists R,
    common_metrics.percentile_regret (A := xval) (np.Arr2 test_rows) true (1 # 10)
    = Some R
    /\ length R = length (test_rows (A := xval))
    /\ Forall (fun r => n_le r np.zero = true) R.
Proof.
  apply (percentile_regret_nonpositive (A := xval) test_rows 3 true (1 # 10));
    [discriminate | repeat constructor | lia | repeat constructor
    | discriminate | discriminate].
Defined.

(** X12.  For floating-point arrays: the range of every decision
    alternative of a finite array whose rows are not empty is returned
    and is not negative.  It may be plus infinity, when the difference
    overflows. *)
Theorem f_range_nonnegative {A : Type} `{Number A} `{!SignLaws A}
    (f : list (list A)) :
  Forall (Forall (fun x => np.isfinite x = true)) f -> Forall (fun r => r <> []) f ->
  exists R, t3.f_range f = Some R /\ length R = length f
    /\ Forall (fun r => n_le np.zero r = true) R.
Proof. apply f_range_sign. Qed.

(** The theorem of X12 on a concrete input:
    the matrix of the test-suite, in exact values. *)
Lemma f_range_nonnegative_witness :
  exists R, t3.f_range (A := xval) test_rows = Some R
    /\ length R = length (test_rows (A := xval))
    /\ Forall (fun r => n_le np.zero r = true) R.
Proof.
  apply (f_range_nonnegative (A := xval) test_rows); repeat constructor; discriminate.
Defined.

(** X6.  For floating-point arrays: satisficing regret with one finite
    threshold for all scenarios is returned for every finite array, is
    never positive, and is zero exactly on the values that meet the
    threshold: those at least the threshold when maximising, at most the
    threshold when minimising.  A regret may be minus infinity, when the
    difference overflows. *)
Theorem satisficing_regret_scalar {A : Type} `{Number A} `{!SignLaws A}
    (f : list (list A)) (n : nat) (maximise : bool) (t : A) :
  uniform n f -> Forall (Forall (fun x => np.isfinite x = true)) f ->
  np.isfinite t = true ->
  exists regret,
    t1.satisficing_regret (np.Arr2 f) (np.Scalar t) maximise = Some regret
    /\ Forall (Forall (fun y => n_le y np.zero = true)) regret
    /\ forall i j x, entry f i j = Some x ->
         exists y, entry regret i j = Some y
           /\ (np.eq y np.zero = true
               <-> (if maximise then n_le t x else n_le x t) = true).
Proof. apply satisficing_regret_sign. Qed.

(** The theorem of X6 on a concrete input:
    the matrix of the test-suite, in exact values, threshold 0.9. *)
Lemma satisficing_regret_scalar_witness :
  exists regret,
    t1.satisficing_regret (np.Arr2 test_rows) (np.Scalar (Fin (Q2Qc (9 # 10)))) true
    = Some regret
    /\ Forall (Forall (fun y => n_le y np.zero = true)) regret
    /\ forall i j x, entry test_rows i j = Some x ->
         exists y, entry regret i j = Some y
           /\ (np.eq y np.zero = true <-> n_le (Fin (Q2Qc (9 # 10))) x = true).
Proof.
  apply (satisficing_regret_scalar (A := xval) test_rows 3 true (Fin (Q2Qc (9 # 10))));
    repeat constructor.
Defined.

(** *** The laws and the signs at binary64

    The laws evaluated on binary64 numbers, and the embedding evaluated
    at binary64 on arrays of the finite numbers [huge] and [- huge],
    where the differences overflow: the results are infinite and have
    the signs of the statements above. *)

Lemma sign_laws_on_binary64_samples :
  forallb (fun a =>
    forallb (fun b =>
      sign_laws_test a b
      && forallb (fun c => implb (n_le a b && n_le b c) (n_le a c))
           binary64_samples)
      binary64_samples)
    binary64_samples = true
  /\ np.isfinite (np.zero (A := float)) = true.
Proof. vm_compute. by split. Qed.

Lemma signs_where_differences_overflow :
  t1.regret_from_best_da (np.Arr2 [[(- huge)%float]; [huge]]) true
  = Some [[neg_infinity]; [0%float]]
  /\ common_metrics.minimax_regret (np.Arr2 [[(- huge)%float]; [huge]]) true
     = Some [neg_infinity; 0%float]
  /\ common_metrics.percentile_regret (np.Arr2 [[(- huge)%float]; [huge]]) true (1 # 2)
     = Some [neg_infinity; 0%float]
  /\ t1.satisficing_regret (np.Arr2 [[(- huge)%float]]) (np.Scalar huge) true
     = Some [[neg_infinity]]
  /\ t3.f_range [[huge; (- huge)%float]] = Some [infinity]
  /\ n_le neg_infinity (np.zero (A := float)) = true
  /\ n_le (np.zero (A := float)) infinity = true.
Proof. vm_compute. by repeat split. Qed.

(** ** Percentile selection *)

Lemma quantile_nearest_elem (row : list xval) (q : Q) :
  row <> [] -> (0 <= q)%Q -> (q <= 1)%Q ->
  exists y, np.quantile_nearest row q = Some y /\ y ∈ row.
Proof.
  intros Hne H0 H1. unfold np.quantile_nearest.
  assert (Qle_bool 0 q && Qle_bool q 1 = true) as ->.
  { apply andb_true_iff. split; by apply Qle_bool_iff. }
  cbn [negb].
  destruct (existsb n_isnan row) eqn:Hnan.
  - exists NaN. split; [done|].
    apply existsb_exists in Hnan as (x & Hx & Hn). apply list_elem_of_In in Hx.
    by destruct x.
  - set (k := np.round_half_even (q * inject_Z (Z.of_nat (length row) - 1))).
    assert (0 <= k <= Z.of_nat (length row) - 1) as Hk.
    { assert (1 <= length row)%nat as Hlen by (destruct row; [done|cbn; lia]).
      assert (0 <= inject_Z (Z.of_nat (length row) - 1))%Q as Hpos.
      { change 0%Q with (inject_Z 0). rewrite <- Zle_Qle. lia. }
      apply round_half_even_bounds.
      - by apply Qmult_le_0_compat.
      - rewrite <- (Qmult_1_l (inject_Z (Z.of_nat (length row) - 1))) at 2.
        by apply Qmult_le_compat_r. }
    destruct (np.sort row !! Z.to_nat k) as [y|] eqn:Hy.
    + exists y. split; [done|]. apply list_elem_of_lookup_2 in Hy.
      by rewrite sort_perm in Hy.
    + apply lookup_ge_None in Hy. rewrite length_sort in Hy. lia.
Qed.

Lemma quantile_nearest_outside (row : list xval) (q : Q) :
  ~ ((0 <= q)%Q /\ (q <= 1)%Q) -> np.quantile_nearest row q = None.
Proof.
  intros Hq. unfold np.quantile_nearest.
  destruct (Qle_bool 0 q && Qle_bool q 1) eqn:Hb; [|done].
  apply andb_true_iff in Hb as [H0 H1].
  apply Qle_bool_iff in H0. apply Qle_bool_iff in H1. tauto.
Qed.

Lemma transpose_map {B C : Type} (h : B -> Q -> C) (f : list B) (ps : list Q) :
  np.transpose (A := C) (length f) (map (fun p => map (fun row => h row p) f) ps)
  = map (fun row => map (h row) ps) f.
Proof.
  unfold np.transpose. apply list_eq. intros i.
  rewrite !list_lookup_fmap.
  destruct (f !! i) as [row|] eqn:Hrow.
  - rewrite lookup_seq_lt by (by eapply lookup_lt_Some). cbn. f_equal.
    induction ps as [|p ps IH]; [done|]. cbn.
    rewrite list_lookup_fmap, Hrow. cbn. by rewrite IH.
  - rewrite lookup_seq_ge by (by apply lookup_ge_None). done.
Qed.

Lemma select_percentiles_rows (f : list (list xval)) (ps : list Q)
    (h : list xval -> Q -> xval) :
  (forall row p, row ∈ f -> p ∈ ps -> np.quantile_nearest row p = Some (h row p)) ->
  t2.select_percentiles f ps = Some (map (fun row => map (h row) ps) f).
Proof.
  intros Hq. unfold t2.select_percentiles, np.quantile.
  assert (mapM (fun q => mapM (fun row => np.quantile_nearest row q) f) ps
          = Some (map (fun p => map (fun row => h row p) f) ps)) as ->.
  { induction ps as [|p ps IH]; [done|]. cbn [mapM map].
    assert (mapM (fun row => np.quantile_nearest row p) f
            = Some (map (fun row => h row p) f)) as ->.
    { assert (forall row, row ∈ f -> np.quantile_nearest row p = Some (h row p)) as Hp.
      { intros row Hrow. apply Hq; [done|apply list_elem_of_here]. }
      clear Hq IH. induction f as [|row f IH]; [done|]. cbn [mapM map].
      rewrite Hp by apply list_elem_of_here. cbn [mbind option_bind].
      rewrite IH; [done|]. intros row' Hr'. apply Hp. by apply list_elem_of_further. }
    cbn [mbind option_bind]. rewrite IH; [done|].
    intros row p' Hrow Hp'. apply Hq; [done|by apply list_elem_of_further]. }
  cbn [mbind option_bind]. f_equal. apply transpose_map.
Qed.

Lemma select_percentiles_spec (f : list (list xval)) (n : nat)
    (percentiles : list Q) :
  uniform n f -> (1 <= n)%nat ->
  Forall (fun q => (0 <= q)%Q /\ (q <= 1)%Q) percentiles ->
  exists out,
    t2.select_percentiles f percentiles = Some out
    /\ Forall2 (fun row o => length o = length percentiles
                             /\ Forall (fun y => y ∈ row) o) f out.
Proof.
  intros Hu Hn Hps.
  set (h := fun (row : list xval) (p : Q) =>
              default NaN (np.quantile_nearest row p)).
  exists (map (fun row => map (h row) percentiles) f). split.
  - apply select_percentiles_rows. intros row p Hrow Hp.
    unfold uniform in Hu. rewrite Forall_forall in Hu. rewrite Forall_forall in Hps.
    destruct (quantile_nearest_elem row p) as (y & Hy & _).
    + intros ->. specialize (Hu _ Hrow). cbn in Hu. lia.
    + by apply Hps.
    + by apply Hps.
    + unfold h. by rewrite Hy.
  - apply Forall2_fmap_r. apply Forall_Forall2_diag.
    eapply Forall_impl; [exact Hu|]. intros row Hrow. cbv beta in Hrow.
    split; [by rewrite length_map|].
    apply Forall_map. eapply Forall_impl; [exact Hps|]. intros p [H0 H1].
    destruct (quantile_nearest_elem row p) as (y & Hy & Hel); try done.
    + intros ->. cbn in Hrow. lia.
    + unfold h. cbn. by rewrite Hy.
Qed.

(** X7.  Percentile selection returns, for every decision alternative, one
    of its own values for each requested percentile. *)
Theorem select_percentiles_observed (f : list (list xval)) (n : nat)
    (percentiles : list Q) :
  uniform n f -> (1 <= n)%nat ->
  Forall (fun q => (0 <= q)%Q /\ (q <= 1)%Q) percentiles ->
  exists out,
    t2.select_percentiles f percentiles = Some out
    /\ Forall2 (fun row o => length o = length percentiles
                             /\ Forall (fun y => y ∈ row) o) f out.
Proof. apply select_percentiles_spec. Qed.

(** The theorem of X7 on a concrete input:
    the matrix of the test-suite, the percentiles 0.25
    and 0.99. *)
Lemma select_percentiles_observed_witness :
  exists out,
    t2.select_percentiles (A := xval) test_rows [1 # 4; 99 # 100]%Q = Some out
    /\ Forall2 (fun row o => length o = length [1 # 4; 99 # 100]%Q
                             /\ Forall (fun y => y ∈ row) o) test_rows out.
Proof.
  apply (select_percentiles_observed test_rows 3 [1 # 4; 99 # 100]%Q);
    [repeat constructor | lia | repeat constructor; discriminate].
Defined.

(** X8.  A percentile outside [0, 1] makes percentile selection raise. *)
Theorem select_percentiles_outside (f : list (list xval)) (percentiles : list Q) :
  f <> [] ->
  Exists (fun q => ~ ((0 <= q)%Q /\ (q <= 1)%Q)) percentiles ->
  t2.select_percentiles f percentiles = None.
Proof.
  intros Hne Hex. unfold t2.select_percentiles, np.quantile.
  assert (mapM (fun q => mapM (fun row => np.quantile_nearest row q) f) percentiles
          = None) as ->; [|done].
  induction Hex as [p ps Hp|p ps _ IH]; cbn [mapM].
  - destruct f as [|row f]; [done|]. cbn [mapM].
    by rewrite (quantile_nearest_outside row p Hp).
  - rewrite IH. by destruct (mapM _ f).
Qed.

(** The theorem of X8 on a concrete input:
    the matrix of the test-suite, the percentiles 0.5
    and 1.5. *)
Lemma select_percentiles_outside_witness :
  t2.select_percentiles (A := xval) test_rows [1 # 2; 3 # 2]%Q = None.
Proof.
  apply (select_percentiles_outside test_rows [1 # 2; 3 # 2]%Q); [discriminate|].
  apply Exists_cons_tl, Exists_cons_hd. intros [_ Hle]. by apply Hle.
Defined.

(** ** Percentile regret at the percentile 0 *)

Lemma mapM_pointwise {B C : Type} (g h : B -> option C) (l : list B) :
  (forall x, g x = h x) -> mapM g l = mapM h l.
Proof.
  intros Hgh. induction l as [|x l IH]; [done|]. cbn [mapM]. by rewrite Hgh, IH.
Qed.

(** X9.  Percentile regret at the percentile 0 is minimax regret. *)
Theorem percentile_regret_worst (f : np.ndarray xval) (maximise : bool) :
  common_metrics.percentile_regret f maximise 0
  = common_metrics.minimax_regret f maximise.
Proof.
  unfold common_metrics.percentile_regret, common_metrics.minimax_regret.
  destruct (t1.regret_from_best_da f maximise) as [regret|]; [|done].
  cbn [mbind option_bind]. rewrite select_percentiles_single.
  unfold t2.worst_case, np.amin1.
  by rewrite (mapM_pointwise _ (np.reduce np.minimum) regret quantile_nearest_low).
Qed.

(** ** The worst half *)

(** X11.  The first column of the worst half is the worst case. *)
Theorem worst_half_first_column (f : list (list xval)) (n : nat) :
  uniform n f -> (1 <= n)%nat -> Forall no_nan f ->
  np.column 0 (t2.worst_half f) = np.amin1 f
  /\ is_Some (np.amin1 f).
Proof.
  intros Hu Hn Hnan.
  assert (np.column 0 (t2.worst_half f) = np.amin1 f) as Heq.
  { unfold t2.worst_half.
    assert (np.shape1 (map np.sort f) = n \/ f = []) as [->| ->]; [| |done].
    { destruct f as [|r f]; [by right|left]. cbn. rewrite length_sort.
      by apply Forall_cons in Hu as [-> _]. }
    destruct (worst_half_count n) as [-> _]. rewrite Nat2Z.id.
    rewrite column_take.
    - unfold np.column, np.amin1. clear Hu.
      induction Hnan as [|r f Hr _ IH]; [done|]. cbn [map mapM].
      by rewrite IH, sort_first_minimum.
    - assert (2 <= n + 1)%nat as H2 by lia.
      pose proof (Nat.Div0.div_le_mono 2 (n + 1) 2 H2) as Hd.
      rewrite Nat.div_same in Hd by lia. lia. }
  split; [done|]. unfold np.amin1. clear Heq Hnan.
  induction Hu as [|r f Hr _ IH]; [done|]. cbn [mapM].
  destruct r as [|x r]; [cbn in Hr; lia|]. cbn [np.reduce mbind option_bind].
  destruct IH as [v ->]. done.
Qed.

(** The theorem of X11 on a concrete input:
    the matrix of the test-suite. *)
Lemma worst_half_first_column_witness :
  np.column 0 (t2.worst_half (A := xval) test_rows) = np.amin1 test_rows
  /\ is_Some (np.amin1 (A := xval) test_rows).
Proof.
  apply (worst_half_first_column test_rows 3); [repeat constructor | lia |].
  repeat constructor.
Defined.

(** ** An array without scenarios *)

Lemma uniform_0 {B : Type} (f : list (list B)) :
  uniform 0 f -> f = replicate (length f) [].
Proof.
  induction 1 as [|r f Hr _ IH]; [done|]. cbn. rewrite <- IH.
  by destruct r.
Qed.

Lemma neg_empty_rows (m : nat) :
  np.neg (A := xval) (replicate m []) = replicate m [].
Proof. induction m as [|m IH]; [done|]. cbn. by rewrite <- IH at 2. Qed.

Lemma fold_zip_with_nil {B : Type} (op : B -> B -> B) (l : list (list B)) :
  fold_left (zip_with op) l [] = [].
Proof. induction l as [|r l IH]; [done|]. cbn. exact IH. Qed.

(** X13.  On an array with decision alternatives but no scenario, maximin,
    maximax, minimax regret and the range raise, while Laplace's mean
    returns NaN for every decision alternative. *)
Theorem metrics_without_scenarios (f : list (list xval)) (maximise : bool) :
  f <> [] -> uniform 0 f ->
  common_metrics.maximin (np.Arr2 f) maximise = None
  /\ common_metrics.maximax (np.Arr2 f) maximise = None
  /\ common_metrics.minimax_regret (np.Arr2 f) maximise = None
  /\ t3.f_range f = None
  /\ common_metrics.laplace (np.Arr2 f) maximise = replicate (length f) NaN.
Proof.
  intros Hne Hu. rewrite (uniform_0 f Hu).
  assert (t1.identity (np.Arr2 (replicate (length f) ([] : list xval))) maximise
          = replicate (length f) []) as Hid.
  { destruct maximise; [done|]. apply neg_empty_rows. }
  unfold common_metrics.maximin, common_metrics.maximax,
    common_metrics.minimax_regret, common_metrics.laplace, t1.regret_from_best_da.
  cbn [t1._prepare_f]. rewrite Hid.
  destruct (length f) as [|m] eqn:Hm; [by destruct f|].
  cbn [replicate]. repeat split; try done.
  - unfold np.amax0. cbn [np.reduce]. rewrite fold_zip_with_nil.
    cbn [mbind option_bind np.to2d].
    rewrite (broadcast2_row _ _ _ 0%nat); [done| |done].
    constructor; [done|]. by apply Forall_replicate.
  - unfold t2.all_scenarios, t3.f_mean. cbn [map]. f_equal.
    clear. induction m as [|m IH]; [done|]. cbn [replicate map]. by rewrite IH.
Qed.

(** The theorem of X13 on a concrete input:
    two decision alternatives without a scenario. *)
Lemma metrics_without_scenarios_witness :
  common_metrics.maximin (np.Arr2 no_scenarios) true = None
  /\ common_metrics.maximax (np.Arr2 no_scenarios) true = None
  /\ common_metrics.minimax_regret (np.Arr2 no_scenarios) true = None
  /\ t3.f_range no_scenarios = None
  /\ common_metrics.laplace (np.Arr2 no_scenarios) true
     = replicate (length no_scenarios) NaN.
Proof.
  apply (metrics_without_scenarios no_scenarios true);
    [discriminate | repeat constructor].
Defined.

(** ** The variance over a single scenario *)

Lemma var_ddof1_single (r : list xval) :
  (length r <= 1)%nat -> Forall x_finite r -> np.var_ddof1 r = NaN.
Proof.
  intros Hlen Hfin. destruct r as [|x [|y r]]; [done| |cbn in Hlen; lia].
  apply Forall_cons in Hfin as [Hx _]. destruct x as [q| | |]; try done.
  unfold np.var_ddof1, np.mean. cbn [map length Nat.sub np.sum].
  cbn [fold_left n_div n_sub n_mul xval_Number].
  rewrite x_div_1. cbn [x_sub x_opp x_add x_mul].
  assert (forall a : Qc, a = 0%Qc -> x_div (Fin a) (Fin (qc_of_Z 0)) = NaN) as Hz.
  { intros a ->. done. }
  apply Hz. ring.
Qed.

(** X14.  The variance of a finite array with a single scenario, or with
    none, is NaN for every decision alternative: with [ddof=1] the sum
    of the squared deviations is divided by zero.  Nothing is raised. *)
Theorem f_variance_single_scenario (f : list (list xval)) (n : nat) :
  uniform n f -> (n <= 1)%nat -> Forall (Forall x_finite) f ->
  t3.f_variance f = replicate (length f) NaN.
Proof.
  intros Hu Hn Hfin. unfold t3.f_variance.
  induction Hu as [|r f Hr _ IH]; [done|].
  apply Forall_cons in Hfin as [Hrf Hfin]. cbn [map length replicate].
  rewrite IH by done. f_equal. apply var_ddof1_single; [lia|done].
Qed.

(** The theorem of X14 on a concrete input:
    two decision alternatives with one scenario each. *)
Lemma f_variance_single_scenario_witness :
  t3.f_variance one_scenario = replicate (length one_scenario) NaN.
Proof.
  apply (f_variance_single_scenario one_scenario 1); [repeat constructor | lia |].
  repeat constructor.
Defined.

(** ** Deviations below the median *)

Lemma sorted_lookup_le (s : list xval) (i j : nat) (a b : xval) :
  StronglySorted ascending s -> (i <= j)%nat ->
  s !! i = Some a -> s !! j = Some b -> ascending a b.
Proof.
  intros Hs. revert i j. induction Hs as [|x l _ IH Hx]; intros i j Hij Ha Hb; [done|].
  destruct i as [|i], j as [|j]; try lia.
  - cbn in Ha, Hb. injection Ha as <-. injection Hb as <-. apply ascending_refl.
  - cbn in Ha, Hb. injection Ha as <-. apply list_elem_of_lookup_2 in Hb.
    rewrite List.Forall_forall in Hx. apply Hx. by apply list_elem_of_In.
  - cbn in Ha, Hb. apply (IH i j); [lia|done|done].
Qed.

Lemma sorted_prefix_le (s : list xval) (i : nat) (a : xval) :
  StronglySorted ascending s -> s !! i = Some a ->
  Forall (fun x => ascending x a) (take (S i) s).
Proof.
  intros Hs Ha. apply Forall_lookup. intros j x Hx.
  apply lookup_take_Some in Hx as [Hx Hj].
  apply (sorted_lookup_le s j i); [done|lia|done|done].
Qed.

Lemma sorted_suffix_ge (s : list xval) (i : nat) (a : xval) :
  StronglySorted ascending s -> s !! i = Some a ->
  Forall (fun x => ascending a x) (drop i s).
Proof.
  intros Hs Ha. apply Forall_lookup. intros j x Hx.
  rewrite lookup_drop in Hx.
  apply (sorted_lookup_le s i (i + j)); [done|lia|done|done].
Qed.

Lemma filter_all {B : Type} (P : B -> Prop) `{forall x, Decision (P x)} (l : list B) :
  Forall P l -> filter P l = l.
Proof.
  induction 1 as [|x l Hx _ IH]; [done|].
  rewrite filter_cons_True by done. by rewrite IH.
Qed.

Lemma filter_length_prefix {B : Type} (P : B -> Prop) `{forall x, Decision (P x)}
    (l : list B) (k : nat) :
  (k <= length l)%nat -> Forall P (take k l) -> (k <= length (filter P l))%nat.
Proof.
  intros Hk Hall. rewrite <- (take_drop k l), filter_app, length_app.
  rewrite (filter_all P (take k l) Hall), length_take. lia.
Qed.

Lemma filter_length_suffix {B : Type} (P : B -> Prop) `{forall x, Decision (P x)}
    (l : list B) (j : nat) :
  Forall P (drop j l) -> (length l - j <= length (filter P l))%nat.
Proof.
  intros Hall. rewrite <- (take_drop j l) at 2. rewrite filter_app, length_app.
  rewrite (filter_all P (drop j l) Hall), length_drop. lia.
Qed.

Lemma filter_length_map {B C : Type} (P : B -> Prop) (Q : C -> Prop)
    `{forall x, Decision (P x)} `{forall y, Decision (Q y)} (g : B -> C) (l : list B) :
  (forall x, P x -> Q (g x)) ->
  (length (filter P l) <= length (filter Q (map g l)))%nat.
Proof.
  intros Himp. induction l as [|x l IH]; [done|]. cbn [map].
  destruct (decide (P x)) as [HP|HP].
  - rewrite (filter_cons_True P) by done.
    rewrite (filter_cons_True Q) by (by apply Himp). cbn. lia.
  - rewrite (filter_cons_False P) by done.
    destruct (decide (Q (g x))).
    + rewrite (filter_cons_True Q) by done. cbn. lia.
    + by rewrite (filter_cons_False Q).
Qed.

(** In a sorted row the first [k] values are those that are smallest. *)
Lemma sorted_prefix_closed (P : xval -> Prop) `{forall x, Decision (P x)}
    (s : list xval) (k : nat) :
  (forall a b, ascending a b -> P b -> P a) ->
  StronglySorted ascending s ->
  (k <= length (filter P s))%nat -> Forall P (take k s).
Proof.
  intros Hclosed Hs. revert k. induction Hs as [|x l Hl IH Hx]; intros k Hk.
  - by rewrite take_nil.
  - destruct k as [|k]; [constructor|]. cbn [take].
    destruct (decide (P x)) as [HP|HP].
    + rewrite filter_cons_True in Hk by done. cbn in Hk.
      constructor; [done|]. apply IH. lia.
    + rewrite filter_cons_False in Hk by done.
      assert (filter P l = []) as Hnil.
      { apply list_eq. intros i. rewrite lookup_nil.
        destruct (filter P l !! i) as [y|] eqn:Hy; [|done].
        apply list_elem_of_lookup_2, list_elem_of_filter in Hy as [HPy Hin].
        exfalso. apply HP. apply (Hclosed x y); [|done].
        rewrite List.Forall_forall in Hx. apply Hx. by apply list_elem_of_In. }
      rewrite Hnil in Hk. cbn in Hk. lia.
Qed.

Lemma half_of_even (t : nat) :
  (2 * t / 2 = t)%nat /\ ((2 * t + 1) / 2 = t)%nat.
Proof.
  split; symmetry.
  - apply (Nat.div_unique (2 * t) 2 t 0); lia.
  - apply (Nat.div_unique (2 * t + 1) 2 t 1); lia.
Qed.

Lemma qc_midpoint (a b : Qc) :
  (a <= b)%Qc ->
  (a <= (a + b) / qc_of_Z 2)%Qc /\ ((a + b) / qc_of_Z 2 <= b)%Qc.
Proof.
  intros Hab.
  assert (0 < qc_of_Z 2)%Qc as H2 by (change 0%Qc with (qc_of_Z 0); by apply qc_of_Z_lt).
  assert (qc_of_Z 2 <> 0%Qc) as H2' by (intros E; rewrite E in H2; by apply Qclt_not_eq in H2).
  assert (qc_of_Z 2 = 1 + 1)%Qc as H11 by (by apply Qc_is_canon).
  split.
  - assert (a = (a + a) / qc_of_Z 2)%Qc as Heq by (rewrite H11; field; discriminate).
    rewrite Heq at 1. apply qc_div_le_mono; [done|].
    apply Qcplus_le_compat; [apply Qcle_refl|done].
  - assert (b = (b + b) / qc_of_Z 2)%Qc as Heq by (rewrite H11; field; discriminate).
    rewrite Heq at 2. apply qc_div_le_mono; [done|].
    apply Qcplus_le_compat; [done|apply Qcle_refl].
Qed.

Lemma finite_existsb_nan (r : list xval) :
  Forall x_finite r -> existsb n_isnan r = false.
Proof.
  induction 1 as [|x r Hx _ IH]; [done|]. cbn [existsb]. rewrite IH.
  by destruct x.
Qed.

Lemma finite_sort (r : list xval) : Forall x_finite r -> Forall x_finite (np.sort r).
Proof. intros Hr. by rewrite sort_perm. Qed.

Lemma lookup_finite (s : list xval) (i : nat) :
  Forall x_finite s -> (i < length s)%nat -> exists a, s !! i = Some (Fin a).
Proof.
  intros Hs Hi. destruct (lookup_lt_is_Some_2 s i Hi) as [x Hx].
  rewrite Forall_lookup in Hs. specialize (Hs i x Hx).
  destruct x as [a| | |]; try done. by exists a.
Qed.

Lemma median_between (qs : list Qc) :
  qs <> [] ->
  exists a med b,
    np.sort (map Fin qs) !! ((length qs + 1) / 2 - 1)%nat = Some (Fin a)
    /\ np.sort (map Fin qs) !! (length qs - (length qs + 1) / 2)%nat = Some (Fin b)
    /\ np.median (map Fin qs) = Fin med
    /\ (a <= med)%Qc /\ (med <= b)%Qc.
Proof.
  intros Hne.
  assert (1 <= length qs)%nat as Hn by (destruct qs; [done|cbn; lia]).
  pose proof (finite_map_Fin qs) as Hfin.
  pose proof (finite_sort _ Hfin) as Hsfin.
  pose proof (sort_ascending (map Fin qs)) as Hsorted.
  pose proof (length_sort (map Fin qs)) as Hlen. rewrite length_map in Hlen.
  unfold np.median. rewrite (finite_existsb_nan _ Hfin), length_map.
  set (s := np.sort (map Fin qs)) in *.
  destruct (Nat.even (length qs)) eqn:Heven.
  - apply Nat.even_spec in Heven as [t Ht]. rewrite Ht in *.
    destruct (half_of_even t) as [Hd0 Hd1]. rewrite Hd0, Hd1.
    destruct (lookup_finite s (t - 1) Hsfin ltac:(lia)) as [a Ha].
    destruct (lookup_finite s t Hsfin ltac:(lia)) as [b Hb].
    assert (a <= b)%Qc as Hab.
    { apply ascending_fin. apply (sorted_lookup_le s (t - 1) t); [done|lia|done|done]. }
    exists a, ((a + b) / qc_of_Z 2)%Qc, b.
    replace (2 * t - t)%nat with t by lia.
    split; [done|]. split; [done|]. split; [|by apply qc_midpoint].
    rewrite (drop_S s (Fin a) (t - 1) Ha).
    replace (S (t - 1)) with t by lia.
    rewrite (drop_S s (Fin b) t Hb). cbn [take].
    unfold np.mean. cbn [np.sum fold_left length n_add xval_Number x_add].
    change (np.of_nat 2) with (Fin (qc_of_Z 2)).
    apply x_div_fin. intros E. by apply (f_equal this) in E.
  - assert (Nat.odd (length qs) = true) as Hodd.
    { rewrite <- Nat.negb_even. by rewrite Heven. }
    apply Nat.odd_spec in Hodd as [t Ht]. rewrite Ht in *.
    destruct (half_of_even t) as [Hd0 _].
    replace (2 * t + 1 + 1)%nat with (2 * (t + 1))%nat by lia.
    destruct (half_of_even (t + 1)) as [-> _].
    replace (2 * t + 1 - 1)%nat with (2 * t)%nat by lia. rewrite Hd0.
    replace (t + 1 - 1)%nat with t by lia.
    replace (2 * t + 1 - (t + 1))%nat with t by lia.
    destruct (lookup_finite s t Hsfin ltac:(lia)) as [a Ha].
    exists a, a, a. split; [done|]. split; [done|].
    split; [|split; apply Qcle_refl].
    rewrite (drop_S s (Fin a) t Ha). cbn [take].
    unfold np.mean. cbn [np.sum fold_left length].
    apply x_div_1.
Qed.

Lemma ascending_below (x : xval) (a med : Qc) :
  ascending x (Fin a) -> (a <= med)%Qc -> x_le x (Fin med) = true.
Proof.
  intros Hx Ham. destruct x as [p| | |]; try done.
  apply ascending_fin in Hx. apply x_le_fin. by apply Qcle_trans with a.
Qed.

Lemma ascending_above (x : xval) (b med : Qc) :
  x_finite x -> ascending (Fin b) x -> (med <= b)%Qc -> x_le (Fin med) x = true.
Proof.
  intros Hfin Hx Hmb. destruct x as [p| | |]; try done.
  apply ascending_fin in Hx. apply x_le_fin. by apply Qcle_trans with b.
Qed.

(** At least half of the values of a row, rounded up, are at most the
    median, and as many are at least the median. *)
Lemma median_counts (qs : list Qc) :
  qs <> [] ->
  exists med,
    np.median (map Fin qs) = Fin med
    /\ ((length qs + 1) / 2
        <= length (filter (fun x => x_le x (Fin med) = true) (map Fin qs)))%nat
    /\ ((length qs + 1) / 2
        <= length (filter (fun x => x_le (Fin med) x = true) (map Fin qs)))%nat.
Proof.
  intros Hne.
  destruct (median_between qs Hne) as (a & med & b & Ha & Hb & Hmed & Ham & Hmb).
  assert (1 <= length qs)%nat as Hn by (destruct qs; [done|cbn; lia]).
  pose proof (finite_sort _ (finite_map_Fin qs)) as Hsfin.
  pose proof (sort_ascending (map Fin qs)) as Hsorted.
  pose proof (length_sort (map Fin qs)) as Hlen. rewrite length_map in Hlen.
  assert (1 <= (length qs + 1) / 2 <= length qs)%nat as Hk.
  { destruct (Nat.even (length qs)) eqn:Heven.
    - apply Nat.even_spec in Heven as [t Ht]. rewrite Ht.
      destruct (half_of_even t) as [_ ->]. lia.
    - assert (Nat.odd (length qs) = true) as Hodd.
      { rewrite <- Nat.negb_even. by rewrite Heven. }
      apply Nat.odd_spec in Hodd as [t Ht]. rewrite Ht.
      replace (2 * t + 1 + 1)%nat with (2 * (t + 1))%nat by lia.
      destruct (half_of_even (t + 1)) as [-> _]. lia. }
  set (k := ((length qs + 1) / 2)%nat) in *.
  exists med. split; [done|]. rewrite <- !(sort_perm (map Fin qs)). split.
  - apply filter_length_prefix; [lia|].
    pose proof (sorted_prefix_le _ _ _ Hsorted Ha) as Hpre.
    replace (S (k - 1)) with k in Hpre by lia.
    eapply Forall_impl; [exact Hpre|]. intros x Hx. by apply ascending_below with a.
  - pose proof (sorted_suffix_ge _ _ _ Hsorted Hb) as Hsuf.
    assert (Forall (fun x => x_le (Fin med) x = true)
              (drop (length qs - k) (np.sort (map Fin qs)))) as Hall.
    { apply Forall_lookup. intros i x Hx.
      rewrite Forall_lookup in Hsuf. specialize (Hsuf i x Hx).
      apply ascending_above with b; [|done|done].
      rewrite lookup_drop in Hx. rewrite Forall_lookup in Hsfin. by apply (Hsfin _ _ Hx). }
    pose proof (filter_length_suffix _ _ _ Hall) as Hcount.
    rewrite Hlen in Hcount. lia.
Qed.

Lemma broadcast2_keepdims {B C D : Type} (op : B -> C -> D)
    (f : list (list B)) (h : list B -> C) :
  np.broadcast2 op f (map (fun x => [x]) (map h f))
  = Some (map (fun r => map (fun x => op x (h r)) r) f).
Proof.
  unfold np.broadcast2, np.bzip at 1.
  rewrite decide_True by (by rewrite !length_map).
  cbn [mbind option_bind]. induction f as [|r f IH]; [done|].
  cbn [map zip_with mapM]. rewrite bzip_scalar. cbn [id mbind option_bind].
  by rewrite IH.
Qed.

(** The sign-adjusted deviation of a value from the median. *)
Lemma regret_from_median_rows (f : list (list xval)) (maximise : bool) :
  t1.regret_from_median (np.Arr2 f) maximise
  = Some (map (fun r => map (fun x =>
                 if maximise then x_sub x (np.median r)
                 else x_opp (x_sub x (np.median r))) r) f).
Proof.
  unfold t1.regret_from_median, np.keepdims. cbn [t1._prepare_f].
  rewrite broadcast2_keepdims. cbn [mbind option_bind]. f_equal.
  destruct maximise; cbn [t1.identity t1._prepare_f]; [done|].
  unfold np.neg, np.neg1. rewrite map_map. apply map_ext. intros r.
  by rewrite map_map.
Qed.

Lemma below_zero_closed (a b : xval) :
  ascending a b -> x_le b np.zero = true -> x_le a np.zero = true.
Proof.
  intros Hab Hb. destruct a as [p| | |], b as [q| | |]; try done.
  apply ascending_fin in Hab. apply x_le_fin in Hb. apply x_le_fin.
  by apply Qcle_trans with q.
Qed.

Lemma deviation_below (maximise : bool) (med : Qc) (x : xval) :
  (if maximise then x_le x (Fin med) = true else x_le (Fin med) x = true) ->
  x_le (if maximise then x_sub x (Fin med) else x_opp (x_sub x (Fin med))) np.zero
  = true.
Proof.
  destruct maximise, x as [p| | |]; try done; intros Hx;
    apply x_le_fin in Hx; apply x_le_fin; change (qc_of_Z 0) with 0%Qc.
  - replace 0%Qc with (med + - med)%Qc by ring.
    apply Qcplus_le_compat; [done|apply Qcle_refl].
  - replace (- (p + - med))%Qc with (med + - p)%Qc by ring.
    replace 0%Qc with (p + - p)%Qc by ring.
    apply Qcplus_le_compat; [done|apply Qcle_refl].
Qed.

Lemma deviation_finite (maximise : bool) (med : Qc) (r : list xval) :
  Forall x_finite r ->
  Forall x_finite
    (map (fun x => if maximise then x_sub x (Fin med)
                   else x_opp (x_sub x (Fin med))) r).
Proof.
  intros Hr. apply Forall_map. eapply Forall_impl; [exact Hr|].
  intros [p| | |] Hp; try done. by destruct maximise.
Qed.

(** The worst half of the deviations of a row holds no positive value. *)
Lemma worst_half_deviations (maximise : bool) (r : list xval) :
  Forall x_finite r -> r <> [] ->
  Forall nonpositive
    (take ((length r + 1) / 2)
       (np.sort (map (fun x => if maximise then x_sub x (np.median r)
                               else x_opp (x_sub x (np.median r))) r))).
Proof.
  intros Hfin Hne. destruct (finite_list r Hfin) as [qs ->].
  assert (qs <> []) as Hqs by (by destruct qs).
  destruct (median_counts qs Hqs) as (med & -> & Hle & Hge).
  rewrite length_map.
  set (g := fun x => if maximise then x_sub x (Fin med) else x_opp (x_sub x (Fin med))).
  set (D := map g (map Fin qs)).
  assert (Forall x_finite (take ((length qs + 1) / 2) (np.sort D))) as Hfin'.
  { apply Forall_take. apply finite_sort. by apply deviation_finite. }
  assert (Forall (fun y => x_le y np.zero = true)
            (take ((length qs + 1) / 2) (np.sort D))) as Hall.
  { apply (sorted_prefix_closed (fun y => x_le y np.zero = true)).
    - apply below_zero_closed.
    - apply sort_ascending.
    - rewrite sort_perm. unfold D.
      destruct maximise.
      + etrans; [exact Hle|].
        apply (filter_length_map (fun x => x_le x (Fin med) = true)
                 (fun y => x_le y np.zero = true)).
        intros x Hx. by apply (deviation_below true).
      + etrans; [exact Hge|].
        apply (filter_length_map (fun x => x_le (Fin med) x = true)
                 (fun y => x_le y np.zero = true)).
        intros x Hx. by apply (deviation_below false). }
  apply Forall_lookup. intros i y Hy.
  rewrite Forall_lookup in Hfin'. rewrite Forall_lookup in Hall.
  specialize (Hfin' i y Hy). specialize (Hall i y Hy). cbv beta in Hall.
  destruct y as [q| | |]; try done. by apply x_le_fin in Hall.
Qed.

Lemma qsum_nonpositive (l : list Qc) :
  Forall (fun q => (q <= 0)%Qc) l -> (qsum l <= 0)%Qc.
Proof.
  induction 1 as [|q l Hq _ IH]; [apply Qcle_refl|].
  unfold qsum. cbn [foldr]. replace 0%Qc with (0 + 0)%Qc by ring.
  by apply Qcplus_le_compat.
Qed.

Lemma mean_over_nonpositive (w : list xval) (k : nat) :
  Forall nonpositive w -> (1 <= k)%nat ->
  nonpositive (x_div (np.sum w) (np.of_nat k)).
Proof.
  intros Hw Hk.
  assert (Forall x_finite w) as Hfin.
  { eapply Forall_impl; [exact Hw|]. by intros []. }
  destruct (finite_list w Hfin) as [qs ->]. rewrite sum_fin.
  change (np.of_nat k) with (Fin (qc_of_Z (Z.of_nat k))).
  rewrite x_div_fin by (by apply qc_of_nat_nonzero). cbn [nonpositive].
  assert (0 = 0 / qc_of_Z (Z.of_nat k))%Qc as -> by (unfold Qcdiv; ring).
  apply qc_div_le_mono; [by apply qc_of_nat_pos|].
  apply qsum_nonpositive. change (map Fin qs) with (Fin <$> qs) in Hw.
  by rewrite Forall_fmap in Hw.
Qed.

Lemma undesirable_deviations_rows (f : list (list xval)) (n : nat)
    (maximise : bool) :
  uniform n f -> (1 <= n)%nat -> Forall (Forall x_finite) f ->
  exists R,
    common_metrics.undesirable_deviations (np.Arr2 f) maximise = Some R
    /\ length R = length f /\ Forall nonpositive R.
Proof.
  intros Hu Hn Hfin. unfold common_metrics.undesirable_deviations.
  rewrite regret_from_median_rows. cbn [mbind option_bind].
  eexists. split; [done|].
  set (g := fun r : list xval => map (fun x =>
              if maximise then x_sub x (np.median r)
              else x_opp (x_sub x (np.median r))) r).
  unfold t2.worst_half.
  destruct f as [|r0 f]; [done|].
  assert (np.shape1 (map np.sort (map g (r0 :: f))) = n) as ->.
  { cbn [map np.shape1]. rewrite length_sort. unfold g. rewrite length_map.
    by apply Forall_cons in Hu as [Hr0 _]. }
  destruct (worst_half_count n) as [-> _]. rewrite Nat2Z.id.
  assert (1 <= (n + 1) / 2 <= n)%nat as Hk.
  { destruct (Nat.Even_or_Odd n) as [[t Ht]|[t Ht]]; rewrite Ht.
    - destruct (half_of_even t) as [_ ->]. lia.
    - replace (2 * t + 1 + 1)%nat with (2 * (t + 1))%nat by lia.
      destruct (half_of_even (t + 1)) as [-> _]. lia. }
  unfold t3.f_sum.
  assert (np.shape1 (map (take ((n + 1) / 2)) (map np.sort (map g (r0 :: f))))
          = ((n + 1) / 2)%nat) as ->.
  { cbn [map np.shape1]. rewrite length_take, length_sort. unfold g.
    rewrite length_map. apply Forall_cons in Hu as [Hr0 _]. rewrite Hr0. lia. }
  split; [by rewrite !length_map|].
  rewrite !Forall_map. apply Forall_lookup. intros i r Hr. cbv beta.
  unfold uniform in Hu. rewrite Forall_lookup in Hu. rewrite Forall_lookup in Hfin.
  specialize (Hu i r Hr). specialize (Hfin i r Hr). cbv beta in Hu.
  apply mean_over_nonpositive; [|lia].
  rewrite <- Hu. apply worst_half_deviations; [done|].
  intros ->. cbn in Hu. lia.
Qed.

(** X15.  For an odd number of scenarios, the undesirable deviations of
    every decision alternative of a finite array are returned and are
    never positive.  The median is then one of the values of the row,
    so that at binary64 the deviations of the worst half are differences
    of finite numbers that are not positive, or minus infinity; for an
    even number of scenarios the median is the mean of two values, whose
    sum can overflow. *)
Theorem undesirable_deviations_nonpositive (f : list (list xval)) (n : nat)
    (maximise : bool) :
  uniform n f -> Nat.odd n = true -> Forall (Forall x_finite) f ->
  exists R,
    common_metrics.undesirable_deviations (np.Arr2 f) maximise = Some R
    /\ length R = length f /\ Forall (fun r => x_le r np.zero = true) R.
Proof.
  intros Hu Hodd Hfin.
  assert (1 <= n)%nat as Hn by (destruct n; [done|lia]).
  destruct (undesirable_deviations_rows f n maximise Hu Hn Hfin)
    as (R & HR & Hlen & Hnp).
  exists R. split; [done|]. split; [done|].
  eapply Forall_impl; [exact Hnp|]. intros [q| | |] Hq; try done.
  by apply x_le_fin.
Qed.

(** The theorem of X15 on a concrete input:
    the matrix of the test-suite. *)
Lemma undesirable_deviations_nonpositive_witness :
  exists R,
    common_metrics.undesirable_deviations (np.Arr2 test_rows) true = Some R
    /\ length R = length (test_rows (A := xval))
    /\ Forall (fun r => x_le r np.zero = true) R.
Proof.
  apply (undesirable_deviations_nonpositive test_rows 3 true);
    [repeat constructor | reflexivity | repeat constructor].
Defined.

(** At binary64 and for an even number of scenarios the median of a
    finite row can overflow, and the undesirable deviations are then
    plus infinity; for an odd number they keep their sign. *)
Lemma deviations_where_the_median_overflows :
  common_metrics.undesirable_deviations (np.Arr2 [[huge; huge]]) false
  = Some [infinity]
  /\ common_metrics.undesirable_deviations
       (np.Arr2 [[(- huge)%float; (- huge)%float; huge; huge; huge]]) true
     = Some [neg_infinity].
Proof. vm_compute. by split. Qed.

(** ** Minimised metrics, and the extremes as they are returned *)

(** X16.  Maximin returns the smallest and maximax the largest value of
    every decision alternative, after the sign flip of a minimised
    metric. *)
Theorem maximin_maximax_extremes (f : np.ndarray xval) (maximise : bool) :
  common_metrics.maximin f maximise = np.amin1 (t1.identity f maximise)
  /\ common_metrics.maximax f maximise = np.amax1 (t1.identity f maximise).
Proof.
  rewrite maximin_rows, maximax_rows. unfold np.amin1, np.amax1.
  split.
  - destruct (mapM _ _) as [v|]; [|done]. cbn. by rewrite map_div_one.
  - destruct (mapM _ _) as [v|]; [|done]. cbn. by rewrite map_div_one.
Qed.






(** ** Shapes that do not fit *)

(** X18.  Regret from a vector of values subtracts the vector from every
    row when it has one value for each scenario, and raises for a
    vector of any other length but one. *)
Theorem regret_from_values_vector (f : list (list xval)) (n : nat)
    (values : list xval) (maximise : bool) :
  f <> [] -> uniform n f ->
  (length values = n ->
   t1.regret_from_values (np.Arr2 f) (np.Vec values) maximise
   = Some (t1.identity (np.Arr2 (map (fun r => zip_with x_sub r values) f)) maximise))
  /\ (length values <> n -> length values <> 1%nat -> n <> 1%nat ->
      t1.regret_from_values (np.Arr2 f) (np.Vec values) maximise = None).
Proof.
  intros Hne Hu. split.
  - intros Hlen. unfold t1.regret_from_values. cbn [t1._prepare_f np.to2d].
    by rewrite (broadcast2_row _ f values n).
  - intros Hlen H1 Hn1. unfold t1.regret_from_values. cbn [t1._prepare_f np.to2d].
    assert (forall r, length r = n -> np.bzip (@n_sub xval _) r values = None) as Hrow.
    { intros r Hr. unfold np.bzip. rewrite decide_False by lia.
      destruct r as [|x [|y r]], values as [|a [|b values]]; cbn in *; try done; lia. }
    destruct f as [|r f]; [done|]. apply Forall_cons in Hu as [Hr Hf].
    unfold np.broadcast2, np.bzip at 1.
    case_decide as Hl.
    + destruct f; [|done]. cbn [zip_with mbind option_bind mapM].
      by rewrite (Hrow r Hr).
    + destruct f as [|r' f]; [done|]. cbn [mbind option_bind map mapM].
      by rewrite (Hrow r Hr).
Qed.

(** The theorem of X18 on a concrete input:
    the matrix of the test-suite, the values
    [[0.79, 1.0, 1.0]]. *)
Lemma regret_from_values_vector_witness :
  t1.regret_from_values (np.Arr2 test_rows)
    (np.Vec [np.ratio 79 100; np.one; np.one]) false
  = Some (t1.identity
            (np.Arr2 (map (fun r => zip_with x_sub r
                                      [np.ratio 79 100; np.one; np.one]) test_rows))
            false).
Proof.
  apply (regret_from_values_vector test_rows 3
           ([np.ratio 79 100; np.one; np.one] : list xval) false);
    [discriminate | repeat constructor | reflexivity].
Defined.

(** X19.  The weighted sum raises unless there is one weight for each
    scenario. *)
Theorem f_w_sum_weights {A : Type} `{Number A}
    (f : list (list A)) (n : nat) (weights : list A) :
  f <> [] -> uniform n f ->
  (t3.f_w_sum f weights = None <-> length weights <> n).
Proof.
  intros Hne Hu. unfold t3.f_w_sum. split.
  - intros Hnone Hlen. revert Hnone.
    clear Hne. induction Hu as [|r f Hr _ IH]; [done|]. cbn [mapM].
    rewrite decide_True by congruence. cbn [mbind option_bind].
    destruct (mapM _ f); [done|]. intros _. by apply IH.
  - intros Hlen. destruct f as [|r f]; [done|].
    apply Forall_cons in Hu as [Hr _]. cbn [mapM].
    by rewrite decide_False by congruence.
Qed.

(** The theorem of X19 on a concrete input:
    the matrix of the test-suite, two weights. *)
Lemma f_w_sum_weights_witness :
  t3.f_w_sum (A := xval) test_rows [np.ratio 1 2; np.ratio 1 2] = None
  <-> length [np.ratio 1 2; np.ratio 1 2 (A := xval)] <> 3%nat.
Proof.
  apply (f_w_sum_weights (A := xval) test_rows 3); [discriminate | repeat constructor].
Defined.

(** ** The kurtosis of a constant row *)

Lemma constant_rows (f : list (list xval)) (n : nat) :
  Forall (constant_row n) f ->
  exists cs, f = map (fun c => replicate n (Fin c)) cs.
Proof.
  induction 1 as [|r f [c ->] _ [cs ->]]; [by exists []|]. by exists (c :: cs).
Qed.

Lemma neg_constant_rows (cs : list Qc) (n : nat) :
  np.neg (map (fun c => replicate n (Fin c)) cs)
  = map (fun c => replicate n (Fin c)) (map Qcopp cs).
Proof.
  unfold np.neg. rewrite !map_map. apply map_ext. intros c.
  unfold np.neg1. induction n as [|n IH]; [done|]. cbn. by rewrite <- IH.
Qed.

Lemma quantile_nearest_constant (n : nat) (c : Qc) (q : Q) :
  (1 <= n)%nat -> (0 <= q)%Q -> (q <= 1)%Q ->
  np.quantile_nearest (replicate n (Fin c)) q = Some (Fin c).
Proof.
  intros Hn H0 H1.
  destruct (quantile_nearest_elem (replicate n (Fin c)) q) as (y & -> & Hy);
    try done.
  - destruct n; [lia|done].
  - by apply elem_of_replicate in Hy as [-> _].
Qed.

Lemma map_constant {B C : Type} (y : C) (l : list B) :
  map (fun _ => y) l = replicate (length l) y.
Proof. induction l as [|x l IH]; [done|]. cbn. by rewrite IH. Qed.

Lemma select_percentiles_constant (cs : list Qc) (n : nat) (ps : list Q) :
  (1 <= n)%nat -> Forall (fun q => (0 <= q)%Q /\ (q <= 1)%Q) ps ->
  t2.select_percentiles (map (fun c => replicate n (Fin c)) cs) ps
  = Some (map (fun c => replicate (length ps) (Fin c)) cs).
Proof.
  intros Hn Hps.
  rewrite (select_percentiles_rows _ ps (fun row _ => default NaN (head row))).
  - f_equal. rewrite map_map. apply map_ext. intros c.
    destruct n as [|n]; [lia|]. apply (map_constant (Fin c) ps).
  - intros row p Hrow Hp. apply list_elem_of_fmap in Hrow as (c & -> & _).
    rewrite Forall_forall in Hps. destruct (Hps p Hp) as [H0 H1].
    rewrite quantile_nearest_constant by done.
    by destruct n; [lia|].
Qed.

Lemma column_constant (cs : list Qc) (k j : nat) :
  (j < k)%nat ->
  np.column j (map (fun c => replicate k (Fin c)) cs) = Some (map Fin cs).
Proof.
  intros Hj. unfold np.column. induction cs as [|c cs IH]; [done|].
  cbn [map mapM]. rewrite lookup_replicate_2 by done. cbn [mbind option_bind].
  by rewrite IH.
Qed.

Lemma x_div_zero_zero (p q : Qc) :
  p = 0%Qc -> q = 0%Qc -> x_div (Fin p) (Fin q) = NaN.
Proof. by intros -> ->. Qed.

Lemma kurtosis_constant (c : Qc) :
  x_div (x_sub (Fin c) (Fin c)) (x_sub (Fin c) (Fin c)) = NaN.
Proof. cbn [x_sub x_opp x_add]. apply x_div_zero_zero; ring. Qed.

Lemma map_all_nan {B : Type} (g : B -> xval) (l : list B) :
  (forall x, g x = NaN) -> map g l = replicate (length l) NaN.
Proof.
  intros Hg. induction l as [|x l IH]; [done|]. cbn. by rewrite Hg, IH.
Qed.

(** X20.  For a decision alternative whose performance is the same
    finite value in every scenario, the percentile kurtosis is NaN: its
    four percentiles are that value, and zero is divided by zero. *)
Theorem percentile_kurtosis_of_constant_rows (f : list (list xval)) (n : nat)
    (maximise : bool) :
  (1 <= n)%nat -> Forall (constant_row n) f ->
  common_metrics.percentile_kurtosis (np.Arr2 f) maximise
  = Some (replicate (length f) NaN).
Proof.
  intros Hn Hconst. destruct (constant_rows f n Hconst) as [cs0 ->].
  rewrite length_map.
  assert (exists cs, t1.identity (np.Arr2 (map (fun c => replicate n (Fin c)) cs0))
                       maximise = map (fun c => replicate n (Fin c)) cs
                     /\ length cs = length cs0) as (cs & Hid & <-).
  { destruct maximise.
    - by exists cs0.
    - exists (map Qcopp cs0). split; [apply neg_constant_rows|by rewrite length_map]. }
  unfold common_metrics.percentile_kurtosis. rewrite Hid.
  rewrite select_percentiles_constant by (by repeat constructor).
  cbn [mbind option_bind length]. unfold t3.f_kurtosis.
  rewrite !column_constant by lia. cbn [mbind option_bind].
  f_equal. rewrite !zip_with_map_same.
  apply map_all_nan. intros c. apply kurtosis_constant.
Qed.

(** The theorem of X20 on a concrete input:
    a 2 x 5 array of ones. *)
Lemma percentile_kurtosis_of_constant_rows_witness :
  common_metrics.percentile_kurtosis (np.Arr2 ones_2x5) true
  = Some (replicate (length ones_2x5) NaN).
Proof.
  apply (percentile_kurtosis_of_constant_rows ones_2x5 5 true); [lia|].
  repeat constructor; by exists (qc_of_Z 1).
Defined.

(** At binary64 the kurtosis of a constant row is NaN also where the
    value is so large that its double overflows; the percentile skew,
    which halves the sum of two percentiles, is then minus infinity. *)
Lemma constant_row_where_the_sum_overflows :
  common_metrics.percentile_kurtosis (np.Arr2 [replicate 5 huge]) true = Some [nan]
  /\ common_metrics.percentile_skew (np.Arr2 [replicate 5 huge]) true
     = Some [neg_infinity].
Proof. vm_compute. by split. Qed.

(** ** The composer *)

Lemma keywords_ok_empty {A : Type} (allowed : list string) :
  py.keywords_ok (A := A) allowed ∅ = true.
Proof. unfold py.keywords_ok. apply bool_decide_eq_true. set_solver. Qed.

(** X21.  The metric composed from [identity], [worst_case] and [f_sum]
    returns what maximin returns, a single value as a bare number. *)
Theorem composed_maximin_is_maximin {A : Type} `{Number A}
    (f : np.ndarray A) (maximise : bool) :
  custom_metrics.call composed_maximin f maximise None None None
  = squeeze <$> common_metrics.maximin f maximise.
Proof.
  unfold custom_metrics.call, composed_maximin, common_metrics.maximin.
  cbn [custom_metrics.t1_func custom_metrics.t2_func custom_metrics.t3_func default].
  unfold custom_metrics.kw_identity, custom_metrics.kw_worst_case,
    custom_metrics.kw_f_sum.
  rewrite !keywords_ok_empty. cbn [mbind option_bind].
  destruct (t2.worst_case _) as [w|]; [|done].
  cbn [mbind option_bind fmap option_fmap option_map].
  by destruct (t3.f_sum w) as [|x [|]].
Qed.

(** ** The similarity of robustness metrics *)

Section TauOnly.
Context {A : Type} `{Number A}.
Variable kendalltau : list A -> list A -> A.

Lemma setitem_shape (M M' : list (list A)) (i j : nat) (v : A) :
  comparisons.setitem M i j v = Some M' -> map length M' = map length M.
Proof.
  unfold comparisons.setitem. destruct (M !! i) as [row|] eqn:Hrow; [|done].
  cbn [mbind option_bind]. case_decide; [|done]. intros [= <-].
  apply list_eq. intros k. rewrite !list_lookup_fmap.
  destruct (decide (k = i)) as [->|Hne].
  - rewrite list_lookup_insert_eq by (by eapply lookup_lt_Some).
    rewrite Hrow. cbn. by rewrite length_insert.
  - by rewrite list_lookup_insert_ne.
Qed.

Lemma setitem_same_shape (M N : list (list A)) (i j : nat) (v w : A) :
  map length M = map length N ->
  comparisons.setitem M i j v = None <-> comparisons.setitem N i j w = None.
Proof.
  intros Hsh. unfold comparisons.setitem.
  assert (length <$> M !! i = length <$> N !! i) as Hrow.
  { change (length <$> M = length <$> N) in Hsh.
    by rewrite <- !list_lookup_fmap, Hsh. }
  destruct (M !! i) as [r1|], (N !! i) as [r2|]; try done.
  cbn in Hrow. injection Hrow as Hrow. cbn [mbind option_bind].
  rewrite Hrow. by case_decide.
Qed.

Lemma tau_step_agrees (R D T : list (list A)) (i j : nat) :
  map length D = map length T ->
  match comparisons.similarity_step kendalltau R i j (D, T) with
  | Some (D', T') =>
      comparisons.tau_step kendalltau R i j T = Some T'
      /\ map length D' = map length T'
  | None => comparisons.tau_step kendalltau R i j T = None
  end.
Proof.
  intros Hsh. unfold comparisons.similarity_step, comparisons.tau_step.
  destruct (np.column i R) as [R1|]; [|done].
  destruct (np.column j R) as [R2|]; [|done].
  cbn [mbind option_bind].
  set (delta := n_mul _ _). set (tau := kendalltau R1 R2).
  destruct (comparisons.setitem D i j delta) as [D1|] eqn:HD1.
  - destruct (comparisons.setitem T i j tau) as [T1|] eqn:HT1.
    2:{ apply (setitem_same_shape D T i j delta tau Hsh) in HT1. congruence. }
    cbn [mbind option_bind].
    assert (map length D1 = map length T1) as Hsh1.
    { rewrite (setitem_shape _ _ _ _ _ HD1), (setitem_shape _ _ _ _ _ HT1). done. }
    destruct (comparisons.setitem D1 j i delta) as [D2|] eqn:HD2.
    + destruct (comparisons.setitem T1 j i tau) as [T2|] eqn:HT2.
      2:{ apply (setitem_same_shape D1 T1 j i delta tau Hsh1) in HT2. congruence. }
      cbn [mbind option_bind]. split; [done|].
      rewrite (setitem_shape _ _ _ _ _ HD2), (setitem_shape _ _ _ _ _ HT2). done.
    + cbn [mbind option_bind].
      by apply (setitem_same_shape D1 T1 j i delta tau Hsh1).
  - cbn [mbind option_bind].
    apply (setitem_same_shape D T i j delta tau Hsh) in HD1. by rewrite HD1.
Qed.

Lemma tau_inner_agrees (R D T : list (list A)) (i : nat) (js : list nat) :
  map length D = map length T ->
  match for_each (comparisons.similarity_step kendalltau R i) js (D, T) with
  | Some (D', T') =>
      for_each (comparisons.tau_step kendalltau R i) js T = Some T'
      /\ map length D' = map length T'
  | None => for_each (comparisons.tau_step kendalltau R i) js T = None
  end.
Proof.
  revert D T. induction js as [|j js IH]; intros D T Hsh; [done|].
  cbn [for_each]. pose proof (tau_step_agrees R D T i j Hsh) as Hstep.
  destruct (comparisons.similarity_step kendalltau R i j (D, T)) as [[D1 T1]|].
  - destruct Hstep as [-> Hsh1]. cbn [mbind option_bind]. by apply IH.
  - by rewrite Hstep.
Qed.

Lemma tau_outer_agrees (R D T : list (list A)) (n : nat) (is_ : list nat) :
  map length D = map length T ->
  match for_each
          (fun idx_1 => for_each (comparisons.similarity_step kendalltau R idx_1)
                          (range idx_1 n)) is_ (D, T) with
  | Some (D', T') =>
      for_each (fun idx_1 => for_each (comparisons.tau_step kendalltau R idx_1)
                               (range idx_1 n)) is_ T = Some T'
      /\ map length D' = map length T'
  | None =>
      for_each (fun idx_1 => for_each (comparisons.tau_step kendalltau R idx_1)
                               (range idx_1 n)) is_ T = None
  end.
Proof.
  revert D T. induction is_ as [|i is_ IH]; intros D T Hsh; [done|].
  cbn [for_each]. pose proof (tau_inner_agrees R D T i (range i n) Hsh) as Hin.
  destruct (for_each (comparisons.similarity_step kendalltau R i) (range i n) (D, T))
    as [[D1 T1]|].
  - destruct Hin as [-> Hsh1]. cbn [mbind option_bind]. by apply IH.
  - by rewrite Hin.
Qed.

End TauOnly.

(** X22.  [R_metric_similarity] returns the rank correlations that
    [scenarios_similarity] returns, and raises when it raises. *)
Theorem R_metric_similarity_is_tau {A : Type} `{Number A}
    (kendalltau : list A -> list A -> A) (R : list (list A)) :
  comparisons.R_metric_similarity kendalltau R
  = snd <$> comparisons.scenarios_similarity kendalltau R.
Proof.
  unfold comparisons.R_metric_similarity, comparisons.scenarios_similarity.
  pose proof (tau_outer_agrees kendalltau R
                (comparisons.zeros (np.shape1 R) (np.shape1 R))
                (comparisons.zeros (np.shape1 R) (np.shape1 R))
                (np.shape1 R) (range 0 (np.shape1 R)) eq_refl) as Hagree.
  destruct (for_each _ _ (_, _)) as [[D T]|].
  - by destruct Hagree as [-> _].
  - by rewrite Hagree.
Qed.

(** ** The evaluator: names, and missing columns *)

Section Evaluator.
Context {A : Type} `{Number A}.

Lemma for_each_keys (f_df : calc.DataFrame A) (df_cols : list string)
    (s_idxs l_idxs : list A) (items : list (string * calc.R_info A))
    (R0 R' : gmap string (py.robustness A)) (h0 h' : py.heap A) :
  for_each (calc.f_to_R_body f_df df_cols s_idxs l_idxs) items (R0, h0)
  = Some (R', h') ->
  dom R' = dom R0 ∪ list_to_set (C := gset string) (map fst items).
Proof.
  revert R0 h0. induction items as [|[name info] items IH]; intros R0 h0 Hrun.
  - cbn in Hrun. injection Hrun as <- <-. set_solver.
  - cbn [for_each] in Hrun.
    destruct (calc.f_to_R_body f_df df_cols s_idxs l_idxs (name, info) (R0, h0))
      as [[R1 h1]|] eqn:Hbody; [|done].
    cbn [mbind option_bind] in Hrun. apply IH in Hrun. rewrite Hrun.
    assert (dom R1 = {[name]} ∪ dom R0) as ->; [|cbn; set_solver].
    unfold calc.f_to_R_body in Hbody.
    destruct (calc.inject_threshold _ _ _ _ _ _) as [h2|]; [|done].
    cbn [mbind option_bind] in Hbody.
    destruct (calc.column_values f_df (calc.i_f info) ≫= _) as [f|]; [|done].
    cbn [mbind option_bind] in Hbody.
    destruct (h2 !! calc.i_kwargs info) as [d|]; [|done].
    cbn [mbind option_bind] in Hbody.
    destruct (_ !! calc.i_kwargs info) as [d'|]; [|done].
    cbn [mbind option_bind] in Hbody.
    destruct (calc.i_func info _ f d') as [r|]; [|done].
    cbn [mbind option_bind] in Hbody. injection Hbody as <- <-.
    by rewrite dom_insert_L.
Qed.

Lemma get_loc_None (f_df : calc.DataFrame A) (name : string) :
  name ∉ calc.columns f_df -> calc.get_loc f_df name = None.
Proof.
  intros Hnot. unfold calc.get_loc.
  destruct (list_find _ _) as [[i c]|] eqn:Hfind; [|done].
  apply list_find_Some in Hfind as (Hc & -> & _).
  apply list_elem_of_lookup_2 in Hc. done.
Qed.

Lemma sort_f_df_None (f_df : calc.DataFrame A) :
  "l_idx" ∉ calc.columns f_df \/ "s_idx" ∉ calc.columns f_df ->
  calc.sort_f_df f_df = None.
Proof.
  intros Hmiss. unfold calc.sort_f_df, calc.sort_values. cbn [mapM].
  destruct Hmiss as [Hl|Hs].
  - by rewrite (get_loc_None f_df "l_idx" Hl).
  - rewrite (get_loc_None f_df "s_idx" Hs).
    by destruct (calc.get_loc f_df "l_idx").
Qed.

Lemma for_each_threshold_missing (f_df : calc.DataFrame A) (df_cols : list string)
    (s_idxs l_idxs : list A) (items : list (string * calc.R_info A))
    (st : gmap string (py.robustness A) * py.heap A) :
  Exists (fun item => exists c, calc.i_threshold item.2 = Some c /\ c ∉ df_cols) items ->
  for_each (calc.f_to_R_body f_df df_cols s_idxs l_idxs) items st = None.
Proof.
  intros Hex. revert st.
  induction Hex as [[name info] items (c & Hc & Hnot)|item items _ IH]; intros [R h].
  - cbn [for_each]. unfold calc.f_to_R_body, calc.inject_threshold.
    cbn in Hc. rewrite Hc. by rewrite bool_decide_eq_false_2.
  - cbn [for_each]. destruct (calc.f_to_R_body _ _ _ _ item (R, h)) as [st'|]; [|done].
    cbn [mbind option_bind]. apply IH.
Qed.

End Evaluator.

(** X23.  The mapping [f_to_R] returns has exactly the names of the
    robustness metrics of [R_dict] as keys. *)
Theorem f_to_R_keys {A : Type} `{Number A}
    (h : py.heap A) (f_df : calc.DataFrame A)
    (R_dict : list (string * calc.R_info A))
    (R : gmap string (py.robustness A)) (h' : py.heap A) :
  calc.f_to_R h f_df R_dict = Some (R, h') ->
  dom R = list_to_set (C := gset string) (map fst R_dict).
Proof.
  unfold calc.f_to_R. intros Hrun.
  destruct (negb _); [done|].
  destruct (calc.sort_f_df f_df) as [f_df'|]; [|done]. cbn [mbind option_bind] in Hrun.
  destruct (calc.get_f_df_details f_df') as [[s_idxs l_idxs]|]; [|done].
  cbn [mbind option_bind] in Hrun. apply for_each_keys in Hrun.
  rewrite Hrun. set_solver.
Qed.

(** The theorem of X23 on a concrete input:
    a metric with a threshold column, on the 2 x 2
    table. *)
Lemma f_to_R_keys_witness :
  dom R_threshold = list_to_set (C := gset string) (map fst R_dict_threshold).
Proof.
  apply (f_to_R_keys store_empty_kwargs table_by_alternative R_dict_threshold
           R_threshold store_threshold).
  vm_compute. reflexivity.
Defined.

(** X24.  [f_to_R] raises when the table lacks the column [l_idx] or
    [s_idx], the performance column of a metric, or the threshold column
    of a metric. *)
Theorem f_to_R_missing_column {A : Type} `{Number A}
    (h : py.heap A) (f_df : calc.DataFrame A)
    (R_dict : list (string * calc.R_info A)) :
  "l_idx" ∉ calc.columns f_df
  \/ "s_idx" ∉ calc.columns f_df
  \/ Exists (fun item => calc.i_f item.2 ∉ calc.columns f_df) R_dict
  \/ Exists (fun item => exists c, calc.i_threshold item.2 = Some c
                           /\ c ∉ calc.columns f_df) R_dict ->
  calc.f_to_R h f_df R_dict = None.
Proof.
  intros Hmiss. unfold calc.f_to_R.
  destruct (forallb _ _) eqn:Hall; [|done]. cbn [negb].
  destruct (calc.sort_f_df f_df) as [f_df'|] eqn:Hsort.
  2:{ done. }
  cbn [mbind option_bind].
  destruct (calc.get_f_df_details f_df') as [[s_idxs l_idxs]|]; [|done].
  cbn [mbind option_bind].
  destruct Hmiss as [Hl|[Hs|[Hf|Ht]]].
  - rewrite sort_f_df_None in Hsort by (by left). done.
  - rewrite sort_f_df_None in Hsort by (by right). done.
  - exfalso. rewrite forallb_forall in Hall. apply Exists_exists in Hf as (item & Hin & Hnot).
    apply Hnot. specialize (Hall (calc.i_f item.2)).
    apply bool_decide_eq_true_1 in Hall; [done|].
    apply in_map_iff. exists item. split; [done|]. by apply list_elem_of_In.
  - by apply for_each_threshold_missing.
Qed.

(** The theorem of X24 on a concrete input:
    a table without the column [l_idx]. *)
Lemma f_to_R_missing_column_witness :
  calc.f_to_R store_empty_kwargs table_without_l_idx R_dict_threshold = None.
Proof.
  apply (f_to_R_missing_column store_empty_kwargs table_without_l_idx R_dict_threshold).
  left. cbn. intros Hin.
  repeat (apply elem_of_cons in Hin as [Hin|Hin]; [discriminate|]).
  by apply elem_of_nil in Hin.
Defined.
